(** * CUMATDL: link normalisation, path resolution and the fetch pipeline

    A shallow embedding of [src/index.ts] (the course-builder mirroring
    script) and of the properties its specification states about it.

    Conventions.  JavaScript strings are [string]s, read as the UTF-8
    encoding of the text; arrays are [list]s; a call that may throw returns
    an [option] or a dedicated result; JavaScript numbers that the code
    keeps integral are exact integers in [Z]; the browser, the network and
    the file system are explicit state and oracles.  Library code the script
    calls (the WHATWG [URL] class, Node's [path] module, [decodeURI] and
    [decodeURIComponent]) is modelled beside the script's own functions;
    what cannot be modelled completely (URL and host parsing, [Number])
    is a parameter of the development, gathered in the class [Runtime]. *)

From Stdlib Require Import Ascii ZArith Lia Sorted.
From Stdlib Require String.
From stdpp Require Import base option list strings gmap.

Local Open Scope Z_scope.

(** ** JavaScript string primitives *)

Module Js.

(** Splitting at every character that satisfies [f]; never the empty
    list, as [String.prototype.split] with a non-empty separator. *)
Fixpoint splitBy (f : ascii → bool) (s : string) : list string :=
  match s with
  | EmptyString => [""]
  | String a s' =>
      if f a then "" :: splitBy f s'
      else match splitBy f s' with
           | [] => [String a ""]
           | w :: ws => String a w :: ws
           end
  end.

(** [s.split(c)] for a one-character separator. *)
Definition split (c : ascii) : string → list string :=
  splitBy (λ a, Ascii.eqb a c).

(** [xs.join(sep)]. *)
Definition join (sep : string) (xs : list string) : string :=
  String.concat sep xs.

(** [Boolean(s)] on a string: true unless the string is empty. *)
Definition truthy (s : string) : bool :=
  match s with EmptyString => false | _ => true end.

(** [xs.filter(Boolean)]. *)
Definition filterTruthy (xs : list string) : list string :=
  filter (λ s, Is_true (truthy s)) xs.

(** [s.startsWith(p)]. *)
Definition startsWith (s p : string) : bool := String.prefix p s.

(** [s.includes(p)]. *)
Fixpoint includes (s p : string) : bool :=
  String.prefix p s ||
  match s with
  | EmptyString => false
  | String _ s' => includes s' p
  end.

(** [s.endsWith(c)] for a one-character [c]. *)
Fixpoint endsWithChar (s : string) (c : ascii) : bool :=
  match s with
  | EmptyString => false
  | String a EmptyString => Ascii.eqb a c
  | String _ s' => endsWithChar s' c
  end.

(** Removal of the longest prefix whose characters all satisfy [f]. *)
Fixpoint dropLeadingBy (f : ascii → bool) (s : string) : string :=
  match s with
  | String a s' => if f a then dropLeadingBy f s' else s
  | EmptyString => EmptyString
  end.

(** Removal of the longest suffix whose characters all satisfy [f]. *)
Fixpoint dropTrailingBy (f : ascii → bool) (s : string) : string :=
  match s with
  | EmptyString => EmptyString
  | String a s' =>
      match dropTrailingBy f s' with
      | EmptyString => if f a then EmptyString else String a EmptyString
      | r => String a r
      end
  end.

(** The longest prefix whose characters all satisfy [f]. *)
Fixpoint takeWhile (f : ascii → bool) (s : string) : string :=
  match s with
  | String a s' => if f a then String a (takeWhile f s') else EmptyString
  | EmptyString => EmptyString
  end.

(** Every character of [s] satisfies [f]. *)
Fixpoint every (f : ascii → bool) (s : string) : bool :=
  match s with
  | EmptyString => true
  | String a s' => f a && every f s'
  end.

(** The characters of [s] that satisfy [f]. *)
Fixpoint filterChars (f : ascii → bool) (s : string) : string :=
  match s with
  | EmptyString => EmptyString
  | String a s' => if f a then String a (filterChars f s') else filterChars f s'
  end.

Definition code (a : ascii) : N := N_of_ascii a.

Definition isDigit (a : ascii) : bool :=
  (N.leb 48 (code a) && N.leb (code a) 57)%N.

Definition isUpper (a : ascii) : bool :=
  (N.leb 65 (code a) && N.leb (code a) 90)%N.

Definition isLower (a : ascii) : bool :=
  (N.leb 97 (code a) && N.leb (code a) 122)%N.

Definition isAlpha (a : ascii) : bool := isUpper a || isLower a.

(** ASCII lower-casing, the only case folding a regular expression with
    the [i] flag (and no [u] flag) performs between ASCII characters. *)
Definition lowerChar (a : ascii) : ascii :=
  if isUpper a then ascii_of_N (code a + 32) else a.

Fixpoint lower (s : string) : string :=
  match s with
  | EmptyString => EmptyString
  | String a s' => String (lowerChar a) (lower s')
  end.

(** [new RegExp(p, 'i').test(s)] for a pattern [p] of literal
    characters, given in lower case. *)
Definition includesIgnoreCase (s p : string) : bool := includes (lower s) p.

(** The value of a string of decimal digits. *)
Fixpoint digitsValueFrom (acc : Z) (s : string) : Z :=
  match s with
  | EmptyString => acc
  | String a s' => digitsValueFrom (10 * acc + (Z.of_N (code a) - 48)) s'
  end.

Definition digitsValue : string → Z := digitsValueFrom 0.

(** White space of [String.prototype.trim] and of [\s]: the ECMAScript
    WhiteSpace and LineTerminator code points, in UTF-8. *)
Definition whiteSpace : list string :=
  [ String "009" ""; String "010" ""; String "011" ""; String "012" "";
    String "013" ""; " ";
    String "194" (String "160" "");                       (* U+00A0 *)
    String "225" (String "154" (String "128" ""));        (* U+1680 *)
    String "226" (String "128" (String "128" ""));        (* U+2000 *)
    String "226" (String "128" (String "129" ""));
    String "226" (String "128" (String "130" ""));
    String "226" (String "128" (String "131" ""));
    String "226" (String "128" (String "132" ""));
    String "226" (String "128" (String "133" ""));
    String "226" (String "128" (String "134" ""));
    String "226" (String "128" (String "135" ""));
    String "226" (String "128" (String "136" ""));
    String "226" (String "128" (String "137" ""));
    String "226" (String "128" (String "138" ""));        (* U+200A *)
    String "226" (String "128" (String "168" ""));        (* U+2028 *)
    String "226" (String "128" (String "169" ""));        (* U+2029 *)
    String "226" (String "128" (String "175" ""));        (* U+202F *)
    String "226" (String "129" (String "159" ""));        (* U+205F *)
    String "227" (String "128" (String "128" ""));        (* U+3000 *)
    String "239" (String "187" (String "191" "")) ].      (* U+FEFF *)

(** Removal of leading occurrences of the given tokens, by recursion on
    the length of [s]. *)
Fixpoint stripTokens (tokens : list string) (fuel : nat) (s : string) : string :=
  match fuel with
  | O => s
  | S fuel' =>
      match list_find (λ w, Is_true (String.prefix w s)) tokens with
      | Some (_, w) =>
          stripTokens tokens fuel'
            (String.substring (String.length w) (String.length s - String.length w) s)
      | None => s
      end
  end.

(** [s.trimStart()]. *)
Definition trimStart (s : string) : string :=
  stripTokens whiteSpace (String.length s) s.

(** [s.trimEnd()]: UTF-8 is self-synchronising, so a white-space
    character ends [s] exactly when its reversal starts the reversal of
    [s]. *)
Definition trimEnd (s : string) : string :=
  String.rev (stripTokens (map String.rev whiteSpace) (String.length s) (String.rev s)).

(** [s.trim()]. *)
Definition trim (s : string) : string := trimEnd (trimStart s).

End Js.

(** ** Node's [path] module, POSIX flavour *)

Module Path.

(** [normalizeString], on the segments of the path: empty and [.]
    segments vanish, [..] removes the segment before it, and is kept only
    above the start of a relative path. *)
Fixpoint normalizeSegments (allowAboveRoot : bool) (stack segs : list string)
  : list string :=
  match segs with
  | [] => rev stack
  | seg :: rest =>
      if String.eqb seg "" || String.eqb seg "."
      then normalizeSegments allowAboveRoot stack rest
      else if String.eqb seg ".."
      then match stack with
           | top :: stack' =>
               if String.eqb top ".."
               then normalizeSegments allowAboveRoot
                      (if allowAboveRoot then ".." :: stack else stack) rest
               else normalizeSegments allowAboveRoot stack' rest
           | [] =>
               normalizeSegments allowAboveRoot
                 (if allowAboveRoot then [".."] else []) rest
           end
      else normalizeSegments allowAboveRoot (seg :: stack) rest
  end.

Definition normalizeString (allowAboveRoot : bool) (path : string) : string :=
  Js.join "/" (normalizeSegments allowAboveRoot [] (Js.split "/" path)).

(** [path.normalize]. *)
Definition normalize (path : string) : string :=
  if negb (Js.truthy path) then "."
  else
    let isAbsolute := Js.startsWith path "/" in
    let trailingSeparator := Js.endsWithChar path "/" in
    let p := normalizeString (negb isAbsolute) path in
    if negb (Js.truthy p)
    then (if isAbsolute then "/" else if trailingSeparator then "./" else ".")
    else
      let p := if trailingSeparator then p +:+ "/" else p in
      if isAbsolute then "/" +:+ p else p.

(** [path.join(...args)]. *)
Definition join (args : list string) : string :=
  match Js.filterTruthy args with
  | [] => "."
  | parts => normalize (Js.join "/" parts)
  end.

(** The loop of [path.resolve], over the arguments from the right and
    then the working directory. *)
Fixpoint resolveGo (resolvedPath : string) (paths : list string) : string * bool :=
  match paths with
  | [] => (resolvedPath, false)
  | p :: rest =>
      if negb (Js.truthy p) then resolveGo resolvedPath rest
      else
        let resolvedPath := p +:+ "/" +:+ resolvedPath in
        if Js.startsWith p "/" then (resolvedPath, true)
        else resolveGo resolvedPath rest
  end.

(** [path.resolve(...args)] in the working directory [cwd]. *)
Definition resolve (cwd : string) (args : list string) : string :=
  let '(resolvedPath, resolvedAbsolute) := resolveGo "" (rev args ++ [cwd]) in
  let p := normalizeString (negb resolvedAbsolute) resolvedPath in
  if resolvedAbsolute then "/" +:+ p
  else if Js.truthy p then p else ".".

Definition isSlash (a : ascii) : bool := Ascii.eqb a "/".

(** [path.dirname]. *)
Definition dirname (path : string) : string :=
  match path with
  | EmptyString => "."
  | String c0 tail =>
      let hasRoot := isSlash c0 in
      let r := Js.dropLeadingBy (λ a, negb (isSlash a))
                 (Js.dropLeadingBy isSlash (String.rev tail)) in
      match r with
      | EmptyString => if hasRoot then "/" else "."
      | String _ r' =>
          let head := String c0 (String.rev r') in
          if hasRoot && Nat.eqb (String.length head) 1 then "//" else head
      end
  end.

End Path.

(** ** The WHATWG URL record, its getters and its setters

    The record and the algorithms below follow the URL Standard: the
    serialiser, the [hostname], [port] and [pathname] setters of the [URL]
    class and the path state of the parser.  The URL parser itself and the
    host parser are parameters (see [Runtime]). *)

Module Url.

Inductive Path :=
| Opaque (s : string)
| Segments (segs : list string).

Record t := mk {
  scheme : string;              (* without the colon *)
  username : string;
  password : string;
  host : option string;         (* the serialised host, [None] when null *)
  port : option string;         (* decimal digits, [None] when null *)
  path : Path;
  query : option string;
  fragment : option string
}.

Definition specialSchemes : list string :=
  ["ftp"; "file"; "http"; "https"; "ws"; "wss"].

Definition isSpecial (u : t) : bool :=
  bool_decide (scheme u ∈ specialSchemes).

Definition isFile (u : t) : bool := String.eqb (scheme u) "file".

Definition hasOpaquePath (u : t) : bool :=
  match path u with Opaque _ => true | Segments _ => false end.

Definition includesCredentials (u : t) : bool :=
  Js.truthy (username u) || Js.truthy (password u).

(** *** Getters *)

Definition serializePath (p : Path) : string :=
  match p with
  | Opaque s => s
  | Segments segs => Js.join "" (map (λ seg, "/" +:+ seg) segs)
  end.

Definition protocol (u : t) : string := scheme u +:+ ":".

Definition hostname (u : t) : string := default "" (host u).

Definition portOf (u : t) : string := default "" (port u).

Definition pathname (u : t) : string := serializePath (path u).

Definition search (u : t) : string :=
  match query u with
  | None | Some EmptyString => ""
  | Some q => "?" +:+ q
  end.

Definition hash (u : t) : string :=
  match fragment u with
  | None | Some EmptyString => ""
  | Some f => "#" +:+ f
  end.

(** The URL serialiser: [u.href], [u.toString()]. *)
Definition href (u : t) : string :=
  scheme u +:+ ":" +:+
  match host u with
  | Some h =>
      "//" +:+
      (if includesCredentials u
       then username u +:+
            (if Js.truthy (password u) then ":" +:+ password u else "") +:+ "@"
       else "") +:+
      h +:+
      match port u with Some p => ":" +:+ p | None => "" end
  | None =>
      match path u with
      | Segments (EmptyString :: _ :: _) => "/."
      | _ => ""
      end
  end +:+
  pathname u +:+
  match query u with Some q => "?" +:+ q | None => "" end +:+
  match fragment u with Some f => "#" +:+ f | None => "" end.

(** [u.origin]: a tuple origin for the network schemes, the opaque
    origin (serialised as [null]) otherwise.  A [blob:] URL, whose origin
    is that of the URL in its path, is not distinguished from the other
    non-special schemes. *)
Definition origin (u : t) : string :=
  if bool_decide (scheme u ∈ ["ftp"; "http"; "https"; "ws"; "wss"])
  then scheme u +:+ "://" +:+ hostname u +:+
       match port u with Some p => ":" +:+ p | None => "" end
  else "null".

(** *** Setters *)

Definition withHost (u : t) (h : option string) : t :=
  mk (scheme u) (username u) (password u) h (port u) (path u) (query u) (fragment u).

Definition withPort (u : t) (p : option string) : t :=
  mk (scheme u) (username u) (password u) (host u) p (path u) (query u) (fragment u).

Definition withPath (u : t) (p : Path) : t :=
  mk (scheme u) (username u) (password u) (host u) (port u) p (query u) (fragment u).

(** The parser first removes every ASCII tab and newline. *)
Definition isTabOrNewline (a : ascii) : bool :=
  (N.eqb (Js.code a) 9 || N.eqb (Js.code a) 10 || N.eqb (Js.code a) 13)%N.

Definition stripTabNewline : string → string :=
  Js.filterChars (λ a, negb (isTabOrNewline a)).

(** The hostname state under a state override: the buffer runs to the
    first [/], [?] or [#] (or [\] in a special URL); a colon outside
    brackets before that makes the setter give up. *)
Fixpoint hostnameBuffer (special insideBrackets : bool) (s : string)
  : option string :=
  match s with
  | EmptyString => Some EmptyString
  | String c s' =>
      if Ascii.eqb c ":" && negb insideBrackets then None
      else if Ascii.eqb c "/" || Ascii.eqb c "?" || Ascii.eqb c "#"
              || (special && Ascii.eqb c "\")
      then Some EmptyString
      else
        let insideBrackets :=
          if Ascii.eqb c "[" then true
          else if Ascii.eqb c "]" then false else insideBrackets in
        String c <$> hostnameBuffer special insideBrackets s'
  end.

(** The file host state: the buffer runs to the first [/], [\], [?]
    or [#]. *)
Definition fileHostBuffer (s : string) : string :=
  Js.takeWhile (λ c, negb (Ascii.eqb c "/" || Ascii.eqb c "\"
                          || Ascii.eqb c "?" || Ascii.eqb c "#")) s.

Section Setters.

(** The host parser: [hostParse isOpaque input] is the serialised host,
    or [None] on failure. *)
Variable hostParse : bool → string → option string.

(** The host the [hostname] setter installs, if it installs one. *)
Definition hostnameToSet (u : t) (value : string) : option string :=
  let input := stripTabNewline value in
  if isFile u then
    let buffer := fileHostBuffer input in
    if negb (Js.truthy buffer) then Some ""
    else h ← hostParse (negb (isSpecial u)) buffer;
         Some (if String.eqb h "localhost" then "" else h)
  else
    buffer ← hostnameBuffer (isSpecial u) false input;
    if isSpecial u && negb (Js.truthy buffer) then None
    else if negb (Js.truthy buffer)
            && (includesCredentials u || bool_decide (is_Some (port u)))
    then None
    else hostParse (negb (isSpecial u)) buffer.

(** [u.hostname = value]. *)
Definition setHostname (u : t) (value : string) : t :=
  if hasOpaquePath u then u
  else match hostnameToSet u value with
       | Some h => withHost u (Some h)
       | None => u
       end.

End Setters.

Definition cannotHavePort (u : t) : bool :=
  match host u with
  | None | Some EmptyString => true
  | Some _ => isFile u
  end.

(** [u.port = ''], the only assignment to [port] the script makes. *)
Definition clearPort (u : t) : t :=
  if cannotHavePort u then u else withPort u None.

(** The path percent-encode set, on bytes: controls, space, bytes above
    [~], the double quote and the characters [# < > ? ^ ` { }]. *)
Definition inPathEncodeSet (a : ascii) : bool :=
  (N.leb (Js.code a) 32 || N.leb 127 (Js.code a))%N
  || bool_decide (a ∈ ["034"; "#"; "<"; ">"; "?"; "^"; "`"; "{"; "}"]%char).

Definition hexDigit (n : N) : ascii :=
  if (n <? 10)%N then ascii_of_N (48 + n) else ascii_of_N (55 + n).

Definition percentEncodeByte (a : ascii) : string :=
  String "%" (String (hexDigit (Js.code a / 16)) (String (hexDigit (Js.code a mod 16)) "")).

Fixpoint percentEncodePath (s : string) : string :=
  match s with
  | EmptyString => EmptyString
  | String a s' =>
      (if inPathEncodeSet a then percentEncodeByte a else String a "")
      +:+ percentEncodePath s'
  end.

Definition isSingleDot (buffer : string) : bool :=
  bool_decide (Js.lower buffer ∈ ["."; "%2e"]).

Definition isDoubleDot (buffer : string) : bool :=
  bool_decide (Js.lower buffer ∈ [".."; ".%2e"; "%2e."; "%2e%2e"]).

(** A Windows drive letter: a letter followed by [:] or [|]. *)
Definition isWindowsDriveLetter (s : string) : bool :=
  match s with
  | String a (String b EmptyString) =>
      Js.isAlpha a && (Ascii.eqb b ":" || Ascii.eqb b "|")
  | _ => false
  end.

Definition isNormalizedDriveLetter (s : string) : bool :=
  match s with
  | String a (String b EmptyString) => Js.isAlpha a && Ascii.eqb b ":"
  | _ => false
  end.

Definition normalizeDriveLetter (s : string) : string :=
  match s with
  | String a (String _ EmptyString) => String a ":"
  | _ => s
  end.

(** Shortening a path, kept with its last segment first. *)
Definition shorten (file : bool) (revPath : list string) : list string :=
  match revPath with
  | [d] => if file && isNormalizedDriveLetter d then revPath else []
  | _ => tail revPath
  end.

(** One round of the path state: the buffer is complete, and is followed
    by a separator or by the end of the input. *)
Definition pathStep (file : bool) (revPath : list string)
           (buffer : string) (followedBySeparator : bool) : list string :=
  if isDoubleDot buffer then
    let revPath := shorten file revPath in
    if followedBySeparator then revPath else "" :: revPath
  else if isSingleDot buffer then
    if followedBySeparator then revPath else "" :: revPath
  else
    let buffer :=
      if file && bool_decide (revPath = []) && isWindowsDriveLetter buffer
      then normalizeDriveLetter buffer else buffer in
    buffer :: revPath.

Fixpoint pathLoop (file : bool) (revPath : list string) (buffers : list string)
  : list string :=
  match buffers with
  | [] => revPath
  | [b] => pathStep file revPath b false
  | b :: rest => pathLoop file (pathStep file revPath b true) rest
  end.

Definition isPathSeparator (special : bool) (a : ascii) : bool :=
  Ascii.eqb a "/" || (special && Ascii.eqb a "\").

(** The path start state and the path state under a state override, for
    a URL whose path has been emptied. *)
Definition parsePath (special file hostIsNull : bool) (value : string)
  : list string :=
  let input := stripTabNewline value in
  match input with
  | EmptyString =>
      if special then [""]
      else if hostIsNull then [""] else []
  | String c rest =>
      let input := if isPathSeparator special c then rest else input in
      rev (pathLoop file []
             (map percentEncodePath (Js.splitBy (isPathSeparator special) input)))
  end.

(** [u.pathname = value]. *)
Definition setPathname (u : t) (value : string) : t :=
  if hasOpaquePath u then u
  else withPath u (Segments (parsePath (isSpecial u) (isFile u)
                               (bool_decide (host u = None)) value)).

End Url.

(** ** [decodeURIComponent] and [decodeURI]

    The ECMAScript [Decode] operation on UTF-8 text: an escape below 128
    yields its character unless that character is reserved, in which case
    the escape is kept; an escape of 128 or more starts a sequence of
    escapes that must spell one well-formed UTF-8 character.  [None] is a
    thrown [URIError]. *)

Module Uri.

Definition hexValue (a : ascii) : option N :=
  let c := Js.code a in
  if Js.isDigit a then Some (c - 48)%N
  else if (N.leb 65 c && N.leb c 70)%N then Some (c - 55)%N
  else if (N.leb 97 c && N.leb c 102)%N then Some (c - 87)%N
  else None.

(** One escape [%XX] at the start of [s]. *)
Definition readEscape (s : string) : option (N * string) :=
  match s with
  | String "%" (String h (String l rest)) =>
      hi ← hexValue h; lo ← hexValue l; Some ((16 * hi + lo)%N, rest)
  | _ => None
  end.

Fixpoint readEscapes (n : nat) (s : string) : option (list N * string) :=
  match n with
  | O => Some ([], s)
  | S n' =>
      '(b, rest) ← readEscape s;
      '(bs, rest') ← readEscapes n' rest;
      Some (b :: bs, rest')
  end.

Definition between (lo b hi : N) : bool := (N.leb lo b && N.leb b hi)%N.

Definition isContinuation (b : N) : bool := between 128 b 191.

(** Well-formed UTF-8 sequences of two to four bytes (Unicode, table
    3-7). *)
Definition wellFormed (bytes : list N) : bool :=
  match bytes with
  | [b0; b1] => between 194 b0 223 && isContinuation b1
  | [b0; b1; b2] =>
      (N.eqb b0 224 && between 160 b1 191 && isContinuation b2)
      || (between 225 b0 236 && isContinuation b1 && isContinuation b2)
      || (N.eqb b0 237 && between 128 b1 159 && isContinuation b2)
      || (between 238 b0 239 && isContinuation b1 && isContinuation b2)
  | [b0; b1; b2; b3] =>
      (N.eqb b0 240 && between 144 b1 191 && isContinuation b2 && isContinuation b3)
      || (between 241 b0 243 && isContinuation b1 && isContinuation b2
          && isContinuation b3)
      || (N.eqb b0 244 && between 128 b1 143 && isContinuation b2 && isContinuation b3)
  | _ => false
  end.

(** The number of bytes announced by a leading byte of 128 or more. *)
Definition sequenceLength (b : N) : option nat :=
  if between 192 b 223 then Some 2%nat
  else if between 224 b 239 then Some 3%nat
  else if between 240 b 247 then Some 4%nat
  else None.

Definition bytesToString (bytes : list N) : string :=
  String.string_of_list_ascii (map ascii_of_N bytes).

Fixpoint decodeFuel (reserved : ascii → bool) (fuel : nat) (s : string)
  : option string :=
  match fuel, s with
  | _, EmptyString => Some EmptyString
  | O, _ => None
  | S fuel', String c rest =>
      if negb (Ascii.eqb c "%") then String c <$> decodeFuel reserved fuel' rest
      else
        '(b, rest1) ← readEscape s;
        if (b <? 128)%N then
          let decoded :=
            if reserved (ascii_of_N b)
            then String.substring 0 3 s
            else String (ascii_of_N b) "" in
          String.append decoded <$> decodeFuel reserved fuel' rest1
        else
          n ← sequenceLength b;
          '(bs, rest2) ← readEscapes (n - 1) rest1;
          if wellFormed (b :: bs)
          then String.append (bytesToString (b :: bs)) <$> decodeFuel reserved fuel' rest2
          else None
  end.

Definition decodeURIComponent (s : string) : option string :=
  decodeFuel (λ _, false) (String.length s) s.

Definition uriReserved (a : ascii) : bool :=
  bool_decide (a ∈ [";"; "/"; "?"; ":"; "@"; "&"; "="; "+"; "$"; ","; "#"]%char).

Definition decodeURI (s : string) : option string :=
  decodeFuel uriReserved (String.length s) s.

End Uri.

(** ** The page *)

(** An [a] element: its [href] content attribute, if it has one. *)
Record Anchor := { attrHref : option string }.

(** What the injected function reads of the page: its location, the URL
    relative references in attributes resolve against, for each [li] its
    first [a] descendant (if any), and all [a] elements in document
    order. *)
Record Document := {
  location : Url.t;
  baseURI : string;
  listItems : list (option Anchor);
  anchors : list Anchor
}.

(** ** The JavaScript runtime

    The parts of the platform taken as parameters: the URL parser
    ([new URL(input, base)], [None] when it throws), the host parser behind
    the [hostname] setter, [Number] as far as the script looks at it (the
    value when [Number.isInteger] holds of it), HTML serialisation and the
    working directory of the process. *)
Class Runtime := {
  newURL : string → option string → option Url.t;
  hostParse : bool → string → option string;
  toInteger : string → option Z;
  outerHTML : Document → string;
  processCwd : string
}.

(** ** Constants of the script *)

Definition PMA_CBROOT : string := "https://www.math.cuhk.edu.hk/course_builder/".
Definition PMA_IP : string := "137.189.49.33".
Definition PMA_NAME : string := "www.math.cuhk.edu.hk".
Definition ALLOWED_HOSTS : list string := [PMA_NAME; PMA_IP].
Definition STAFF_PREFIX : string := "https://www.math.cuhk.edu.hk/~".
Definition CURRENT_YEAR : string := "2526".

Definition DOWNLOAD_ROOT `{Runtime} : string := Path.resolve processCwd ["./dl/"].

Record CourseChoice := {
  label : string;
  displayLabel : string;
  courseHref : string
}.

(** [InjectionConfig].  [yearExpSource] is always [YEAR_FIX_REGEX_SOURCE]
    and is modelled by the matcher [yearMatchHere] below; [missingLogger],
    a closure over the missing-resource log that exists exactly when all
    courses were selected, is modelled by the flag [reportMissing]. *)
Record InjectionConfig := {
  applyYearRewrite : bool;
  yearPrefix : string;
  courseYearDigits : string;
  staffPrefix : string;
  forceHostReplacement : bool;
  hostNeedingFix : string;
  hostReplacement : string;
  reportMissing : bool
}.

(** ** [localPathFromUrl] *)

Definition localPathFromUrl `{Runtime} (url : string) : option string :=
  u ← newURL url None;
  let parts := Js.filterTruthy (Js.split "/" (Url.pathname u)) in
  let parts :=
    match parts with
    | first :: rest => if String.eqb first "course_builder" then rest else parts
    | [] => parts
    end in
  decoded ← mapM Uri.decodeURIComponent parts;
  Some (Path.join (DOWNLOAD_ROOT :: decoded)).


(** ** UrlNormalizer: the year rewrite and [normalizeUrl] *)

(** [YEAR_FIX_REGEX_SOURCE], compiled with the [i] flag, is
    [(\/course_builder\/)(?:_?\d{4})(\/)].  The three functions below are
    its matcher: a literal matched without regard to case, an optional
    underscore and four digits, and a slash. *)
Fixpoint matchIgnoreCase (literal s : string) : option (string * string) :=
  match literal, s with
  | EmptyString, _ => Some (EmptyString, s)
  | String l literal', String c s' =>
      if Ascii.eqb (Js.lowerChar c) l
      then '(m, rest) ← matchIgnoreCase literal' s'; Some (String c m, rest)
      else None
  | String _ _, EmptyString => None
  end.

Definition fourDigits (s : string) : option string :=
  match s with
  | String a (String b (String c (String d rest))) =>
      if Js.isDigit a && Js.isDigit b && Js.isDigit c && Js.isDigit d
      then Some rest else None
  | _ => None
  end.

(** [_?\d{4}] at the start of [s]: what follows the match. *)
Definition yearSegmentHere (s : string) : option string :=
  match s with
  | String c s' => if Ascii.eqb c "_" then fourDigits s' else fourDigits s
  | EmptyString => None
  end.

(** [YEAR_PATTERN], [/^_?\d{4}$/]. *)
Definition YEAR_PATTERN (s : string) : bool :=
  match yearSegmentHere s with
  | Some EmptyString => true
  | _ => false
  end.

(** A match of the year expression at the start of [s]: the first group
    and what follows the whole match (the second group is the slash). *)
Definition yearMatchHere (s : string) : option (string * string) :=
  '(p1, afterAnchor) ← matchIgnoreCase "/course_builder/" s;
  afterYear ← yearSegmentHere afterAnchor;
  match afterYear with
  | String c rest => if Ascii.eqb c "/" then Some (p1, rest) else None
  | EmptyString => None
  end.

(** [pathname.replace(yearExp, (_match, p1, p2) =>
      `${p1}${cfg.yearPrefix}${cfg.courseYearDigits}${p2}`)]: the leftmost
    match is replaced, the expression having no [g] flag. *)
Fixpoint yearReplace (cfg : InjectionConfig) (pathname : string) : string :=
  match yearMatchHere pathname with
  | Some (p1, rest) => p1 +:+ yearPrefix cfg +:+ courseYearDigits cfg +:+ "/" +:+ rest
  | None =>
      match pathname with
      | EmptyString => EmptyString
      | String a s' => String a (yearReplace cfg s')
      end
  end.

Definition normalizeUrl `{Runtime} (cfg : InjectionConfig) (locationHref href : string)
  : option Url.t :=
  target ← newURL href (Some locationHref);
  let target :=
    if forceHostReplacement cfg && String.eqb (Url.hostname target) (hostNeedingFix cfg)
    then Url.clearPort (Url.setHostname hostParse target (hostReplacement cfg))
    else target in
  let target :=
    if applyYearRewrite cfg
    then Url.setPathname target (yearReplace cfg (Url.pathname target))
    else target in
  Some target.

(** ** PathResolver: [splitSegments] and [toRelative] *)

(** [pathname.replace(/^\/+|\/+$/g, '').split('/').filter(Boolean)] *)
Definition splitSegments (pathname : string) : list string :=
  Js.filterTruthy
    (Js.split "/" (Js.dropTrailingBy Path.isSlash (Js.dropLeadingBy Path.isSlash pathname))).

(** [location.pathname.endsWith('/') ? location.pathname
      : location.pathname.replace(/[^/]+$/, '/')] *)
Definition baseDir (locationPathname : string) : string :=
  if Js.endsWithChar locationPathname "/" then locationPathname
  else if Js.truthy locationPathname
       then Js.dropTrailingBy (λ a, negb (Path.isSlash a)) locationPathname +:+ "/"
       else locationPathname.

(** The [while] loop of [toRelative]: the index at which it stops. *)
Fixpoint commonPrefix (baseParts targetParts : list string) : nat :=
  match baseParts, targetParts with
  | b :: bs, t :: ts => if String.eqb b t then S (commonPrefix bs ts) else O
  | _, _ => O
  end.

(** The body of [toRelative] once the target path has been split. *)
Definition toRelativeParts (baseParts targetParts : list string) : string :=
  let i := commonPrefix baseParts targetParts in
  let up := map (λ _ : string, "..") (drop i baseParts) in
  let down := drop i targetParts in
  let rel := Js.join "/" (up ++ down) in
  if Js.truthy rel then rel else ".".

Definition toRelative (baseParts : list string) (targetPath : string) : string :=
  toRelativeParts baseParts (splitSegments targetPath).

(** A path segment: not empty and without a slash. *)
Definition isSegment (s : string) : bool :=
  Js.truthy s && Js.every (λ a, negb (Path.isSlash a)) s.

(** A name in a normalised path: a segment other than [.] and [..]. *)
Definition isName (s : string) : bool :=
  isSegment s && negb (String.eqb s ".") && negb (String.eqb s "..").

(** A normalised absolute path: a slash, names separated by single
    slashes, and possibly a slash after the last name. *)
Definition normalised (p : string) : Prop :=
  ∃ names, Forall (λ s, isName s = true) names
    ∧ (p = "/" +:+ Js.join "/" names
       ∨ names ≠ [] ∧ p = "/" +:+ Js.join "/" names +:+ "/").

(** ** The function evaluated in the page *)

(** The [href] property of an anchor: its attribute resolved against the
    document base URL and serialised, the attribute itself when it does not
    parse, the empty string when there is none. *)
Definition anchorHref `{Runtime} (doc : Document) (a : Anchor) : string :=
  match attrHref a with
  | None => ""
  | Some value =>
      match newURL value (Some (baseURI doc)) with
      | Some u => Url.href u
      | None => value
      end
  end.

(** The loop over [li] elements: what one element adds to [urls]. *)
Definition collectListItem `{Runtime} (cfg : InjectionConfig) (doc : Document)
           (li : option Anchor) : list string :=
  match li with
  | None => []
  | Some a =>
      if Js.includes (anchorHref doc a) "javascript:" then []
      else match normalizeUrl cfg (Url.href (location doc)) (anchorHref doc a) with
           | None => []
           | Some fixed => [Url.href fixed]
           end
  end.

Definition collectDownloadUrls `{Runtime} (cfg : InjectionConfig) (doc : Document)
  : list string :=
  concat (map (collectListItem cfg doc) (listItems doc)).

(** The loop over [a[href]] elements: what it does to one anchor.  The
    patched build has the same loop, run after its string replacements. *)
Definition rewriteAnchor `{Runtime} (cfg : InjectionConfig) (doc : Document)
           (a : Anchor) : Anchor :=
  match attrHref a with
  | None => a
  | Some rawHref =>
      if negb (Js.truthy rawHref) || Js.startsWith rawHref "javascript:" then a
      else match normalizeUrl cfg (Url.href (location doc)) rawHref with
           | None => a
           | Some fixed =>
               if Js.startsWith (Url.href fixed) (staffPrefix cfg) then a
               else if String.eqb (Url.origin fixed) (Url.origin (location doc))
                       && Js.startsWith (Url.pathname fixed) "/course_builder/"
               then
                 let baseParts := splitSegments (baseDir (Url.pathname (location doc))) in
                 let relPath := toRelative baseParts (Url.pathname fixed) in
                 {| attrHref := Some (relPath +:+ Url.search fixed +:+ Url.hash fixed) |}
               else {| attrHref := Some (Url.href fixed) |}
      end
  end.

Definition rewriteDocument `{Runtime} (cfg : InjectionConfig) (doc : Document)
  : Document :=
  {| location := location doc;
     baseURI := baseURI doc;
     listItems := map (fmap (rewriteAnchor cfg doc)) (listItems doc);
     anchors := map (rewriteAnchor cfg doc) (anchors doc) |}.

Record Extraction := {
  downloadUrls : list string;
  serializedHtml : string
}.

Definition DOCTYPE : string := "<!DOCTYPE html>" +:+ String "010" "".

(** The function passed to [evaluateWithRetry]. *)
Definition injected `{Runtime} (cfg : InjectionConfig) (doc : Document) : Extraction :=
  {| downloadUrls := collectDownloadUrls cfg doc;
     serializedHtml := DOCTYPE +:+ outerHTML (rewriteDocument cfg doc) |}.

(** ** The filter applied before fetching *)

Definition usable `{Runtime} (url : string) : bool :=
  if Js.startsWith url STAFF_PREFIX then false
  else match newURL url None with
       | None => false
       | Some u =>
           if negb (bool_decide (Url.hostname u ∈ ALLOWED_HOSTS)) then false
           else if negb (Js.startsWith (Url.pathname u) "/course_builder/") then false
           else true
       end.

Definition usableUrls `{Runtime} (downloadUrls : list string) : list string :=
  filter (λ url, Is_true (usable url)) downloadUrls.

(** ** The file system *)

Module Fs.

Inductive Node :=
| File (data : string)
| Directory.

(** The entry a path names: its segments, the root being [[]].  The
    paths the script uses are absolute. *)
Definition key (p : string) : list string :=
  Path.normalizeSegments false [] (Js.split "/" p).

Definition lookupNode (disk : gmap (list string) Node) (k : list string)
  : option Node :=
  match k with
  | [] => Some Directory
  | _ => disk !! k
  end.

(** [fs.existsSync(p)]: a path with a trailing slash names directories
    only. *)
Definition existsSync (disk : gmap (list string) Node) (p : string) : bool :=
  match lookupNode disk (key p) with
  | Some Directory => true
  | Some (File _) => negb (Js.endsWithChar p "/")
  | None => false
  end.

(** [fs.promises.mkdir(p, { recursive: true })]: the missing directories
    are created from the root down; a file on the way is an error. *)
Fixpoint mkdirFrom (disk : gmap (list string) Node) (above below : list string)
  : option (gmap (list string) Node) :=
  match below with
  | [] => Some disk
  | seg :: rest =>
      let k := above ++ [seg] in
      match disk !! k with
      | Some Directory => mkdirFrom disk k rest
      | Some (File _) => None
      | None => mkdirFrom (<[k := Directory]> disk) k rest
      end
  end.

Definition mkdirRecursive (disk : gmap (list string) Node) (p : string)
  : option (gmap (list string) Node) :=
  mkdirFrom disk [] (key p).

(** [fs.promises.writeFile(p, data)]: the parent must be a directory and
    the path must not name one. *)
Definition writeFile (disk : gmap (list string) Node) (p data : string)
  : option (gmap (list string) Node) :=
  let k := key p in
  if Js.endsWithChar p "/" then None
  else match k with
       | [] => None
       | _ =>
           match lookupNode disk (removelast k), disk !! k with
           | Some Directory, Some Directory => None
           | Some Directory, _ => Some (<[k := File data]> disk)
           | _, _ => None
           end
       end.

End Fs.

(** ** The process: state, environment and control flow *)

Record CourseProgressPayload := {
  courseName : string;
  downloaded : nat;
  total : nat
}.

Record World := {
  disk : gmap (list string) Fs.Node;
  requests : list string;           (* [axios.get] calls, oldest first *)
  navigations : list string;        (* [page.goto] calls, oldest first *)
  evaluations : nat;                (* [page.evaluate] calls so far *)
  console : list string;            (* lines printed, oldest first *)
  missingLog : list string;
  completedCourses : nat;
  courseProgress : option CourseProgressPayload
}.

(** What the outside world answers: whether the [n]-th navigation fails,
    what the [n]-th evaluation in the page meets (a rejection, or the
    document it runs against), and what the [n]-th request returns (an
    error message or the body). *)
Class Environment := {
  gotoRejects : nat → string → option string;
  evaluation : nat → string + Document;
  axiosGet : nat → string → string + string
}.

Inductive Result (A : Type) :=
| Return (a : A)
| Throw (message : string).
Arguments Return {A} a.
Arguments Throw {A} message.

(** An [async] computation of the script: it reads and updates the world
    and either returns or throws. *)
Definition Prog (A : Type) : Type := World → Result A * World.

#[global] Instance prog_ret : MRet Prog := λ A a w, (Return a, w).

#[global] Instance prog_bind : MBind Prog := λ A B f m w,
  match m w with
  | (Return a, w') => f a w'
  | (Throw e, w') => (Throw e, w')
  end.

Definition throw {A} (message : string) : Prog A := λ w, (Throw message, w).

(** [try { body } catch (err) { handler(message of err) }] *)
Definition tryCatch {A} (body : Prog A) (handler : string → Prog A) : Prog A :=
  λ w, match body w with
       | (Return a, w') => (Return a, w')
       | (Throw e, w') => handler e w'
       end.

(** [try { body } finally { cleanup }], for a cleanup that does not throw. *)
Definition finally {A} (body : Prog A) (cleanup : World → World) : Prog A :=
  λ w, let '(r, w') := body w in (r, cleanup w').

Definition modify (f : World → World) : Prog unit := λ w, (Return (), f w).

Definition orThrow {A} (message : string) (o : option A) : Prog A :=
  match o with
  | Some a => mret a
  | None => throw message
  end.

Definition setDisk (d : gmap (list string) Fs.Node) (w : World) : World :=
  {| disk := d; requests := requests w; navigations := navigations w;
     evaluations := evaluations w; console := console w;
     missingLog := missingLog w; completedCourses := completedCourses w;
     courseProgress := courseProgress w |}.

Definition addRequest (url : string) (w : World) : World :=
  {| disk := disk w; requests := requests w ++ [url]; navigations := navigations w;
     evaluations := evaluations w; console := console w;
     missingLog := missingLog w; completedCourses := completedCourses w;
     courseProgress := courseProgress w |}.

Definition addNavigation (url : string) (w : World) : World :=
  {| disk := disk w; requests := requests w; navigations := navigations w ++ [url];
     evaluations := evaluations w; console := console w;
     missingLog := missingLog w; completedCourses := completedCourses w;
     courseProgress := courseProgress w |}.

Definition addEvaluation (w : World) : World :=
  {| disk := disk w; requests := requests w; navigations := navigations w;
     evaluations := S (evaluations w); console := console w;
     missingLog := missingLog w; completedCourses := completedCourses w;
     courseProgress := courseProgress w |}.

Definition addConsole (line : string) (w : World) : World :=
  {| disk := disk w; requests := requests w; navigations := navigations w;
     evaluations := evaluations w; console := console w ++ [line];
     missingLog := missingLog w; completedCourses := completedCourses w;
     courseProgress := courseProgress w |}.

Definition addMissing (entry : string) (w : World) : World :=
  {| disk := disk w; requests := requests w; navigations := navigations w;
     evaluations := evaluations w; console := console w;
     missingLog := missingLog w ++ [entry]; completedCourses := completedCourses w;
     courseProgress := courseProgress w |}.

Definition addCompleted (w : World) : World :=
  {| disk := disk w; requests := requests w; navigations := navigations w;
     evaluations := evaluations w; console := console w;
     missingLog := missingLog w; completedCourses := S (completedCourses w);
     courseProgress := courseProgress w |}.

Definition setCourseProgress (p : option CourseProgressPayload) (w : World) : World :=
  {| disk := disk w; requests := requests w; navigations := navigations w;
     evaluations := evaluations w; console := console w;
     missingLog := missingLog w; completedCourses := completedCourses w;
     courseProgress := p |}.

(** [console.log] and [console.error]; the lines are kept without their
    colours and counts. *)
Definition log (line : string) : Prog unit := modify (addConsole line).

(** [fs.promises.mkdir(p, { recursive: true })] *)
Definition mkdir (p : string) : Prog unit := λ w,
  match Fs.mkdirRecursive (disk w) p with
  | Some d => (Return (), setDisk d w)
  | None => (Throw ("EEXIST: file already exists, mkdir " +:+ p), w)
  end.

(** [fs.promises.writeFile(p, data)] *)
Definition writeFile (p data : string) : Prog unit := λ w,
  match Fs.writeFile (disk w) p data with
  | Some d => (Return (), setDisk d w)
  | None => (Throw ("ENOENT: cannot open " +:+ p), w)
  end.

(** [fs.existsSync(p)] *)
Definition existsSync (p : string) : Prog bool := λ w,
  (Return (Fs.existsSync (disk w) p), w).

(** [axios.get(url, ...)]: the request is issued, then answered. *)
Definition get `{Environment} (url : string) : Prog string := λ w,
  match axiosGet (length (requests w)) url with
  | inr body => (Return body, addRequest url w)
  | inl message => (Throw message, addRequest url w)
  end.

(** ** FetchPipeline: [downloadFile] *)

Inductive FetchStatus :=
| Skipped
| Downloaded.

(** [downloadFile]; the script's function returns nothing, the value
    returned here tells which of its two [return]s was reached. *)
Definition downloadFile `{Runtime, Environment} (url : string) : Prog FetchStatus :=
  localPath ← orThrow "Invalid URL" (localPathFromUrl url);
  mkdir (Path.dirname localPath);;
  present ← existsSync localPath;
  if present : bool then
    log ("[CUMATDL] SKIP existing file: " +:+ localPath);;
    mret Skipped
  else
    data ← get url;
    writeFile localPath data;;
    log ("[CUMATDL] DONE " +:+ localPath);;
    mret Downloaded.

(** ** PageExtractor: [evaluateWithRetry] *)

(** [page.evaluate(fn, arg)]: the call is counted, then it rejects or runs
    [fn] against the document the environment presents. *)
Definition evaluate `{Environment} {T} (fn : Document → T) : Prog T := λ w,
  match evaluation (evaluations w) with
  | inr doc => (Return (fn doc), addEvaluation w)
  | inl message => (Throw message, addEvaluation w)
  end.

(** [/Execution context was destroyed|Cannot find context with specified id/i
      .test(message)] *)
Definition destroyed (message : string) : bool :=
  Js.includesIgnoreCase message "execution context was destroyed"
  || Js.includesIgnoreCase message "cannot find context with specified id".

(** The line [evaluateWithRetry] prints before it tries again. *)
Definition retryNotice : string :=
  "[Injector] Page refreshed itself; retrying evaluation...".

(** The [for] loop of [evaluateWithRetry], [remaining] iterations before
    [attempt] reaches [retries].  The pause and the wait for the page to
    be loaded again, whose failure is ignored, leave no trace. *)
Fixpoint retryLoop `{Environment} {T} (fn : Document → T)
         (retries remaining attempt : nat) : Prog T :=
  match remaining with
  | O => throw "Evaluation retries exceeded"
  | S remaining' =>
      tryCatch (evaluate fn) (λ message,
        if negb (destroyed message) || Nat.eqb attempt (retries - 1)
        then throw message
        else
          log retryNotice;;
          retryLoop fn retries remaining' (S attempt))
  end.

Definition evaluateWithRetry `{Environment} {T} (fn : Document → T) (retries : nat)
  : Prog T :=
  retryLoop fn retries retries 0.

(** ** [processCourse] *)

Inductive FetchResult :=
| Fetched (status : FetchStatus)
| Failed (reason : string).

(** One iteration of the download loop, after [decodeURI]: the [try],
    its [catch] and its [finally]. *)
Definition fetchOne `{Runtime, Environment} (cfg : InjectionConfig)
           (courseLabel : string) (i total : nat) (decoded : string)
  : Prog FetchResult :=
  finally
    (tryCatch
       (status ← downloadFile decoded; mret (Fetched status))
       (λ message,
          log ("[CUMATDL] FAIL " +:+ decoded +:+ ": " +:+ message);;
          (if reportMissing cfg
           then modify (addMissing ("[" +:+ courseLabel +:+ "] " +:+ decoded
                                    +:+ " :: " +:+ message))
           else mret ());;
          mret (Failed message)))
    (setCourseProgress
       (Some {| courseName := courseLabel; downloaded := S i; total := total |})).

(** The download loop; the list returned records the outcome of each
    iteration (the script keeps none). *)
Fixpoint downloadAll `{Runtime, Environment} (cfg : InjectionConfig)
         (courseLabel : string) (total i : nat) (urls : list string)
  : Prog (list FetchResult) :=
  match urls with
  | [] => mret []
  | url :: rest =>
      decoded ← orThrow "URI malformed" (Uri.decodeURI url);
      r ← fetchOne cfg courseLabel i total decoded;
      rs ← downloadAll cfg courseLabel total (S i) rest;
      mret (r :: rs)
  end.

(** [page.goto(href, ...)] *)
Definition goto `{Environment} (href : string) : Prog unit := λ w,
  match gotoRejects (length (navigations w)) href with
  | Some message => (Throw message, addNavigation href w)
  | None => (Return (), addNavigation href w)
  end.

Definition processCourse `{Runtime, Environment}
           (courseChoice : CourseChoice) (config : InjectionConfig) : Prog unit :=
  log ("Navigating to course: " +:+ label courseChoice);;
  goto (courseHref courseChoice);;
  log ("[CUMATDL] Year rewrite: "
       +:+ (if applyYearRewrite config then "enabled" else "disabled")
       +:+ "; host fix: "
       +:+ (if forceHostReplacement config then "enabled" else "disabled"));;
  extraction ← evaluateWithRetry (injected config) 3;
  let usableUrls := usableUrls (downloadUrls extraction) in
  let skipped := (length (downloadUrls extraction) - length usableUrls)%nat in
  (if Nat.eqb skipped 0 then mret ()
   else log "[CUMATDL] Skipped link(s) (staff-only or external).");;
  (if Js.truthy (serializedHtml extraction)
   then
     htmlDir ← orThrow "Invalid URL" (localPathFromUrl (courseHref courseChoice));
     let htmlPath := Path.join [htmlDir; "index.html"] in
     mkdir (Path.dirname htmlPath);;
     writeFile htmlPath (serializedHtml extraction);;
     log ("[CUMATDL] DONE modified index " +:+ htmlPath)
   else log "[CUMATDL] Warning: index.html not captured.");;
  match usableUrls with
  | [] =>
      log "[CUMATDL] No downloadable URLs detected for this course.";;
      (if reportMissing config
       then modify (addMissing ("[" +:+ label courseChoice
                                +:+ "] No downloadable URLs detected"))
       else mret ())
  | _ =>
      modify (setCourseProgress
                (Some {| courseName := label courseChoice; downloaded := 0;
                         total := length usableUrls |}));;
      log ("[CUMATDL] Downloading file(s) for " +:+ label courseChoice +:+ "...");;
      downloadAll config (label courseChoice) (length usableUrls) 0 usableUrls;;
      modify (setCourseProgress None)
  end.

(** ** The main course loop *)

Definition normalizeYear (seg : string) : string :=
  if Js.startsWith seg "_" then seg else "_" +:+ seg.

(** [yearName.replace(/^_/, '')] *)
Definition yearDigits (yearName : string) : string :=
  match yearName with
  | String "_" rest => rest
  | _ => yearName
  end.

(** The configuration [main] builds for the year folder [seg]. *)
Definition injectionConfig (seg : string) (allSelected : bool) : InjectionConfig :=
  let hasUnderscore := Js.startsWith seg "_" in
  let isCurrent := String.eqb (yearDigits seg) CURRENT_YEAR && negb hasUnderscore in
  {| applyYearRewrite := negb isCurrent;
     yearPrefix := if hasUnderscore then "_" else "";
     courseYearDigits := yearDigits (normalizeYear seg);
     staffPrefix := STAFF_PREFIX;
     forceHostReplacement := isCurrent;
     hostNeedingFix := PMA_IP;
     hostReplacement := PMA_NAME;
     reportMissing := allSelected |}.

(** [for (const course of selectedCourses) { ... }] *)
Fixpoint courseLoop `{Runtime, Environment} (config : InjectionConfig)
         (selectedCourses : list CourseChoice) : Prog unit :=
  match selectedCourses with
  | [] => mret ()
  | course :: rest =>
      processCourse course config;;
      modify addCompleted;;
      modify (setCourseProgress None);;
      courseLoop config rest
  end.

(** The end of [main], once the year and the courses are chosen. *)
Definition mainAfterSelection `{Runtime, Environment}
           (seg : string) (selectedCourses : list CourseChoice) (allSelected : bool)
  : Prog unit :=
  courseLoop (injectionConfig seg allSelected) selectedCourses;;
  (λ w,
     if allSelected && negb (bool_decide (missingLog w = []))
     then
       (let missingPath := Path.join [DOWNLOAD_ROOT; normalizeYear seg; "missing.txt"] in
        mkdir (Path.dirname missingPath);;
        writeFile missingPath (Js.join (String "010" "") (missingLog w)
                               +:+ String "010" "");;
        log ("[CUMATDL] Report log saved to: " +:+ missingPath)) w
     else (Return (), w));;
  log "All done.".

(** The whole asynchronous function with its [.catch]: the exit code of
    the process, 1 when [process.exit(1)] is reached. *)
Definition run `{Runtime, Environment}
           (seg : string) (selectedCourses : list CourseChoice) (allSelected : bool)
           (w : World) : Z * World :=
  match mainAfterSelection seg selectedCourses allSelected w with
  | (Return _, w') => (0, setCourseProgress None w')
  | (Throw message, w') => (1, addConsole message (setCourseProgress None w'))
  end.

(** ** [parseCourseSelection] *)

Inductive SelectionError :=
| NoValidSelections
| InvalidRange (chunk : string)
| RangeOutOfBounds (chunk : string) (max : Z)
| InvalidSelection (chunk : string) (max : Z).

Definition dropChars (n : nat) (s : string) : string :=
  String.substring n (String.length s - n) s.

Definition skipSpace (s : string) : string :=
  Js.stripTokens Js.whiteSpace (String.length s) s.

(** [chunk.match(/^(\d+)\s*-\s*(\d+)$/)]: the two groups. *)
Definition matchRange (chunk : string) : option (string * string) :=
  let first := Js.takeWhile Js.isDigit chunk in
  if negb (Js.truthy first) then None
  else
    match skipSpace (dropChars (String.length first) chunk) with
    | String "-" rest =>
        let rest := skipSpace rest in
        let second := Js.takeWhile Js.isDigit rest in
        if negb (Js.truthy second) then None
        else if Js.truthy (dropChars (String.length second) rest) then None
        else Some (first, second)
    | _ => None
    end.

(** [selections.add(x)] on a [Set], kept in insertion order. *)
Definition setAdd (x : Z) (selections : list Z) : list Z :=
  if bool_decide (x ∈ selections) then selections else selections ++ [x].

Fixpoint insertSorted (x : Z) (xs : list Z) : list Z :=
  match xs with
  | [] => [x]
  | y :: ys => if x <=? y then x :: xs else y :: insertSorted x ys
  end.

(** [xs.sort((a, b) => a - b)] *)
Definition sortNumbers (xs : list Z) : list Z := foldr insertSorted [] xs.

(** The body of the loop over chunks. *)
Definition selectChunk `{Runtime} (max : Z) (selections : list Z) (chunk : string)
  : SelectionError + list Z :=
  match matchRange chunk with
  | Some (first, second) =>
      match toInteger first, toInteger second with
      | Some startN, Some endN =>
          let '(startN, endN) := if endN <? startN then (endN, startN) else (startN, endN) in
          if (startN <? 1) || (max <? endN) then inl (RangeOutOfBounds chunk max)
          else inr (foldl (λ sel i, setAdd (i - 1) sel) selections
                      (seqZ startN (endN - startN + 1)))
      | _, _ => inl (InvalidRange chunk)
      end
  | None =>
      match toInteger chunk with
      | Some num =>
          if (num <? 1) || (max <? num) then inl (InvalidSelection chunk max)
          else inr (setAdd (num - 1) selections)
      | None => inl (InvalidSelection chunk max)
      end
  end.

Fixpoint selectChunks `{Runtime} (max : Z) (selections : list Z) (chunks : list string)
  : SelectionError + list Z :=
  match chunks with
  | [] => inr selections
  | chunk :: rest =>
      match selectChunk max selections chunk with
      | inl e => inl e
      | inr selections' => selectChunks max selections' rest
      end
  end.

Definition parseCourseSelection `{Runtime} (input : string) (max : Z)
  : SelectionError + list Z :=
  let chunks := Js.filterTruthy (map Js.trim (Js.split "," input)) in
  match chunks with
  | [] => inl NoValidSelections
  | _ =>
      match selectChunks max [] chunks with
      | inl e => inl e
      | inr selections => inr (sortNumbers selections)
      end
  end.

(** ** A reference runtime

    An instance of [Runtime] on which the script can be run inside Rocq.
    Its URL parser covers absolute [http:] and [https:] URLs without
    credentials whose host is a lower-case domain or a dotted quad and
    whose query and fragment need no percent-encoding; on these it agrees
    with the URL Standard.  Every other input is reported as unparsable,
    which the platform does not do: the instance serves the concrete
    examples below, all inside that fragment, while the general theorems
    hold for every runtime. *)

Module Reference.

Definition isHostChar (a : ascii) : bool :=
  Js.isLower a || Js.isDigit a || Ascii.eqb a "." || Ascii.eqb a "-".

Definition isQuad (labelText : string) : bool :=
  Js.truthy labelText && Js.every Js.isDigit labelText
  && (String.eqb labelText "0" || negb (Js.startsWith labelText "0"))
  && (Js.digitsValue labelText <=? 255)
  && Nat.leb (String.length labelText) 3.

(** A host in the fragment: non-empty labels of host characters, no
    punycode label, and numbers last only in a dotted quad. *)
Definition hostOk (h : string) : bool :=
  let labels := Js.split "." h in
  Js.every isHostChar h
  && forallb Js.truthy labels
  && negb (Js.includes h "xn--")
  && match last labels with
     | Some l =>
         if Js.isDigit (default "a"%char (String.get 0 l))
            || Js.every Js.isDigit l
         then Nat.eqb (length labels) 4 && forallb isQuad labels
         else true
     | None => false
     end.

Definition parseHost (isOpaque : bool) (h : string) : option string :=
  if negb isOpaque && hostOk h then Some h else None.

Definition portOk (p : string) : bool :=
  Js.truthy p && Js.every Js.isDigit p && negb (Js.startsWith p "0")
  && Nat.leb (String.length p) 5 && (Js.digitsValue p <=? 65535).

Definition isPlain (excluded : list ascii) (a : ascii) : bool :=
  (N.leb 33 (Js.code a) && N.leb (Js.code a) 126)%N
  && negb (bool_decide (a ∈ excluded)).

Definition queryOk : string → bool :=
  Js.every (isPlain ["034"; "#"; "<"; ">"; "'"]%char).

Definition fragmentOk : string → bool :=
  Js.every (isPlain ["034"; "<"; ">"; "`"]%char).

Definition notIn (cs : list ascii) (a : ascii) : bool :=
  negb (bool_decide (a ∈ cs)).

(** What follows the scheme and the two slashes. *)
Definition parseAfterScheme (scheme defaultPort rest : string) : option Url.t :=
  let authority := Js.takeWhile (notIn ["/"; "?"; "#"; "\"]%char) rest in
  let afterAuthority := dropChars (String.length authority) rest in
  let hostText := Js.takeWhile (notIn [":"]%char) authority in
  let portText := dropChars (String.length hostText) authority in
  let pathText := Js.takeWhile (notIn ["?"; "#"]%char) afterAuthority in
  let afterPath := dropChars (String.length pathText) afterAuthority in
  let queryText := Js.takeWhile (notIn ["#"]%char) afterPath in
  let fragmentText := dropChars (String.length queryText) afterPath in
  port ← match portText with
         | EmptyString => Some None
         | String _ p =>
             if portOk p
             then Some (if String.eqb p defaultPort then None else Some p)
             else None
         end;
  if hostOk hostText
     && negb (Js.includes pathText "\")
     && queryOk (dropChars 1 queryText)
     && fragmentOk (dropChars 1 fragmentText)
  then Some (Url.mk scheme "" "" (Some hostText) port
               (Url.Segments (Url.parsePath true false false pathText))
               (match queryText with
                | EmptyString => None
                | String _ q => Some q
                end)
               (match fragmentText with
                | EmptyString => None
                | String _ f => Some f
                end))
  else None.

Definition parseUrl (input : string) (base : option string) : option Url.t :=
  if Js.startsWith input "https://"
  then parseAfterScheme "https" "443" (dropChars 8 input)
  else if Js.startsWith input "http://"
  then parseAfterScheme "http" "80" (dropChars 7 input)
  else None.

(** [Number] on decimal integers with an optional sign. *)
Definition parseInteger (s : string) : option Z :=
  let digitsOf t :=
    if Js.truthy t && Js.every Js.isDigit t then Some (Js.digitsValue t) else None in
  match s with
  | String "-" t => Z.opp <$> digitsOf t
  | String "+" t => digitsOf t
  | _ => digitsOf s
  end.

Definition quote : string := String "034" "".

Definition renderAnchor (a : Anchor) : string :=
  match attrHref a with
  | Some h => "<a href=" +:+ quote +:+ h +:+ quote +:+ "></a>"
  | None => "<a></a>"
  end.

Definition render (doc : Document) : string :=
  "<html>" +:+ Js.join "" (map renderAnchor (anchors doc)) +:+ "</html>".

#[export] Instance runtime : Runtime := {|
  newURL := parseUrl;
  hostParse := parseHost;
  toInteger := parseInteger;
  outerHTML := render;
  processCwd := "/home/user/CUMATDL"
|}.

End Reference.


(** ** Scenarios

    Concrete worlds and environments on which the script is run in the
    examples. *)

Module Scenario.

Definition emptyWorld : World :=
  {| disk := ∅; requests := []; navigations := []; evaluations := 0;
     console := []; missingLog := []; completedCourses := 0;
     courseProgress := None |}.

Definition contextDestroyed : string :=
  "Execution context was destroyed, most likely because of a navigation.".

(** A page that reloads itself during the first [failures] evaluations
    and then shows [doc]; every navigation succeeds and every request is
    answered with [body]. *)
Definition flaky (failures : nat) (doc : Document) (body : string) : Environment :=
  {| gotoRejects := λ _ _, None;
     evaluation := λ n, if Nat.ltb n failures then inl contextDestroyed else inr doc;
     axiosGet := λ _ _, inr body |}.

Definition pageUrl : Url.t :=
  Url.mk "https" "" "" (Some "www.math.cuhk.edu.hk") None
    (Url.Segments ["course_builder"; "2223"; "MATH1010"; ""]) None None.

Definition link (h : string) : Anchor := {| attrHref := Some h |}.

(** A course page with two list items, a note and a staff link. *)
Definition coursePage : Document :=
  let notes := link "https://www.math.cuhk.edu.hk/course_builder/2223/MATH1010/notes.pdf" in
  let staff := link "https://www.math.cuhk.edu.hk/~staff/office.html" in
  {| location := pageUrl;
     baseURI := Url.href pageUrl;
     listItems := [Some notes; Some staff];
     anchors := [notes; staff] |}.

Definition math1010 : CourseChoice :=
  {| label := "MATH1010"; displayLabel := "MATH1010";
     courseHref := "https://www.math.cuhk.edu.hk/course_builder/2223/MATH1010/" |}.

Definition math2020 : CourseChoice :=
  {| label := "MATH2020"; displayLabel := "MATH2020";
     courseHref := "https://www.math.cuhk.edu.hk/course_builder/2223/MATH2020/" |}.

End Scenario.

(** ** Dispositions of a link in the rewrite pass *)

(** An anchor the rewrite pass drops: a script pseudo-link, an [href]
    that does not parse, or a normalised URL under the staff prefix. *)
Definition droppedHref `{Runtime} (cfg : InjectionConfig) (doc : Document)
           (rawHref : string) : Prop :=
  Js.startsWith rawHref "javascript:" = true
  ∨ normalizeUrl cfg (Url.href (location doc)) rawHref = None
  ∨ ∃ fixed, normalizeUrl cfg (Url.href (location doc)) rawHref = Some fixed
             ∧ Js.startsWith (Url.href fixed) (staffPrefix cfg) = true.

(** The [href] the rewrite pass gives to a link it keeps. *)
Definition rewrittenHref (doc : Document) (fixed : Url.t) : string :=
  if String.eqb (Url.origin fixed) (Url.origin (location doc))
     && Js.startsWith (Url.pathname fixed) "/course_builder/"
  then toRelative (splitSegments (baseDir (Url.pathname (location doc))))
                  (Url.pathname fixed)
       +:+ Url.search fixed +:+ Url.hash fixed
  else Url.href fixed.

(** ** The string map of the patched build

    Before its two loops, the function that the patched build evaluates in
    the page applies the entries of [stringmap.json] to the text nodes
    under [body] and to the [href] attribute of every element that has
    one.  [replacements] is [Object.entries(config.stringMap ?? {})]. *)

(** [text.split(sep)] for a separator that is not empty: [piece] is what
    has been read since the last separator, and [skip] counts the
    characters of a separator still to pass. *)
Fixpoint splitGo (sep : string) (skip : nat) (piece : string) (text : string)
  : list string :=
  match text with
  | EmptyString => [piece]
  | String c text' =>
      match skip with
      | S skip' => splitGo sep skip' piece text'
      | O =>
          if String.prefix sep text
          then piece :: splitGo sep (String.length sep - 1) "" text'
          else splitGo sep 0 (piece +:+ String c "") text'
      end
  end.

(** [text.split(sep)].  With an empty separator the pieces are the
    characters of the text, one by one (its UTF-16 code units in the
    source, which are its characters for a text of ASCII characters). *)
Definition splitString (sep text : string) : list string :=
  match sep with
  | EmptyString => map (λ c, String c "") (String.list_ascii_of_string text)
  | _ => splitGo sep 0 "" text
  end.

(** The [for] loop of [applyReplacements]; [replacedCount] only feeds a
    line of the page's own console. *)
Fixpoint replaceEach (replacements : list (string * string)) (next : string) : string :=
  match replacements with
  | [] => next
  | (bad, good) :: rest =>
      replaceEach rest
        (if Js.includes next bad then Js.join good (splitString bad next) else next)
  end.

(** [applyReplacements(text)] *)
Definition applyReplacements (replacements : list (string * string)) (text : string)
  : string :=
  if Js.truthy text then replaceEach replacements text else "".

(** What the function of the patched build reads of the page beside the
    [Document]: the values of the text nodes under [body], and the [href]
    attributes of the elements other than [a] that have one. *)
Record PatchedDocument := {
  content : Document;
  textNodes : list string;
  otherHrefs : list string
}.

(** [el.setAttribute('href', next)] when [next !== value], on an anchor. *)
Definition replaceHref (replacements : list (string * string)) (a : Anchor) : Anchor :=
  match attrHref a with
  | None => a
  | Some value => {| attrHref := Some (applyReplacements replacements value) |}
  end.

(** [if (replacements.length) { ... }]: the text nodes, then every
    [[href]].  The page keeps its location, against which the rewrite pass
    resolves. *)
Definition applyStringMap (replacements : list (string * string))
           (page : PatchedDocument) : PatchedDocument :=
  match replacements with
  | [] => page
  | _ :: _ =>
      {| content :=
           {| location := location (content page);
              baseURI := baseURI (content page);
              listItems := map (fmap (replaceHref replacements)) (listItems (content page));
              anchors := map (replaceHref replacements) (anchors (content page)) |};
         textNodes := map (applyReplacements replacements) (textNodes page);
         otherHrefs := map (applyReplacements replacements) (otherHrefs page) |}
  end.

(** The page of the patched build when its function returns: the string
    map applied, then the loop over [a[href]], which is that of
    [rewriteAnchor]. *)
Definition rewritePatched `{Runtime} (replacements : list (string * string))
           (cfg : InjectionConfig) (page : PatchedDocument) : PatchedDocument :=
  let replaced := applyStringMap replacements page in
  {| content := rewriteDocument cfg (content replaced);
     textNodes := textNodes replaced;
     otherHrefs := otherHrefs replaced |}.

(** [serializedHtml] as the patched build returns it, for a serialisation
    [outerHTML_patched] of the page. *)
Definition serializedHtml_patched `{Runtime}
           (outerHTML_patched : PatchedDocument → string)
           (replacements : list (string * string)) (cfg : InjectionConfig)
           (page : PatchedDocument) : string :=
  DOCTYPE +:+ outerHTML_patched (rewritePatched replacements cfg page).

(** ** Well-formed disks and settled resources *)

(** Every entry of the disk lies in directories. *)
Definition wellFormedDisk (d : gmap (list string) Fs.Node) : Prop :=
  ∀ k node, d !! k = Some node →
  ∀ j, (0 < j < length k)%nat → d !! take j k = Some Fs.Directory.

(** A resource is settled on a disk when its local path exists there and
    the directory of that path needs no creation. *)
Definition settled `{Runtime} (decoded : string) (d : gmap (list string) Fs.Node) : Prop :=
  ∃ localPath, localPathFromUrl decoded = Some localPath
    ∧ Fs.mkdirRecursive d (Path.dirname localPath) = Some d
    ∧ Fs.existsSync d localPath = true.

Definition isFetched (r : FetchResult) : Prop :=
  match r with Fetched _ => True | Failed _ => False end.

(** The request [decoded] is for a resource of [urls] whose fetch failed
    in the run with results [results]. *)
Definition failedIn (urls : list string) (results : list FetchResult)
           (decoded : string) : Prop :=
  ∃ k url reason, urls !! k = Some url ∧ Uri.decodeURI url = Some decoded
                  ∧ results !! k = Some (Failed reason).

#[global] Instance node_eq_dec : EqDecision Fs.Node.
Proof. solve_decision. Defined.

(** A test for [wellFormedDisk]. *)
Definition wellFormedDiskCheck (d : gmap (list string) Fs.Node) : bool :=
  forallb (λ entry : list string * Fs.Node,
             forallb (λ j, bool_decide (d !! take j entry.1 = Some Fs.Directory))
                     (seq 1 (length entry.1 - 1)))
          (map_to_list d).

(** The world after the notes of MATH1010 have been fetched once. *)
Definition Scenario_notesUrl : string :=
  "https://www.math.cuhk.edu.hk/course_builder/2223/MATH1010/notes.pdf".

Definition Scenario_afterFirstRun : Result (list FetchResult) * World :=
  @downloadAll Reference.runtime (Scenario.flaky 0 Scenario.coursePage "PDF")
    (injectionConfig "2223" false) "MATH1010" 1 0 [Scenario_notesUrl]
    Scenario.emptyWorld.

(** ** The year rewrite, seen on the segments of the path *)

(** The anchor segment, whatever its case. *)
Definition isAnchorSegment (s : string) : bool :=
  String.eqb (Js.lower s) "course_builder".

(** At index [i] stands the anchor, followed by a year segment which is
    itself followed by a further segment (which is empty when the path
    ends in a slash after the year). *)
Definition yearHit (segs : list string) (i : nat) : Prop :=
  ∃ a y, segs !! i = Some a ∧ isAnchorSegment a = true
    ∧ segs !! S i = Some y ∧ YEAR_PATTERN y = true
    ∧ is_Some (segs !! S (S i)).

(** The rewrite told on segments: the first year segment that follows
    the anchor and is followed by a further segment is replaced.  It is
    compared with [yearReplace], which works on the path string. *)
Fixpoint rewriteYear (replacement : string) (segs : list string) : list string :=
  match segs with
  | [] => []
  | a :: rest =>
      match rest with
      | y :: _ :: _ =>
          if isAnchorSegment a && YEAR_PATTERN y
          then a :: replacement :: tail rest
          else a :: rewriteYear replacement rest
      | _ => a :: rewriteYear replacement rest
      end
  end.

(** ** Paths as the URL parser leaves them *)

(** A segment the path state would store as it is: nothing to encode, no
    separator, not a dot segment. *)
Definition cleanSegment (special : bool) (s : string) : bool :=
  Js.every (λ c, negb (Url.inPathEncodeSet c) && negb (Url.isPathSeparator special c)) s
  && negb (Url.isSingleDot s) && negb (Url.isDoubleDot s).

(** The invariant of parsed URLs that the rewrite relies on: the segments
    of a list path are clean, a drive letter at the head of a [file:] path
    is normalised, and the path is empty only in a non-special URL with a
    host. *)
Definition cleanUrl (u : Url.t) : Prop :=
  match Url.path u with
  | Url.Opaque _ => True
  | Url.Segments segs =>
      Forall (λ s, cleanSegment (Url.isSpecial u) s = true) segs
      ∧ match segs with
        | [] => Url.isSpecial u = false ∧ Url.host u ≠ None
        | s :: _ =>
            Url.isFile u = true → Url.isWindowsDriveLetter s = true →
            Url.isNormalizedDriveLetter s = true
        end
  end.

(** A replacement host the [hostname] setter reads a non-empty buffer
    from: after the removal of tabs and newlines it does not start with a
    delimiter. *)
Definition plainHostInput (value : string) : bool :=
  match Url.stripTabNewline value with
  | EmptyString => false
  | String c _ =>
      negb (Ascii.eqb c "/" || Ascii.eqb c "?" || Ascii.eqb c "#" || Ascii.eqb c "\")
  end.

(** ** The two steps of [normalizeUrl] *)

(** The host fix, as [normalizeUrl] applies it to the parsed URL. *)
Definition hostFixStep `{Runtime} (cfg : InjectionConfig) (target : Url.t) : Url.t :=
  if forceHostReplacement cfg && String.eqb (Url.hostname target) (hostNeedingFix cfg)
  then Url.clearPort (Url.setHostname hostParse target (hostReplacement cfg))
  else target.

(** The year rewrite, as [normalizeUrl] applies it after the host fix. *)
Definition yearRewriteStep (cfg : InjectionConfig) (target : Url.t) : Url.t :=
  if applyYearRewrite cfg
  then Url.setPathname target (yearReplace cfg (Url.pathname target))
  else target.

(** The configuration of a year rewrite, as in the examples of the
    specification. *)
Definition yearConfig (prefix digits : string) : InjectionConfig :=
  {| applyYearRewrite := true; yearPrefix := prefix; courseYearDigits := digits;
     staffPrefix := STAFF_PREFIX; forceHostReplacement := false;
     hostNeedingFix := PMA_IP; hostReplacement := PMA_NAME; reportMissing := false |}.

(** A configuration with both rules: the host fix of the script and a
    rewrite to the year [_2425]. *)
Definition bothRulesConfig : InjectionConfig :=
  {| applyYearRewrite := true; yearPrefix := "_"; courseYearDigits := "2425";
     staffPrefix := STAFF_PREFIX; forceHostReplacement := true;
     hostNeedingFix := PMA_IP; hostReplacement := PMA_NAME; reportMissing := false |}.

(** * The rest of the script: listings, prompts and their answers *)

(** ** Folder names *)

(** [href.replace(/\/+$/, '').split('/').pop() ?? ''] *)
Definition segmentFromHref (href : string) : string :=
  default "" (last (Js.split "/" (Js.dropTrailingBy Path.isSlash href))).

(** The line terminators, which the dot of a regular expression does not
    match: LF, CR, U+2028 and U+2029. *)
Definition lineTerminators : list string :=
  [ String "010" ""; String "013" "";
    String "226" (String "128" (String "168" ""));
    String "226" (String "128" (String "169" "")) ].

(** [COURSE_PATTERN], [/^[A-Za-z]{4}\d{4}.*$/]. *)
Definition COURSE_PATTERN (s : string) : bool :=
  match s with
  | String a (String b (String c (String d rest))) =>
      Js.isAlpha a && Js.isAlpha b && Js.isAlpha c && Js.isAlpha d
      && match fourDigits rest with
         | Some rest' => forallb (λ t, negb (Js.includes rest' t)) lineTerminators
         | None => false
         end
  | _ => false
  end.

(** ** The listings of [main] *)

(** An anchor of a listing table: its text content and the element. *)
Record TableAnchor := {
  textContent : string;
  element : Anchor
}.

(** What [page.$$eval] returns for one anchor. *)
Record DirItem := {
  itemText : string;
  itemHref : string;
  itemRaw : string
}.

(** [a => ({ text: a.textContent?.trim() ?? '', href: a.href,
             raw: a.getAttribute('href') ?? '' })] *)
Definition dirItem `{Runtime} (doc : Document) (a : TableAnchor) : DirItem :=
  {| itemText := Js.trim (textContent a);
     itemHref := anchorHref doc (element a);
     itemRaw := default "" (attrHref (element a)) |}.

Definition isFolder (item : DirItem) : bool := Js.endsWithChar (itemHref item) "/".

Record YearChoice := {
  yearLabel : string;
  yearDisplayLabel : string;
  yearHref : string;
  seg : string
}.

(** [item.text?.replace(/\/+$/, '') ||
     item.raw.replace(/\/+$/, '').split('/').pop() || ''] *)
Definition yearSegment (item : DirItem) : string :=
  let fromText := Js.dropTrailingBy Path.isSlash (itemText item) in
  if Js.truthy fromText then fromText
  else
    let fromRaw :=
      default "" (last (Js.split "/" (Js.dropTrailingBy Path.isSlash (itemRaw item)))) in
    if Js.truthy fromRaw then fromRaw else "".

Definition yearChoice (item : DirItem) : YearChoice :=
  let seg := yearSegment item in
  {| yearLabel := seg;
     yearDisplayLabel := yearDigits seg;
     yearHref := itemHref item;
     seg := seg |}.

(** [yearDirs.map(...).filter(item => YEAR_PATTERN.test(item.seg))], the
    items being those whose [href] ends in a slash. *)
Definition listedYears (items : list DirItem) : list YearChoice :=
  filter (λ y, Is_true (YEAR_PATTERN (seg y)))
    (map yearChoice (filter (λ item, Is_true (isFolder item)) items)).

(** [findIndex], [splice] and [push]: the first entry of the current year
    is moved to the end. *)
Definition currentLast (yearChoices : list YearChoice) : list YearChoice :=
  match list_find (λ y, yearDisplayLabel y = CURRENT_YEAR) yearChoices with
  | Some (currentIdx, currentItem) => delete currentIdx yearChoices ++ [currentItem]
  | None => yearChoices
  end.

(** [segmentFromHref(item.href) || segmentFromHref(item.raw) || item.text] *)
Definition courseSegment (item : DirItem) : string :=
  if Js.truthy (segmentFromHref (itemHref item)) then segmentFromHref (itemHref item)
  else if Js.truthy (segmentFromHref (itemRaw item)) then segmentFromHref (itemRaw item)
  else itemText item.

Definition courseChoice (item : DirItem) : CourseChoice :=
  let seg := courseSegment item in
  {| label := seg; displayLabel := seg; courseHref := itemHref item |}.

(** [courseDirs.filter(...).map(...).filter(item =>
      COURSE_PATTERN.test(item.label))] *)
Definition listedCourses (items : list DirItem) : list CourseChoice :=
  filter (λ c, Is_true (COURSE_PATTERN (label c)))
    (map courseChoice (filter (λ item, Is_true (isFolder item)) items)).

(** ** Numbers in text *)

Definition digitChar (n : N) : ascii := ascii_of_N (48 + n).

Fixpoint decimalFrom (fuel : nat) (n : N) (acc : string) : string :=
  let acc := String (digitChar (n mod 10)) acc in
  match fuel with
  | O => acc
  | S fuel' => if (n <? 10)%N then acc else decimalFrom fuel' (n / 10) acc
  end.

(** [String(n)] for a natural number below [1e21]. *)
Definition decimal (n : N) : string :=
  decimalFrom (N.to_nat (N.log2 n)) n "".

(** [s.padStart(width, fill)] for a one-character [fill] and a string of
    ASCII characters. *)
Definition padStart (s : string) (width : nat) (fill : ascii) : string :=
  String.string_of_list_ascii (replicate (width - String.length s) fill) +:+ s.

(** ** [listChoices] *)

Definition choiceLine (width idx : nat) (displayLabelOf hrefOf : string) : string :=
  "[" +:+ padStart (decimal (N.of_nat (S idx))) width " " +:+ "] "
  +:+ displayLabelOf +:+ " (" +:+ hrefOf +:+ ")".

(** [items.forEach((item, idx) => console.log(...))], from index [idx]. *)
Fixpoint listFrom {T} (displayLabelOf hrefOf : T → string) (width idx : nat)
         (items : list T) : Prog unit :=
  match items with
  | [] => mret ()
  | item :: rest =>
      log (choiceLine width idx (displayLabelOf item) (hrefOf item));;
      listFrom displayLabelOf hrefOf width (S idx) rest
  end.

Definition listChoices {T} (displayLabelOf hrefOf : T → string) (items : list T)
  : Prog unit :=
  let width := String.length (decimal (N.of_nat (length items))) in
  listFrom displayLabelOf hrefOf width 0 items.

(** ** The prompts

    The lines typed at the prompts are a list, consumed from the left; the
    questions themselves are written by [readline], not by [console.log],
    and leave no trace in [console].  A loop that has read every line is
    left [Waiting] for the next one. *)

Inductive Asked (A : Type) :=
| Answered (a : A) (unread : list string)
| Waiting.
Arguments Answered {A} a unread.
Arguments Waiting {A}.

(** [xs[i]] for a number [i] that is an integer: [None] is [undefined]. *)
Definition elementAt {A} (xs : list A) (i : Z) : option A :=
  if i <? 0 then None else xs !! Z.to_nat i.

(** The [while (true)] loop of [chooseYear]. *)
Fixpoint promptYear `{Runtime} (yearChoices : list YearChoice) (answers : list string)
  : Prog (Asked (option YearChoice)) :=
  match answers with
  | [] => mret Waiting
  | ans :: unread =>
      match toInteger ans with
      | Some n =>
          if (1 <=? n) && (n <=? Z.of_nat (length yearChoices))
          then mret (Answered (elementAt yearChoices (n - 1)) unread)
          else log "Invalid choice. Try again.";; promptYear yearChoices unread
      | None => log "Invalid choice. Try again.";; promptYear yearChoices unread
      end
  end.

Definition chooseYear `{Runtime} (yearChoices : list YearChoice) (answers : list string)
  : Prog (Asked (option YearChoice)) :=
  log (String "010" "Select an academic year:");;
  listChoices yearDisplayLabel yearHref yearChoices;;
  promptYear yearChoices answers.

(** The message of the [Error] that [parseCourseSelection] throws. *)
Definition selectionMessage (e : SelectionError) : string :=
  let quoted chunk := String "034" chunk +:+ String "034" "" in
  let bound max := "1-" +:+ decimal (Z.to_N max) in
  match e with
  | NoValidSelections => "No valid selections provided."
  | InvalidRange chunk => "Invalid range " +:+ quoted chunk +:+ "."
  | RangeOutOfBounds chunk max =>
      "Range " +:+ quoted chunk +:+ " is out of bounds (" +:+ bound max +:+ ")."
  | InvalidSelection chunk max =>
      "Invalid selection " +:+ quoted chunk +:+ " (must be within " +:+ bound max +:+ ")."
  end.

(** What [chooseCourses] returns. *)
Record Chosen := {
  courses : list (option CourseChoice);
  allSelected : bool
}.

(** The [while (true)] loop of [chooseCourses]. *)
Fixpoint promptCourses `{Runtime} (courseChoices : list CourseChoice)
         (answers : list string) : Prog (Asked Chosen) :=
  match answers with
  | [] => mret Waiting
  | ans :: unread =>
      let trimmed := Js.trim ans in
      if String.eqb trimmed "-1" then
        log ("> Downloading ALL courses in this year." +:+ String "010" "");;
        mret (Answered {| courses := map Some courseChoices; allSelected := true |} unread)
      else
        match parseCourseSelection trimmed (Z.of_nat (length courseChoices)) with
        | inr indices =>
            mret (Answered {| courses := map (elementAt courseChoices) indices;
                              allSelected := false |} unread)
        | inl err =>
            log (selectionMessage err);;
            promptCourses courseChoices unread
        end
  end.

Definition chooseCourses `{Runtime} (courseChoices : list CourseChoice)
           (answers : list string) : Prog (Asked Chosen) :=
  log (String "010" "Select course(s):");;
  listChoices displayLabel courseHref courseChoices;;
  promptCourses courseChoices answers.

(** ** Applying a relative reference to a directory *)

(** The segments reached from the directory [base] by the relative path
    [rel]: [.] stays, [..] leaves the last segment, a name enters it. *)
Definition follow (base : list string) (rel : string) : list string :=
  Path.normalizeSegments false [] (base ++ Js.split "/" rel).

(** ** Vocabulary of the further properties *)

(** The world after the given lines have been printed. *)
Definition logged (lines : list string) (w : World) : World :=
  foldl (λ w line, addConsole line w) w lines.

(** The lines [listChoices] prints for [items]. *)
Definition choiceLines {T} (displayLabelOf hrefOf : T → string) (items : list T)
  : list string :=
  let width := String.length (decimal (N.of_nat (length items))) in
  imap (λ idx item, choiceLine width idx (displayLabelOf item) (hrefOf item)) items.

(** The number [chooseYear] reads in an answer it accepts, [count] years
    being listed. *)
Definition yearAnswer `{Runtime} (count : nat) (ans : string) : option Z :=
  n ← toInteger ans;
  if (1 <=? n) && (n <=? Z.of_nat count) then Some n else None.

(** The message [chooseCourses] prints for an answer it rejects, [count]
    courses being listed. *)
Definition rejection `{Runtime} (count : nat) (ans : string) : option string :=
  if String.eqb (Js.trim ans) "-1" then None
  else match parseCourseSelection (Js.trim ans) (Z.of_nat count) with
       | inl e => Some (selectionMessage e)
       | inr _ => None
       end.

Definition isFailed (r : FetchResult) : bool :=
  match r with Failed _ => true | Fetched _ => false end.

(** The number of failed fetches among the outcomes of a download loop. *)
Definition failures (results : list FetchResult) : nat :=
  length (filter (λ r, Is_true (isFailed r)) results).

(** The chunk of a selection selects the course numbered [n] (from 1). *)
Definition chunkSelects `{Runtime} (chunk : string) (n : Z) : Prop :=
  match matchRange chunk with
  | Some (first, second) =>
      ∃ a b, toInteger first = Some a ∧ toInteger second = Some b
             ∧ Z.min a b ≤ n ≤ Z.max a b
  | None => toInteger chunk = Some n
  end.

(** The chunks of a selection: [input.split(',').map(s => s.trim())
    .filter(Boolean)]. *)
Definition selectionChunks (input : string) : list string :=
  Js.filterTruthy (map Js.trim (Js.split "," input)).

(** Between two worlds nothing is lost: what is on the disk stays there,
    and the records of requests, navigations, evaluations, printed lines,
    missing resources and completed courses only grow. *)
Definition grows (w w' : World) : Prop :=
  (∀ k, is_Some (disk w !! k) → is_Some (disk w' !! k))
  ∧ requests w `prefix_of` requests w'
  ∧ navigations w `prefix_of` navigations w'
  ∧ (evaluations w ≤ evaluations w')%nat
  ∧ console w `prefix_of` console w'
  ∧ missingLog w `prefix_of` missingLog w'
  ∧ (completedCourses w ≤ completedCourses w')%nat.

(** Between two worlds the browser and the count of courses are left
    alone. *)
Definition quiet (w w' : World) : Prop :=
  navigations w' = navigations w
  ∧ evaluations w' = evaluations w
  ∧ completedCourses w' = completedCourses w.

(** A computation keeps the relation [R] between the world it starts in
    and the world it leaves, whether it returns or throws. *)
Definition keeps (R : World → World → Prop) {A} (m : Prog A) : Prop :=
  ∀ w, R w (m w).2.

(** A relation between worlds that printing, writing to the disk without
    removing anything and reporting progress keep. *)
Class Frame (R : World → World → Prop) : Prop := {
  frame_refl : ∀ w, R w w;
  frame_trans : ∀ w1 w2 w3, R w1 w2 → R w2 w3 → R w1 w3;
  frame_console : ∀ line w, R w (addConsole line w);
  frame_disk : ∀ d w,
    (∀ k, is_Some (disk w !! k) → is_Some (d !! k)) → R w (setDisk d w);
  frame_progress : ∀ p w, R w (setCourseProgress p w)
}.

(** A request the download loop may issue: the decoded form of a URL that
    passes the filter applied before fetching. *)
Definition passedFilter `{Runtime} (decoded : string) : Prop :=
  ∃ url, usable url = true ∧ Uri.decodeURI url = Some decoded.

(** Such a relation that such a request keeps as well. *)
Class FrameFetch `{Runtime} (R : World → World → Prop) : Prop :=
  frame_fetch : ∀ decoded w, passedFilter decoded → R w (addRequest decoded w).

(** Between two worlds every new request satisfies [S]. *)
Definition requestsOnly (S : string → Prop) (w w' : World) : Prop :=
  ∃ extra, requests w' = requests w ++ extra ∧ Forall S extra.

(** Such a relation that recording a missing resource keeps as well. *)
Class FrameLog (R : World → World → Prop) : Prop :=
  frame_missing : ∀ entry w, R w (addMissing entry w).

(** Such a relation that the browser and the count of courses keep as
    well. *)
Class FrameBrowser (R : World → World → Prop) : Prop := {
  frame_navigation : ∀ url w, R w (addNavigation url w);
  frame_evaluation : ∀ w, R w (addEvaluation w);
  frame_completed : ∀ w, R w (addCompleted w)
}.

(** The part of [processCourse] that follows the extraction. *)
Definition afterExtraction `{Runtime, Environment}
           (courseChoice : CourseChoice) (config : InjectionConfig)
           (extraction : Extraction) : Prog unit :=
  let usableUrls := usableUrls (downloadUrls extraction) in
  let skipped := (length (downloadUrls extraction) - length usableUrls)%nat in
  (if Nat.eqb skipped 0 then mret ()
   else log "[CUMATDL] Skipped link(s) (staff-only or external).");;
  (if Js.truthy (serializedHtml extraction)
   then
     htmlDir ← orThrow "Invalid URL" (localPathFromUrl (courseHref courseChoice));
     let htmlPath := Path.join [htmlDir; "index.html"] in
     mkdir (Path.dirname htmlPath);;
     writeFile htmlPath (serializedHtml extraction);;
     log ("[CUMATDL] DONE modified index " +:+ htmlPath)
   else log "[CUMATDL] Warning: index.html not captured.");;
  match usableUrls with
  | [] =>
      log "[CUMATDL] No downloadable URLs detected for this course.";;
      (if reportMissing config
       then modify (addMissing ("[" +:+ label courseChoice
                                +:+ "] No downloadable URLs detected"))
       else mret ())
  | _ =>
      modify (setCourseProgress
                (Some {| courseName := label courseChoice; downloaded := 0;
                         total := length usableUrls |}));;
      log ("[CUMATDL] Downloading file(s) for " +:+ label courseChoice +:+ "...");;
      downloadAll config (label courseChoice) (length usableUrls) 0 usableUrls;;
      modify (setCourseProgress None)
  end.

(** Between two worlds the log of missing resources is left alone. *)
Definition sameLog (w w' : World) : Prop := missingLog w' = missingLog w.

(** * Properties *)

(** ** Strings *)

Section StringFacts.

Lemma truthy_true s : Js.truthy s = true ↔ s ≠ "".
Proof. destruct s; simpl; split; congruence. Qed.

Lemma truthy_false s : Js.truthy s = false ↔ s = "".
Proof. destruct s; simpl; split; congruence. Qed.

Lemma append_cons a s1 s2 : String a s1 +:+ s2 = String a (s1 +:+ s2).
Proof. reflexivity. Qed.

Lemma append_nil_l s : "" +:+ s = s.
Proof. reflexivity. Qed.

Lemma append_nil_r s : s +:+ "" = s.
Proof. induction s as [|a s IH]; [done | by rewrite append_cons, IH]. Qed.

Lemma append_assoc s1 s2 s3 : (s1 +:+ s2) +:+ s3 = s1 +:+ s2 +:+ s3.
Proof. induction s1 as [|a s1 IH]; [done | by rewrite !append_cons, IH]. Qed.

Lemma append_eq_nil s1 s2 : s1 +:+ s2 = "" → s1 = "" ∧ s2 = "".
Proof. destruct s1; [done | rewrite append_cons; congruence]. Qed.

Lemma splitBy_nonempty f s : Js.splitBy f s ≠ [].
Proof.
  destruct s as [|a s]; simpl; [done |].
  destruct (f a); [done |]. by destruct (Js.splitBy f s).
Qed.

Lemma splitBy_every f s :
  Forall (λ seg, Js.every (λ a, negb (f a)) seg = true) (Js.splitBy f s).
Proof.
  induction s as [|a s IH]; simpl.
  - by repeat constructor.
  - destruct (f a) eqn:Hfa.
    + by constructor.
    + destruct (Js.splitBy f s) as [|w ws]; [by repeat constructor; simpl; rewrite Hfa |].
      inversion IH; subst. constructor; [simpl; by rewrite Hfa | done].
Qed.

Lemma join_cons sep x xs :
  Js.join sep (x :: xs) = match xs with [] => x | _ => x +:+ sep +:+ Js.join sep xs end.
Proof. done. Qed.

Lemma join_splitBy c s : Js.join (String c "") (Js.split c s) = s.
Proof.
  unfold Js.split. induction s as [|a s IH]; [done |].
  cbn [Js.splitBy]. destruct (Ascii.eqb a c) eqn:Hac.
  - apply Ascii.eqb_eq in Hac as ->. rewrite join_cons.
    pose proof (splitBy_nonempty (λ a, Ascii.eqb a c) s).
    destruct (Js.splitBy _ s) eqn:E; [done |]. rewrite IH. done.
  - destruct (Js.splitBy _ s) as [|w ws] eqn:E.
    + by apply splitBy_nonempty in E.
    + rewrite join_cons in IH |- *. destruct ws; simpl; by rewrite <- IH.
Qed.

Lemma splitBy_free f s :
  Js.every (λ a, negb (f a)) s = true → Js.splitBy f s = [s].
Proof.
  induction s as [|a s IH]; simpl; [done |].
  intros [Ha Hs]%andb_true_iff. apply negb_true_iff in Ha. rewrite Ha, (IH Hs). done.
Qed.

Lemma splitBy_app_sep f s c t :
  Js.every (λ a, negb (f a)) s = true → f c = true →
  Js.splitBy f (s +:+ String c t) = s :: Js.splitBy f t.
Proof.
  intros Hs Hc. induction s as [|a s IH]; simpl in *.
  - by rewrite Hc.
  - apply andb_true_iff in Hs as [Ha Hs]. apply negb_true_iff in Ha.
    rewrite Ha, (IH Hs). done.
Qed.

Lemma splitBy_join f c segs :
  f c = true → segs ≠ [] →
  Forall (λ seg, Js.every (λ a, negb (f a)) seg = true) segs →
  Js.splitBy f (Js.join (String c "") segs) = segs.
Proof.
  intros Hc Hne Hall. induction Hall as [|x xs Hx Hxs IH]; [done |].
  rewrite join_cons. destruct xs as [|y ys].
  - by apply splitBy_free.
  - rewrite append_cons, append_nil_l, splitBy_app_sep by done.
    by rewrite IH.
Qed.

Lemma prefix_cons a s b t :
  String.prefix (String a s) (String b t) = Ascii.eqb a b && String.prefix s t.
Proof.
  simpl. destruct (ascii_dec a b) as [->|Hne].
  - by rewrite Ascii.eqb_refl.
  - apply Ascii.eqb_neq in Hne. by rewrite Hne.
Qed.

Lemma prefix_append s t : String.prefix s (s +:+ t) = true.
Proof.
  induction s as [|a s IH]; simpl; [by destruct t |].
  destruct (ascii_dec a a); [done | congruence].
Qed.

End StringFacts.

(** ** PathResolver *)

Section PathResolver.

Lemma splitSegments_segments pathname :
  Forall (λ s, isSegment s = true) (splitSegments pathname).
Proof.
  unfold splitSegments, Js.filterTruthy, Js.split.
  apply Forall_forall. intros s [Hs Hin]%list_elem_of_filter.
  unfold isSegment. apply andb_true_iff. split; [by apply Is_true_true |].
  pose proof (splitBy_every (λ a, Ascii.eqb a "/")
                (Js.dropTrailingBy Path.isSlash (Js.dropLeadingBy Path.isSlash pathname)))
    as Hall.
  rewrite Forall_forall in Hall. by apply Hall.
Qed.

Lemma commonPrefix_le base target :
  (commonPrefix base target ≤ length base ∧ commonPrefix base target ≤ length target)%nat.
Proof.
  revert target. induction base as [|b bs IH]; intros [|t ts]; simpl; try lia.
  destruct (String.eqb b t); simpl; [specialize (IH ts) |]; lia.
Qed.

(** The loop stops at the length of the longest common prefix. *)
Lemma commonPrefix_longest base target :
  let k := commonPrefix base target in
  take k base = take k target ∧
  ∀ x y, base !! k = Some x → target !! k = Some y → x ≠ y.
Proof.
  revert target. induction base as [|b bs IH]; intros [|t ts]; simpl; try done.
  destruct (String.eqb_spec b t) as [->|Hne]; simpl.
  - destruct (IH ts) as [Htake Hdiff]. split; [by rewrite Htake | done].
  - split; [done | congruence].
Qed.

Lemma map_const_replicate {A B} (b : B) (l : list A) :
  map (λ _, b) l = replicate (length l) b.
Proof. induction l; simpl; congruence. Qed.

Lemma join_nil_iff sep xs :
  Forall (λ s, Js.truthy s = true) xs → Js.join sep xs = "" ↔ xs = [].
Proof.
  intros Hall. split; [| by intros ->].
  destruct Hall as [|x xs Hx _]; [done |].
  rewrite join_cons. destruct x; [done |]. by destruct xs.
Qed.

Lemma join_head sep x xs c rest :
  x = String c rest → ∃ rest', Js.join sep (x :: xs) = String c rest'.
Proof. intros ->. rewrite join_cons. destruct xs; eauto. Qed.

Lemma segment_head s :
  isSegment s = true → ∃ c rest, s = String c rest ∧ c ≠ "/"%char.
Proof.
  unfold isSegment. destruct s as [|c rest]; [done |]. simpl.
  intros [Hc _]%andb_true_iff. exists c, rest. split; [done |].
  apply negb_true_iff in Hc. unfold Path.isSlash in Hc. by apply Ascii.eqb_neq.
Qed.

Lemma dotdot_segment : isSegment ".." = true.
Proof. reflexivity. Qed.

Lemma toRelativeParts_segments base target :
  Forall (λ s, isSegment s = true) target →
  Forall (λ s, isSegment s = true)
    (map (λ _ : string, "..") (drop (commonPrefix base target) base)
     ++ drop (commonPrefix base target) target).
Proof.
  intros Ht. apply Forall_app. split.
  - apply Forall_forall. intros s [y [-> _]]%list_elem_of_fmap. apply dotdot_segment.
  - by apply Forall_drop.
Qed.

End PathResolver.

(** C6.  For every base and every target sequence of path segments,
    [toRelative] stops its loop at the length [k] of their longest common
    prefix and returns [length base - k] times [..] followed by the target
    from [k] on, joined with slashes; it returns [.] when both sequences
    are consumed; its result never starts with a slash.  In particular
    [(a/b, a/b)] gives [.], [(a/b, a/c)] gives [../c] and [(, x/y)] gives
    [x/y]. *)
Theorem toRelative_longest_common_prefix :
  (∀ base target : list string,
     Forall (λ s, isSegment s = true) target →
     let k := commonPrefix base target in
     (take k base = take k target
      ∧ ∀ x y, base !! k = Some x → target !! k = Some y → x ≠ y)
     ∧ toRelativeParts base target =
         (if decide (k = length base ∧ k = length target) then "."
          else Js.join "/" (replicate (length base - k) ".." ++ drop k target))
     ∧ Js.startsWith (toRelativeParts base target) "/" = false)
  ∧ toRelativeParts ["a"; "b"] ["a"; "b"] = "."
  ∧ toRelativeParts ["a"; "b"] ["a"; "c"] = "../c"
  ∧ toRelativeParts [] ["x"; "y"] = "x/y".
Proof.
  split; [| by repeat split].
  intros base target Htarget k. split; [apply commonPrefix_longest |].
  pose proof (toRelativeParts_segments base target Htarget) as Hsegs.
  pose proof (commonPrefix_le base target) as [Hkb Hkt]. fold k in Hsegs, Hkb, Hkt.
  assert (Htruthy : Forall (λ s, Js.truthy s = true)
            (map (λ _ : string, "..") (drop k base) ++ drop k target)).
  { eapply Forall_impl; [exact Hsegs |]. intros s Hs.
    unfold isSegment in Hs. by apply andb_true_iff in Hs as [? _]. }
  unfold toRelativeParts. fold k.
  destruct (Js.truthy (Js.join "/" _)) eqn:Hrel.
  - split.
    + rewrite map_const_replicate, length_drop.
      destruct (decide _) as [[Hb Ht]|_]; [| done].
      exfalso. rewrite drop_ge in Hrel by lia.
      rewrite (drop_ge target) in Hrel by lia. done.
    + destruct (map _ (drop k base) ++ drop k target) as [|x xs] eqn:E; [done |].
      inversion Hsegs as [|? ? Hx _]; subst.
      destruct (segment_head _ Hx) as (c & rest & -> & Hc).
      destruct (join_head "/" (String c rest) xs c rest eq_refl) as [rest' ->].
      unfold Js.startsWith. rewrite prefix_cons.
      apply andb_false_iff. left. apply Ascii.eqb_neq. congruence.
  - split; [| done].
    apply truthy_false, join_nil_iff in Hrel; [| done].
    apply app_eq_nil in Hrel as [Hup Hdown].
    apply fmap_nil_inv in Hup.
    apply (f_equal length) in Hup, Hdown. rewrite length_drop in Hup, Hdown.
    simpl in Hup, Hdown.
    destruct (decide _) as [_|Hn]; [done |]. exfalso. apply Hn. lia.
Qed.

(** C6, witness: the base [a/b] and the target [a/c]. *)
Lemma toRelative_longest_common_prefix_witness :
  Forall (λ s, isSegment s = true) ["a"; "c"] ∧ toRelativeParts ["a"; "b"] ["a"; "c"] = "../c".
Proof.
  assert (H : Forall (λ s, isSegment s = true) ["a"; "c"]) by (by repeat constructor).
  split; [exact H |].
  destruct toRelative_longest_common_prefix as [Hgen _].
  destruct (Hgen ["a"; "b"] ["a"; "c"] H) as (_ & -> & _). reflexivity.
Defined.

(** The same on path strings, as the script calls it: the segments are
    those of [splitSegments]. *)
Corollary toRelative_paths (baseDirectory targetPath : string) :
  let base := splitSegments baseDirectory in
  let target := splitSegments targetPath in
  let k := commonPrefix base target in
  toRelative base targetPath =
    (if decide (k = length base ∧ k = length target) then "."
     else Js.join "/" (replicate (length base - k) ".." ++ drop k target))
  ∧ Js.startsWith (toRelative base targetPath) "/" = false.
Proof.
  intros base target k.
  destruct toRelative_longest_common_prefix as [Hgen _].
  destruct (Hgen base target (splitSegments_segments targetPath)) as (_ & H1 & H2).
  by split.
Qed.

(** ** Course selection *)

Section Selection.

Context `{Runtime}.

Lemma setAdd_elem x y sel : y ∈ setAdd x sel ↔ y = x ∨ y ∈ sel.
Proof.
  unfold setAdd. case_bool_decide as Hin.
  - split; [by right | intros [->|]; done].
  - rewrite elem_of_app, list_elem_of_singleton. tauto.
Qed.

Lemma setAdd_NoDup x sel : NoDup sel → NoDup (setAdd x sel).
Proof.
  intros Hnd. unfold setAdd. case_bool_decide as Hin; [done |].
  apply NoDup_app. split_and!; [done | | apply NoDup_singleton].
  intros y Hy ->%list_elem_of_singleton. done.
Qed.

(** What the selections are after a range has been added. *)
Lemma addRange_spec (P : Z → Prop) sel (range : list Z) :
  NoDup sel → Forall P sel → Forall (λ i, P (i - 1)) range →
  let sel' := foldl (λ sel i, setAdd (i - 1) sel) sel range in
  NoDup sel' ∧ Forall P sel'.
Proof.
  revert sel. induction range as [|i range IH]; intros sel Hnd HP Hr; simpl; [done |].
  inversion Hr; subst. apply IH; [by apply setAdd_NoDup | | done].
  apply Forall_forall. intros y [->|Hy]%setAdd_elem; [done |].
  rewrite Forall_forall in HP. by apply HP.
Qed.

Lemma selectChunk_invariant max sel chunk sel' :
  NoDup sel → Forall (λ i, 0 ≤ i ≤ max - 1) sel →
  selectChunk max sel chunk = inr sel' →
  NoDup sel' ∧ Forall (λ i, 0 ≤ i ≤ max - 1) sel'.
Proof.
  intros Hnd Hin. unfold selectChunk.
  destruct (matchRange chunk) as [[first second]|].
  - destruct (toInteger first) as [a|]; [| done].
    destruct (toInteger second) as [b|]; [| done].
    destruct (b <? a) eqn:Hswap; simpl;
      (destruct (_ <? 1) eqn:Hlo; [done |]);
      (destruct (max <? _) eqn:Hhi; [done |]); simpl;
      intros [= <-]; apply addRange_spec; try done;
      apply Forall_forall; intros i Hi%elem_of_seqZ; lia.
  - destruct (toInteger chunk) as [num|]; [| done].
    destruct (num <? 1) eqn:Hlo; [done |].
    destruct (max <? num) eqn:Hhi; [done |]. simpl.
    intros [= <-]. split; [by apply setAdd_NoDup |].
    apply Forall_forall. intros y [->|Hy]%setAdd_elem; [lia |].
    rewrite Forall_forall in Hin. by apply Hin.
Qed.

Lemma selectChunks_invariant max chunks sel sel' :
  NoDup sel → Forall (λ i, 0 ≤ i ≤ max - 1) sel →
  selectChunks max sel chunks = inr sel' →
  NoDup sel' ∧ Forall (λ i, 0 ≤ i ≤ max - 1) sel'.
Proof.
  revert sel. induction chunks as [|chunk rest IH]; intros sel Hnd Hin; simpl.
  - by intros [= <-].
  - destruct (selectChunk max sel chunk) as [e|sel1] eqn:E; [done |].
    destruct (selectChunk_invariant _ _ _ _ Hnd Hin E). by apply IH.
Qed.

Lemma insertSorted_elem x y xs : y ∈ insertSorted x xs ↔ y = x ∨ y ∈ xs.
Proof.
  induction xs as [|z zs IH]; simpl.
  - rewrite list_elem_of_singleton, elem_of_nil. tauto.
  - destruct (x <=? z); [by rewrite elem_of_cons |].
    rewrite !elem_of_cons, IH. tauto.
Qed.

Lemma insertSorted_increasing x xs :
  x ∉ xs → StronglySorted Z.lt xs → StronglySorted Z.lt (insertSorted x xs).
Proof.
  intros Hx Hs. induction Hs as [|z zs Hzs IH Hz]; simpl.
  - by repeat constructor.
  - apply not_elem_of_cons in Hx as [Hxz Hx].
    destruct (x <=? z) eqn:Hle.
    + constructor; [by constructor |].
      constructor; [lia |]. eapply Forall_impl; [exact Hz |]. simpl. lia.
    + constructor; [by apply IH |].
      apply Forall_forall. intros y [->|Hy]%insertSorted_elem; [lia |].
      rewrite Forall_forall in Hz. by apply Hz.
Qed.

Lemma sortNumbers_elem y xs : y ∈ sortNumbers xs ↔ y ∈ xs.
Proof.
  induction xs as [|x xs IH]; simpl; [done |].
  rewrite insertSorted_elem, elem_of_cons, IH. done.
Qed.

Lemma sortNumbers_increasing xs : NoDup xs → StronglySorted Z.lt (sortNumbers xs).
Proof.
  induction 1 as [|x xs Hx Hnd IH]; simpl; [constructor |].
  apply insertSorted_increasing; [| done]. by rewrite sortNumbers_elem.
Qed.

Lemma increasing_NoDup xs : StronglySorted Z.lt xs → NoDup xs.
Proof.
  induction 1 as [|x xs Hs IH Hx]; constructor; [| done].
  intros Hin. rewrite Forall_forall in Hx. specialize (Hx _ Hin). lia.
Qed.

End Selection.

(** C10.  For every input and every [max], [parseCourseSelection] throws
    or returns a strictly increasing list, without duplicates, of indices
    between [0] and [max - 1]; a reversed range selects what the range in
    order selects (for instance [19-12] with 20 courses gives the indices 11
    to 18); an input all of whose comma-separated chunks are blank
    throws. *)
Theorem parseCourseSelection_sorted_in_range :
  (∀ (R : Runtime) (input : string) (max : Z),
     match parseCourseSelection input max with
     | inl _ => True
     | inr indices =>
         StronglySorted Z.lt indices ∧ NoDup indices
         ∧ Forall (λ i, 0 ≤ i ≤ max - 1) indices
     end)
  ∧ (∀ (R : Runtime) (max : Z) (selections : list Z) (forwards backwards a b : string),
       matchRange forwards = Some (a, b) → matchRange backwards = Some (b, a) →
       ∀ chosen, selectChunk max selections backwards = inr chosen
                 ↔ selectChunk max selections forwards = inr chosen)
  ∧ @parseCourseSelection Reference.runtime "19-12" 20 = inr [11; 12; 13; 14; 15; 16; 17; 18]
  ∧ (∀ (R : Runtime) (input : string) (max : Z),
       Forall (λ chunk, Js.trim chunk = "") (Js.split "," input) →
       parseCourseSelection input max = inl NoValidSelections).
Proof.
  split_and!.
  - intros R input max. unfold parseCourseSelection.
    destruct (Js.filterTruthy _) as [|c cs]; [done |].
    destruct (selectChunks max [] (c :: cs)) as [e|sel] eqn:E; [done |].
    destruct (selectChunks_invariant max (c :: cs) [] sel) as [Hnd Hin];
      [apply NoDup_nil_2 | constructor | done |].
    pose proof (sortNumbers_increasing sel Hnd) as Hs.
    split_and!; [done | by apply increasing_NoDup |].
    apply Forall_forall. intros y Hy. apply (proj1 (sortNumbers_elem y sel)) in Hy.
    rewrite Forall_forall in Hin. by apply Hin.
  - intros R max selections forwards backwards a b Hf Hb chosen.
    unfold selectChunk. rewrite Hf, Hb.
    destruct (toInteger a) as [x|], (toInteger b) as [y|]; try done.
    destruct (y <? x) eqn:Hyx, (x <? y) eqn:Hxy; simpl; try lia; try done.
    + destruct (y <? 1), (max <? x); simpl; done.
    + destruct (x <? 1), (max <? y); simpl; done.
    + assert (x = y) as -> by lia.
      destruct (y <? 1), (max <? y); simpl; done.
  - reflexivity.
  - intros R input max Hblank. unfold parseCourseSelection.
    assert (Js.filterTruthy (map Js.trim (Js.split "," input)) = []) as ->; [| done].
    unfold Js.filterTruthy. induction Hblank as [|chunk chunks Hc _ IH]; [done |].
    cbn [map]. rewrite filter_cons_False; [done |].
    rewrite Hc. simpl. tauto.
Qed.

(** C10, witness: the reversed range [19-12], and the blank input
    [ , ]. *)
Lemma parseCourseSelection_sorted_in_range_witness :
  matchRange "12-19" = Some ("12", "19") ∧ matchRange "19-12" = Some ("19", "12")
  ∧ (∀ chosen, @selectChunk Reference.runtime 20 [] "19-12" = inr chosen
               ↔ @selectChunk Reference.runtime 20 [] "12-19" = inr chosen)
  ∧ Forall (λ chunk, Js.trim chunk = "") (Js.split "," " , ")
  ∧ @parseCourseSelection Reference.runtime " , " 5 = inl NoValidSelections.
Proof.
  assert (Hf : matchRange "12-19" = Some ("12", "19")) by reflexivity.
  assert (Hb : matchRange "19-12" = Some ("19", "12")) by reflexivity.
  assert (Hblank : Forall (λ chunk, Js.trim chunk = "") (Js.split "," " , "))
    by (by repeat constructor).
  destruct parseCourseSelection_sorted_in_range as (_ & Hswap & _ & Hnone).
  split_and!; [exact Hf | exact Hb | | exact Hblank |].
  - exact (Hswap Reference.runtime 20 [] "12-19" "19-12" "12" "19" Hf Hb).
  - exact (Hnone Reference.runtime " , " 5 Hblank).
Defined.

(** ** Control flow *)

Section Control.

Lemma bind_return {A B} (m : Prog A) (k : A → Prog B) w a w' :
  m w = (Return a, w') → (m ≫= k) w = k a w'.
Proof. intros Hm. unfold mbind, prog_bind. by rewrite Hm. Qed.

Lemma bind_throw {A B} (m : Prog A) (k : A → Prog B) w e w' :
  m w = (Throw e, w') → (m ≫= k) w = (Throw e, w').
Proof. intros Hm. unfold mbind, prog_bind. by rewrite Hm. Qed.

Context `{Runtime, Environment}.

Lemma courseLoop_app config before after w :
  courseLoop config (before ++ after) w =
    match courseLoop config before w with
    | (Return _, w') => courseLoop config after w'
    | (Throw e, w') => (Throw e, w')
    end.
Proof.
  revert w. induction before as [|c before IH]; intros w; [done |].
  cbn [app courseLoop]. unfold mbind, prog_bind.
  destruct (processCourse c config w) as [[[]|e] w1]; [| done].
  cbn. apply IH.
Qed.

(** A course whose processing throws ends the loop. *)
Lemma courseLoop_throw config course after w e w' :
  processCourse course config w = (Throw e, w') →
  courseLoop config (course :: after) w = (Throw e, w').
Proof. intros Hc. cbn [courseLoop]. by apply bind_throw. Qed.

(** A failure of the extraction leaves [processCourse] as it is. *)
Lemma processCourse_extraction_throw course config w e w' :
  gotoRejects (length (navigations w)) (courseHref course) = None →
  evaluateWithRetry (injected config) 3
    (addConsole ("[CUMATDL] Year rewrite: "
                 +:+ (if applyYearRewrite config then "enabled" else "disabled")
                 +:+ "; host fix: "
                 +:+ (if forceHostReplacement config then "enabled" else "disabled"))
       (addNavigation (courseHref course)
          (addConsole ("Navigating to course: " +:+ label course) w)))
  = (Throw e, w') →
  processCourse course config w = (Throw e, w').
Proof.
  intros Hgoto Heval. unfold processCourse.
  unfold mbind at 1, prog_bind at 1. cbn [log modify].
  unfold mbind at 1, prog_bind at 1. unfold goto at 1. cbn [navigations addConsole].
  rewrite Hgoto.
  unfold mbind at 1, prog_bind at 1. cbn [log modify].
  by apply bind_throw.
Qed.

End Control.

(** ** PageExtractor *)

Section Retry.

Context `{Environment} {T : Type} (fn : Document → T).

Lemma retryLoop_success retries remaining attempt w doc :
  evaluation (evaluations w) = inr doc →
  retryLoop fn retries (S remaining) attempt w = (Return (fn doc), addEvaluation w).
Proof. intros He. cbn [retryLoop]. unfold tryCatch, evaluate. by rewrite He. Qed.

Lemma retryLoop_retry retries remaining attempt w m :
  evaluation (evaluations w) = inl m → destroyed m = true →
  attempt ≠ (retries - 1)%nat →
  retryLoop fn retries (S remaining) attempt w =
    retryLoop fn retries remaining (S attempt) (addConsole retryNotice (addEvaluation w)).
Proof.
  intros He Hd Ha. cbn [retryLoop]. unfold tryCatch, evaluate. rewrite He, Hd.
  apply Nat.eqb_neq in Ha. rewrite Ha. done.
Qed.

Lemma retryLoop_last retries remaining w m :
  evaluation (evaluations w) = inl m →
  retryLoop fn retries (S remaining) (retries - 1) w = (Throw m, addEvaluation w).
Proof.
  intros He. cbn [retryLoop]. unfold tryCatch, evaluate. rewrite He.
  rewrite Nat.eqb_refl, orb_true_r. done.
Qed.

Lemma retryLoop_fatal retries remaining attempt w m :
  evaluation (evaluations w) = inl m → destroyed m = false →
  retryLoop fn retries (S remaining) attempt w = (Throw m, addEvaluation w).
Proof.
  intros He Hd. cbn [retryLoop]. unfold tryCatch, evaluate. rewrite He, Hd. done.
Qed.

End Retry.

(** C5, as the script has it.  [evaluateWithRetry] makes at most three
    attempts and tries again only after a failure with the transient
    signature: two such failures followed by a success return that success,
    with the two retry notices as the only lines printed; a third
    consecutive transient failure is rethrown, and no fourth attempt is
    made; a failure without the signature is rethrown at once. *)
Theorem evaluateWithRetry_three_attempts
  (E : Environment) (T : Type) (fn : Document → T) (w : World) :
  let n := evaluations w in
  (∀ m0 m1 doc,
     evaluation n = inl m0 → destroyed m0 = true →
     evaluation (S n) = inl m1 → destroyed m1 = true →
     evaluation (S (S n)) = inr doc →
     evaluateWithRetry fn 3 w =
       (Return (fn doc),
        addEvaluation (addConsole retryNotice
          (addEvaluation (addConsole retryNotice (addEvaluation w))))))
  ∧ (∀ m0 m1 m2,
       evaluation n = inl m0 → destroyed m0 = true →
       evaluation (S n) = inl m1 → destroyed m1 = true →
       evaluation (S (S n)) = inl m2 →
       evaluateWithRetry fn 3 w =
         (Throw m2,
          addEvaluation (addConsole retryNotice
            (addEvaluation (addConsole retryNotice (addEvaluation w))))))
  ∧ (∀ (k : nat) m,
       (k < 3)%nat →
       (∀ j, (j < k)%nat → ∃ mj, evaluation (n + j)%nat = inl mj ∧ destroyed mj = true) →
       evaluation (n + k)%nat = inl m → destroyed m = false →
       ∃ w', evaluateWithRetry fn 3 w = (Throw m, w')
             ∧ evaluations w' = (n + k + 1)%nat
             ∧ missingLog w' = missingLog w).
Proof.
  intros n. unfold evaluateWithRetry. split_and!.
  - intros m0 m1 doc H0 D0 H1 D1 H2.
    rewrite (retryLoop_retry fn 3 2 0 w m0) by done.
    rewrite (retryLoop_retry fn 3 1 1 _ m1) by done.
    by rewrite (retryLoop_success fn 3 0 2 _ doc).
  - intros m0 m1 m2 H0 D0 H1 D1 H2.
    rewrite (retryLoop_retry fn 3 2 0 w m0) by done.
    rewrite (retryLoop_retry fn 3 1 1 _ m1) by done.
    by rewrite (retryLoop_last fn 3 0 _ m2).
  - intros k m Hk Hbefore Hm Hd.
    destruct k as [|[|[|k]]]; [| | | lia].
    + rewrite Nat.add_0_r in Hm.
      rewrite (retryLoop_fatal fn 3 2 0 w m) by done.
      eexists. split_and!; [done | simpl; lia | done].
    + destruct (Hbefore 0%nat) as (m0 & H0 & D0); [lia |]. rewrite Nat.add_0_r in H0.
      rewrite (retryLoop_retry fn 3 2 0 w m0) by done.
      rewrite (retryLoop_fatal fn 3 1 1 _ m); [| simpl; by rewrite <- Hm, Nat.add_1_r | done].
      eexists. split_and!; [done | simpl; lia | done].
    + destruct (Hbefore 0%nat) as (m0 & H0 & D0); [lia |]. rewrite Nat.add_0_r in H0.
      destruct (Hbefore 1%nat) as (m1 & H1 & D1); [lia |]. rewrite Nat.add_1_r in H1.
      rewrite (retryLoop_retry fn 3 2 0 w m0) by done.
      rewrite (retryLoop_retry fn 3 1 1 _ m1) by done.
      rewrite (retryLoop_fatal fn 3 0 2 _ m);
        [| simpl; rewrite <- Hm; f_equal; lia | done].
      eexists. split_and!; [done | simpl; lia | done].
Qed.

(** C5, witness: a page that reloads itself twice, then answers; and one
    that fails at once with another error. *)
Lemma evaluateWithRetry_three_attempts_witness :
  @evaluateWithRetry (Scenario.flaky 2 Scenario.coursePage "") _ location 3 Scenario.emptyWorld
  = (Return Scenario.pageUrl,
     addEvaluation (addConsole retryNotice
       (addEvaluation (addConsole retryNotice (addEvaluation Scenario.emptyWorld))))).
Proof.
  destruct (evaluateWithRetry_three_attempts (Scenario.flaky 2 Scenario.coursePage "")
              _ location Scenario.emptyWorld) as (Hgood & _ & _).
  exact (Hgood Scenario.contextDestroyed Scenario.contextDestroyed Scenario.coursePage
           eq_refl eq_refl eq_refl eq_refl eq_refl).
Defined.

(** C5, counterexample: after three transient failures the script gives
    up, although the fourth evaluation would have succeeded. *)
Lemma evaluateWithRetry_no_fourth_attempt :
  let E := Scenario.flaky 3 Scenario.coursePage "" in
  let '(outcome, w) := @evaluateWithRetry E _ location 3 Scenario.emptyWorld in
  destroyed Scenario.contextDestroyed = true
  ∧ @evaluation E 3 = inr Scenario.coursePage
  ∧ outcome = Throw Scenario.contextDestroyed
  ∧ evaluations w = 3%nat.
Proof. vm_compute. by repeat split. Qed.

(** ** The main loop *)

(** C3, as the script has it.  A permanent failure of the extraction (the
    retries exhausted, or an error without the transient signature) is
    thrown out of [processCourse]; nothing in the main loop catches it, so
    it ends the loop and the run: the error is printed, the process exits
    with code 1 and the courses after the failing one are never visited. *)
Theorem extraction_failure_aborts_run
  (R : Runtime) (E : Environment) (seg : string) (allSelected : bool)
  (before after : list CourseChoice) (course : CourseChoice)
  (w w1 w2 : World) (e : string) :
  let config := injectionConfig seg allSelected in
  courseLoop config before w = (Return (), w1) →
  gotoRejects (length (navigations w1)) (courseHref course) = None →
  evaluateWithRetry (injected config) 3
    (addConsole ("[CUMATDL] Year rewrite: "
                 +:+ (if applyYearRewrite config then "enabled" else "disabled")
                 +:+ "; host fix: "
                 +:+ (if forceHostReplacement config then "enabled" else "disabled"))
       (addNavigation (courseHref course)
          (addConsole ("Navigating to course: " +:+ label course) w1)))
  = (Throw e, w2) →
  processCourse course config w1 = (Throw e, w2)
  ∧ run seg (before ++ course :: after) allSelected w
    = (1, addConsole e (setCourseProgress None w2)).
Proof.
  intros config Hbefore Hgoto Heval.
  pose proof (processCourse_extraction_throw course config w1 e w2 Hgoto Heval) as Hc.
  split; [exact Hc |].
  unfold run, mainAfterSelection. fold config.
  rewrite (bind_throw _ _ w e w2); [done |].
  rewrite courseLoop_app, Hbefore. by apply courseLoop_throw.
Qed.

(** C3, witness: the first of two courses reloads itself three times. *)
Lemma extraction_failure_aborts_run_witness :
  @run Reference.runtime (Scenario.flaky 3 Scenario.coursePage "PDF")
       "2223" [Scenario.math1010; Scenario.math2020] true Scenario.emptyWorld
  = (1, addConsole Scenario.contextDestroyed
          (setCourseProgress None
             (addEvaluation (addConsole retryNotice
               (addEvaluation (addConsole retryNotice
                 (addEvaluation
                    (addConsole "[CUMATDL] Year rewrite: enabled; host fix: disabled"
                       (addNavigation (courseHref Scenario.math1010)
                          (addConsole "Navigating to course: MATH1010"
                             Scenario.emptyWorld)))))))))).
Proof.
  refine (proj2 (extraction_failure_aborts_run Reference.runtime
                   (Scenario.flaky 3 Scenario.coursePage "PDF") "2223" true
                   [] [Scenario.math2020] Scenario.math1010
                   Scenario.emptyWorld Scenario.emptyWorld _ Scenario.contextDestroyed
                   eq_refl eq_refl _)).
  reflexivity.
Defined.

(** C3, counterexample: with two courses selected, a permanent
    extraction failure in the first one ends the run with exit code 1; the
    second course is never visited and no course is counted as
    completed. *)
Lemma extraction_failure_is_fatal_for_the_run :
  let '(exitCode, w) :=
    @run Reference.runtime (Scenario.flaky 3 Scenario.coursePage "PDF")
         "2223" [Scenario.math1010; Scenario.math2020] true Scenario.emptyWorld in
  exitCode = 1
  ∧ navigations w = [courseHref Scenario.math1010]
  ∧ completedCourses w = 0%nat
  ∧ last (console w) = Some Scenario.contextDestroyed.
Proof. vm_compute. by repeat split. Qed.

(** ** LinkClassifier *)

Section Classifier.

Context `{Runtime}.

Lemma elem_of_concat {A} (x : A) (ls : list (list A)) :
  x ∈ concat ls ↔ ∃ l, x ∈ l ∧ l ∈ ls.
Proof.
  induction ls as [|l ls IH]; simpl.
  - rewrite elem_of_nil. split; [done |]. intros (l & _ & Hl). by apply elem_of_nil in Hl.
  - rewrite elem_of_app, IH. split.
    + intros [Hx|(l' & Hx & Hl')]; [exists l | exists l']; rewrite elem_of_cons; auto.
    + intros (l' & Hx & [->|Hl']%elem_of_cons); [by left | right; by exists l'].
Qed.

Lemma collectListItem_elem cfg doc li url :
  url ∈ collectListItem cfg doc li ↔
  ∃ a fixed, li = Some a
    ∧ Js.includes (anchorHref doc a) "javascript:" = false
    ∧ normalizeUrl cfg (Url.href (location doc)) (anchorHref doc a) = Some fixed
    ∧ url = Url.href fixed.
Proof.
  unfold collectListItem. destruct li as [a|].
  - destruct (Js.includes _ _) eqn:Hjs.
    + rewrite elem_of_nil. split; [done |]. intros (a' & fixed & [= <-] & Hn & _).
      congruence.
    + destruct (normalizeUrl _ _ _) as [fixed|] eqn:Hfix.
      * rewrite list_elem_of_singleton. split.
        -- intros ->. by exists a, fixed.
        -- intros (a' & fixed' & [= <-] & _ & Hf & ->). congruence.
      * rewrite elem_of_nil. split; [done |].
        intros (a' & fixed & [= <-] & _ & Hf & _). congruence.
  - rewrite elem_of_nil. split; [done |]. by intros (a & fixed & ? & _).
Qed.

Lemma usable_true url :
  usable url = true ↔
  Js.startsWith url STAFF_PREFIX = false
  ∧ ∃ u, newURL url None = Some u
         ∧ Url.hostname u ∈ ALLOWED_HOSTS
         ∧ Js.startsWith (Url.pathname u) "/course_builder/" = true.
Proof.
  unfold usable. destruct (Js.startsWith url STAFF_PREFIX).
  - split; [done | by intros [? _]].
  - destruct (newURL url None) as [u|].
    + case_bool_decide as Hhost; simpl.
      * destruct (Js.startsWith (Url.pathname u) _) eqn:Hp; simpl.
        -- split; [| done]. intros _. split; [done |]. by exists u.
        -- split; [done |]. intros (_ & u' & [= <-] & _ & Hp'). congruence.
      * split; [done |]. intros (_ & u' & [= <-] & Hh & _). done.
    + split; [done |]. by intros (_ & u' & ? & _).
Qed.

End Classifier.

(** C2, as the script has it.  The two passes apply different rules.
    The loop over [li] elements keeps the normalised URL of every first
    anchor whose resolved [href] contains no [javascript:] and parses; it
    applies no staff, host or path rule.  Those are applied by [usableUrls]
    alone: a URL passes that filter exactly when it is in the in-page list,
    does not start with the staff prefix, parses, and has an allowed host
    and a path under [/course_builder/]. *)
Theorem classification_passes_differ (R : Runtime) (cfg : InjectionConfig) (doc : Document) :
  (∀ url,
     url ∈ collectDownloadUrls cfg doc ↔
     ∃ a fixed, Some a ∈ listItems doc
       ∧ Js.includes (anchorHref doc a) "javascript:" = false
       ∧ normalizeUrl cfg (Url.href (location doc)) (anchorHref doc a) = Some fixed
       ∧ url = Url.href fixed)
  ∧ (∀ url,
       url ∈ usableUrls (collectDownloadUrls cfg doc) ↔
       url ∈ collectDownloadUrls cfg doc
       ∧ Js.startsWith url STAFF_PREFIX = false
       ∧ ∃ u, newURL url None = Some u
              ∧ Url.hostname u ∈ ALLOWED_HOSTS
              ∧ Js.startsWith (Url.pathname u) "/course_builder/" = true).
Proof.
  split.
  - intros url. unfold collectDownloadUrls. rewrite elem_of_concat. split.
    + intros (l & Hurl & (li & -> & Hli)%list_elem_of_fmap).
      apply collectListItem_elem in Hurl as (a & fixed & -> & ? & ? & ?).
      by exists a, fixed.
    + intros (a & fixed & Hli & Hjs & Hfix & ->).
      exists (collectListItem cfg doc (Some a)). split.
      * apply collectListItem_elem. by exists a, fixed.
      * apply list_elem_of_fmap. by exists (Some a).
  - intros url. unfold usableUrls. rewrite list_elem_of_filter, Is_true_true, usable_true.
    tauto.
Qed.

(** C2, counterexample: the staff link of the course page is in the list
    the page returns, and the filter before fetching rejects it. *)
Lemma staff_link_listed_but_not_usable :
  let url := "https://www.math.cuhk.edu.hk/~staff/office.html" in
  url ∈ @collectDownloadUrls Reference.runtime (injectionConfig "2223" false)
          Scenario.coursePage
  ∧ @usable Reference.runtime url = false.
Proof.
  split; [| reflexivity].
  vm_compute. apply list_elem_of_In. right. by left.
Qed.

(** ** The rewrite pass *)

(** What the loop does to an anchor that has an [href]: nothing when the
    [href] is empty or dropped, and otherwise the [href] becomes that of
    [rewrittenHref]. *)
Lemma rewriteAnchor_cases `{Runtime} cfg doc a rawHref :
  attrHref a = Some rawHref →
  (rawHref = "" ∨ droppedHref cfg doc rawHref) ∧ rewriteAnchor cfg doc a = a
  ∨ rawHref ≠ "" ∧ ¬ droppedHref cfg doc rawHref
    ∧ ∃ fixed, normalizeUrl cfg (Url.href (location doc)) rawHref = Some fixed
        ∧ rewriteAnchor cfg doc a = {| attrHref := Some (rewrittenHref doc fixed) |}.
Proof.
  intros Hattr. unfold rewriteAnchor, droppedHref, rewrittenHref. rewrite Hattr.
  destruct rawHref as [|c rest]; [left; split; [by left | done] |].
  cbn [Js.truthy negb orb].
  destruct (Js.startsWith (String c rest) "javascript:") eqn:Hjs.
  { left. split; [right; by left | done]. }
  destruct (normalizeUrl _ _ (String c rest)) as [fixed|] eqn:Hfix.
  2:{ left. split; [right; right; by left | done]. }
  destruct (Js.startsWith (Url.href fixed) (staffPrefix cfg)) eqn:Hstaff.
  { left. split; [| done]. right. right. right. by exists fixed. }
  right. split_and!; [done | |].
  - intros [?|[?|(fixed' & [= <-] & ?)]]; congruence.
  - exists fixed. split; [done |].
    by destruct (String.eqb _ _ && Js.startsWith _ _).
Qed.

(** The loop reads the page for its location only. *)
Lemma rewriteAnchor_location `{Runtime} cfg doc1 doc2 a :
  location doc1 = location doc2 → rewriteAnchor cfg doc1 a = rewriteAnchor cfg doc2 a.
Proof. intros Hloc. unfold rewriteAnchor. by rewrite Hloc. Qed.

Lemma replaceEach_absent replacements text :
  Forall (λ entry, Js.includes text entry.1 = false) replacements →
  replaceEach replacements text = text.
Proof.
  induction 1 as [|[bad good] rest Hbad _ IH]; [done |].
  cbn [replaceEach]. cbn [fst] in Hbad. by rewrite Hbad.
Qed.

Lemma applyReplacements_absent replacements text :
  Forall (λ entry, Js.includes text entry.1 = false) replacements →
  applyReplacements replacements text = text.
Proof.
  intros Habsent. unfold applyReplacements.
  destruct text; [done |]. by apply replaceEach_absent.
Qed.

Lemma replaceHref_nil a : replaceHref [] a = a.
Proof.
  destruct a as [[value|]]; [| done]. unfold replaceHref. cbn [attrHref].
  by rewrite applyReplacements_absent.
Qed.

(** C9, as the two builds have it.  The loop over [a[href]] leaves every
    dropped anchor as it is (a raw [href] starting with [javascript:], an
    [href] that does not parse, a normalised URL under the staff prefix),
    and so it leaves an anchor without [href] or with an empty one; every
    other anchor gets the relative path followed by the query and the
    fragment when its normalised URL has the origin of the page and a path
    under [/course_builder/], the normalised URL otherwise; an anchor the
    loop changes is not dropped.  In [index.ts] the serialised document is
    that of the anchors so rewritten, so that a dropped anchor has its
    original [href] there.  In the patched build the string map is applied
    to every [href] first: the loop reads the [href] the map has left, a
    dropped anchor keeps that one, and it is the original [href] when no
    key of the map occurs in it. *)
Theorem dropped_anchors_keep_href (R : Runtime) (cfg : InjectionConfig) (doc : Document) :
  (∀ a : Anchor,
     match attrHref a with
     | None => rewriteAnchor cfg doc a = a
     | Some rawHref =>
         (droppedHref cfg doc rawHref → rewriteAnchor cfg doc a = a)
         ∧ (rawHref = "" → rewriteAnchor cfg doc a = a)
         ∧ (rawHref ≠ "" → ¬ droppedHref cfg doc rawHref →
            ∃ fixed, normalizeUrl cfg (Url.href (location doc)) rawHref = Some fixed
              ∧ rewriteAnchor cfg doc a = {| attrHref := Some (rewrittenHref doc fixed) |})
         ∧ (rewriteAnchor cfg doc a ≠ a →
            ¬ droppedHref cfg doc rawHref
            ∧ ∃ fixed, normalizeUrl cfg (Url.href (location doc)) rawHref = Some fixed
                ∧ attrHref (rewriteAnchor cfg doc a) = Some (rewrittenHref doc fixed))
     end)
  ∧ anchors (rewriteDocument cfg doc) = map (rewriteAnchor cfg doc) (anchors doc)
  ∧ serializedHtml (injected cfg doc) = DOCTYPE +:+ outerHTML (rewriteDocument cfg doc)
  ∧ (∀ (outerHTML_patched : PatchedDocument → string) replacements texts hrefs,
       let page := {| content := doc; textNodes := texts; otherHrefs := hrefs |} in
       let final := rewritePatched replacements cfg page in
       serializedHtml_patched outerHTML_patched replacements cfg page
       = DOCTYPE +:+ outerHTML_patched final
       ∧ anchors (content final)
         = map (λ a, rewriteAnchor cfg doc (replaceHref replacements a)) (anchors doc)
       ∧ ∀ a rawHref,
           attrHref a = Some rawHref →
           let read := applyReplacements replacements rawHref in
           attrHref (replaceHref replacements a) = Some read
           ∧ (droppedHref cfg doc read →
              rewriteAnchor cfg doc (replaceHref replacements a)
              = {| attrHref := Some read |})
           ∧ (Forall (λ entry, Js.includes rawHref entry.1 = false) replacements →
              read = rawHref)).
Proof.
  split_and!; [| done | done |].
  - intros a. destruct (attrHref a) as [rawHref|] eqn:Hattr.
    2:{ unfold rewriteAnchor. by rewrite Hattr. }
    destruct (rewriteAnchor_cases cfg doc a rawHref Hattr)
      as [[Hleft Hsame]|(Hne & Hkept & fixed & Hfix & Hnew)].
    + split_and!; [done | done | | done].
      intros Hne Hkept. by destruct Hleft.
    + split_and!; [done | done | by exists fixed |].
      intros _. split; [done |]. exists fixed. by rewrite Hnew.
  - intros outerHTML_patched replacements texts hrefs page final.
    split_and!; [done | |].
    + unfold final, rewritePatched, page, applyStringMap.
      destruct replacements as [|entry replacements]; cbn.
      * apply list_fmap_ext. intros _ a _. by rewrite replaceHref_nil.
      * rewrite <- list_fmap_compose. apply list_fmap_ext. intros _ a _. cbn.
        by apply rewriteAnchor_location.
    + intros a rawHref Hattr read.
      assert (Hread : attrHref (replaceHref replacements a) = Some read).
      { unfold replaceHref. by rewrite Hattr. }
      split_and!; [done | | by apply applyReplacements_absent].
      intros Hdropped.
      destruct (rewriteAnchor_cases cfg doc _ read Hread)
        as [[_ ->]|(_ & Hkept & _)]; [| done].
      unfold replaceHref. by rewrite Hattr.
Qed.

(** C9, witness: on the course page, the staff link keeps its [href] and
    the link to the notes becomes relative. *)
Lemma dropped_anchors_keep_href_witness :
  let R := Reference.runtime in
  let cfg := injectionConfig "2223" false in
  let doc := Scenario.coursePage in
  let staff := Scenario.link "https://www.math.cuhk.edu.hk/~staff/office.html" in
  let notes :=
    Scenario.link "https://www.math.cuhk.edu.hk/course_builder/2223/MATH1010/notes.pdf" in
  droppedHref cfg doc "https://www.math.cuhk.edu.hk/~staff/office.html"
  ∧ rewriteAnchor cfg doc staff = staff
  ∧ ¬ droppedHref cfg doc
        "https://www.math.cuhk.edu.hk/course_builder/2223/MATH1010/notes.pdf"
  ∧ rewriteAnchor cfg doc notes = Scenario.link "notes.pdf".
Proof.
  intros R cfg doc staff notes.
  assert (Hdropped : droppedHref cfg doc "https://www.math.cuhk.edu.hk/~staff/office.html").
  { right. right. eexists. split; reflexivity. }
  assert (Hfixed : ∃ fixed,
             normalizeUrl cfg (Url.href (location doc))
               "https://www.math.cuhk.edu.hk/course_builder/2223/MATH1010/notes.pdf"
             = Some fixed
             ∧ Js.startsWith (Url.href fixed) (staffPrefix cfg) = false
             ∧ rewrittenHref doc fixed = "notes.pdf").
  { eexists. split; [reflexivity |]. split; reflexivity. }
  destruct Hfixed as (fixed & Hfixed & Hstaff & Hrel).
  assert (Hkept : ¬ droppedHref cfg doc
                      "https://www.math.cuhk.edu.hk/course_builder/2223/MATH1010/notes.pdf").
  { intros [Hjs|[Hnone|(fixed' & Hsome & Hstaff')]].
    - discriminate Hjs.
    - rewrite Hfixed in Hnone. discriminate Hnone.
    - rewrite Hfixed in Hsome. injection Hsome as <-.
      rewrite Hstaff in Hstaff'. discriminate Hstaff'. }
  destruct (dropped_anchors_keep_href R cfg doc) as [Hanchor _].
  split_and!; [exact Hdropped | exact (proj1 (Hanchor staff) Hdropped) | exact Hkept |].
  destruct (Hanchor notes) as (_ & _ & Hrewritten & _).
  destruct (Hrewritten ltac:(discriminate) Hkept) as (fixed' & Hsome & ->).
  rewrite Hfixed in Hsome. injection Hsome as <-. by rewrite Hrel.
Defined.

(** C9, counterexample: in the patched build, with a string map that
    renames [~staff], the staff link of the course page, which the loop
    drops, does not have its original [href] in the serialised page. *)
Lemma string_map_rewrites_dropped_anchor :
  let R := Reference.runtime in
  let cfg := injectionConfig "2223" false in
  let staff := Scenario.link "https://www.math.cuhk.edu.hk/~staff/office.html" in
  let page := {| content := Scenario.coursePage; textNodes := []; otherHrefs := [] |} in
  let replacements := [("~staff", "~people")] in
  staff ∈ anchors (content page)
  ∧ droppedHref cfg Scenario.coursePage "https://www.math.cuhk.edu.hk/~staff/office.html"
  ∧ droppedHref cfg Scenario.coursePage "https://www.math.cuhk.edu.hk/~people/office.html"
  ∧ anchors (content (rewritePatched replacements cfg page))
    = [Scenario.link "notes.pdf";
       Scenario.link "https://www.math.cuhk.edu.hk/~people/office.html"]
  ∧ serializedHtml_patched (λ p, outerHTML (content p)) replacements cfg page
    = DOCTYPE +:+ "<html><a href=" +:+ Reference.quote +:+ "notes.pdf" +:+ Reference.quote
      +:+ "></a><a href=" +:+ Reference.quote
      +:+ "https://www.math.cuhk.edu.hk/~people/office.html" +:+ Reference.quote
      +:+ "></a></html>".
Proof.
  intros R cfg staff page replacements. split_and!.
  - apply list_elem_of_In. right. by left.
  - right. right. eexists. split; reflexivity.
  - right. right. eexists. split; reflexivity.
  - vm_compute. reflexivity.
  - vm_compute. reflexivity.
Qed.

(** ** LocalTarget *)

Section LocalTarget.

Lemma normalizeSegments_names stack segs :
  Forall (λ s, isName s = true) stack →
  Forall (λ s, Js.every (λ a, negb (Path.isSlash a)) s = true) segs →
  Forall (λ s, isName s = true) (Path.normalizeSegments false stack segs).
Proof.
  intros Hstack Hsegs. revert stack Hstack.
  induction Hsegs as [|seg segs Hseg _ IH]; intros stack Hstack; simpl.
  - by apply Forall_rev.
  - destruct (String.eqb_spec seg "") as [->|Hne]; simpl; [by apply IH |].
    destruct (String.eqb_spec seg ".") as [->|Hdot]; simpl; [by apply IH |].
    destruct (String.eqb_spec seg "..") as [->|Hdots].
    + destruct stack as [|top stack']; [by apply IH |].
      inversion Hstack; subst.
      destruct (String.eqb top ".."); by apply IH.
    + apply IH. constructor; [| done].
      unfold isName, isSegment. rewrite Hseg.
      apply String.eqb_neq in Hdot, Hdots. rewrite Hdot, Hdots.
      apply truthy_true in Hne. by rewrite Hne.
Qed.

Lemma name_truthy s : isName s = true → Js.truthy s = true.
Proof.
  unfold isName, isSegment. intros H. by repeat (apply andb_true_iff in H as [H _]).
Qed.

Lemma normalize_absolute path :
  Js.startsWith path "/" = true → normalised (Path.normalize path).
Proof.
  intros Habs. unfold Path.normalize.
  destruct path as [|c path]; [done |]. cbn [Js.truthy negb].
  rewrite Habs. cbn [negb]. unfold Path.normalizeString.
  set (names := Path.normalizeSegments false [] (Js.split "/" (String c path))).
  assert (Hnames : Forall (λ s, isName s = true) names).
  { apply normalizeSegments_names; [constructor |]. apply splitBy_every. }
  exists names. split; [done |].
  destruct (Js.truthy (Js.join "/" names)) eqn:Hp; cbn [negb].
  - destruct (Js.endsWithChar _ _).
    + right. split; [| done].
      intros ->. done.
    + by left.
  - left. apply truthy_false in Hp. by rewrite Hp.
Qed.

Lemma join_absolute root rest :
  Js.startsWith root "/" = true → normalised (Path.join (root :: rest)).
Proof.
  intros Hroot. unfold Path.join, Js.filterTruthy.
  destruct root as [|c root]; [done |].
  rewrite filter_cons_True by done.
  apply normalize_absolute. rewrite join_cons.
  destruct (filter _ rest); [done |].
  unfold Js.startsWith in *. rewrite append_cons.
  rewrite prefix_cons in Hroot |- *. apply andb_true_iff in Hroot as [-> _].
  by destruct (_ +:+ _).
Qed.

Context `{Runtime}.

Lemma DOWNLOAD_ROOT_absolute :
  Js.startsWith processCwd "/" = true → Js.startsWith DOWNLOAD_ROOT "/" = true.
Proof.
  intros Hcwd. unfold DOWNLOAD_ROOT, Path.resolve. cbn [rev app Path.resolveGo].
  destruct processCwd as [|c cwd] eqn:Ecwd; [done |].
  rewrite Hcwd.
  destruct (ascii_dec "/" ".") as [Heq|_]; [discriminate Heq |].
  cbn [Js.truthy negb Js.startsWith String.prefix].
  apply prefix_append.
Qed.

End LocalTarget.



(** The names of the local path need not continue those of
    [DOWNLOAD_ROOT]: a decoded segment may contain slashes and dots, which
    [path.join] resolves. *)
Example localPathFromUrl_outside_download_root :
  @DOWNLOAD_ROOT Reference.runtime = "/home/user/CUMATDL/dl"
  ∧ @localPathFromUrl Reference.runtime
      "https://www.math.cuhk.edu.hk/course_builder/%2e%2e%2f%2e%2e%2f%2e%2e%2f.ssh/authorized_keys"
    = Some "/home/.ssh/authorized_keys".
Proof. split; reflexivity. Qed.

(** ** The file system *)

Section Disk.

Implicit Types d : gmap (list string) Fs.Node.

Lemma mkdirFrom_subseteq d above below d' :
  Fs.mkdirFrom d above below = Some d' → d ⊆ d'.
Proof.
  revert d above. induction below as [|seg below IH]; intros d above; simpl.
  - by intros [= ->].
  - destruct (d !! (above ++ [seg])) as [[data|]|] eqn:Hk; [done | by apply IH |].
    intros Hrest. apply IH in Hrest. etrans; [| exact Hrest].
    by apply insert_subseteq.
Qed.

(** Directories that are there need no creation. *)
Lemma mkdirFrom_present d above below :
  (∀ j, (0 < j ≤ length below)%nat →
        d !! (above ++ take j below) = Some Fs.Directory) →
  Fs.mkdirFrom d above below = Some d.
Proof.
  revert above. induction below as [|seg below IH]; intros above Hall; simpl; [done |].
  assert (H1 : d !! (above ++ [seg]) = Some Fs.Directory)
    by (apply (Hall 1%nat); simpl; lia).
  rewrite H1.
  apply IH. intros j Hj. rewrite <- app_assoc. apply (Hall (S j)). simpl. lia.
Qed.

Lemma mkdirFrom_directories d above below d' :
  Fs.mkdirFrom d above below = Some d' →
  ∀ j, (0 < j ≤ length below)%nat → d' !! (above ++ take j below) = Some Fs.Directory.
Proof.
  revert d above. induction below as [|seg below IH]; intros d above; simpl.
  - intros _ j Hj. lia.
  - intros Hmk j Hj.
    assert (Hrest : ∃ d1, d1 !! (above ++ [seg]) = Some Fs.Directory
                          ∧ Fs.mkdirFrom d1 (above ++ [seg]) below = Some d').
    { destruct (d !! (above ++ [seg])) as [[data|]|] eqn:Hk; [done | by exists d |].
      eexists. split; [apply lookup_insert_eq | done]. }
    destruct Hrest as (d1 & Hseg & Hmk1).
    destruct j as [|[|j]]; [lia | |].
    + simpl. eapply lookup_weaken; [exact Hseg |]. by eapply mkdirFrom_subseteq.
    + specialize (IH _ _ Hmk1 (S j)). rewrite <- app_assoc in IH. simpl in *.
      apply IH. lia.
Qed.

(** Creating the directories twice creates nothing the second time, also
    on a larger disk. *)
Lemma mkdirRecursive_again d p d1 d2 :
  Fs.mkdirRecursive d p = Some d1 → d1 ⊆ d2 → Fs.mkdirRecursive d2 p = Some d2.
Proof.
  unfold Fs.mkdirRecursive. intros Hmk Hsub. apply mkdirFrom_present.
  intros j Hj. eapply lookup_weaken; [| exact Hsub].
  by eapply mkdirFrom_directories.
Qed.

Lemma lookupNode_weaken d d' k node :
  Fs.lookupNode d k = Some node → d ⊆ d' → Fs.lookupNode d' k = Some node.
Proof.
  unfold Fs.lookupNode. destruct k; [done |]. intros Hk Hsub.
  by eapply lookup_weaken.
Qed.

Lemma existsSync_weaken d d' p :
  Fs.existsSync d p = true → d ⊆ d' → Fs.existsSync d' p = true.
Proof.
  unfold Fs.existsSync. intros Hex Hsub.
  destruct (Fs.lookupNode d (Fs.key p)) as [node|] eqn:Hk; [| done].
  by rewrite (lookupNode_weaken _ _ _ _ Hk Hsub).
Qed.

(** Writing a file that does not exist yet only adds to the disk. *)
Lemma writeFile_new d p data d' :
  Fs.existsSync d p = false → Fs.writeFile d p data = Some d' →
  d ⊆ d' ∧ Fs.existsSync d' p = true.
Proof.
  unfold Fs.existsSync, Fs.writeFile, Fs.lookupNode.
  destruct (Js.endsWithChar p "/") eqn:Hslash; [done |].
  destruct (Fs.key p) as [|seg k] eqn:Hkey; [done |].
  set (key := seg :: k) in *. intros Hex Hw.
  assert (Hnone : d !! key = None).
  { destruct (d !! key) as [[data'|]|]; done. }
  rewrite Hnone in Hw.
  destruct (match removelast key with [] => _ | _ => _ end) as [[|]|]; simplify_eq.
  split; [by apply insert_subseteq |].
  by rewrite lookup_insert_eq.
Qed.

End Disk.

(** ** FetchPipeline *)

Section Fetch.

Context `{Runtime, Environment}.

Ltac step_prog :=
  unfold mret, prog_ret, throw in *;
  cbv beta iota zeta in *;
  cbn [disk requests setDisk addConsole addRequest addMissing setCourseProgress] in *.

Ltac run_prog :=
  unfold mbind, prog_bind, mret, prog_ret, orThrow, throw, mkdir, existsSync,
    get, writeFile, log, modify, tryCatch, finally in *; step_prog.

(** What a call of [downloadFile] does to the disk and to the network. *)
Lemma downloadFile_cases url w :
  match downloadFile url w with
  | (Return Skipped, w') =>
      ∃ p, localPathFromUrl url = Some p
        ∧ Fs.mkdirRecursive (disk w) (Path.dirname p) = Some (disk w')
        ∧ Fs.existsSync (disk w') p = true
        ∧ requests w' = requests w
        ∧ w' = addConsole ("[CUMATDL] SKIP existing file: " +:+ p) (setDisk (disk w') w)
  | (Return Downloaded, w') =>
      ∃ p d1 data, localPathFromUrl url = Some p
        ∧ Fs.mkdirRecursive (disk w) (Path.dirname p) = Some d1
        ∧ Fs.existsSync d1 p = false
        ∧ axiosGet (length (requests w)) url = inr data
        ∧ Fs.writeFile d1 p data = Some (disk w')
        ∧ requests w' = requests w ++ [url]
  | (Throw e, w') =>
      disk w ⊆ disk w'
      ∧ (requests w' = requests w ∨ requests w' = requests w ++ [url])
  end.
Proof.
  unfold downloadFile. run_prog.
  destruct (localPathFromUrl url) as [p|]; step_prog; [| by split; [| left]].
  destruct (Fs.mkdirRecursive (disk w) (Path.dirname p)) as [d1|] eqn:Hmk;
    step_prog; [| by split; [| left]].
  assert (Hsub : disk w ⊆ d1) by (by eapply mkdirFrom_subseteq).
  destruct (Fs.existsSync d1 p) eqn:Hex; step_prog.
  - exists p. by rewrite Hex.
  - destruct (axiosGet (length (requests w)) url) as [e|data] eqn:Hget;
      step_prog; [by split; [| right] |].
    destruct (Fs.writeFile d1 p data) as [d2|] eqn:Hw; step_prog; [| by split; [| right]].
    by exists p, d1, data.
Qed.

Lemma downloadFile_subseteq url w r w' :
  downloadFile url w = (r, w') → disk w ⊆ disk w'.
Proof.
  intros Hdl. pose proof (downloadFile_cases url w) as Hc. rewrite Hdl in Hc.
  destruct r as [[]|e]; [| | by destruct Hc].
  - destruct Hc as (p & _ & Hmk & _). by eapply mkdirFrom_subseteq.
  - destruct Hc as (p & d1 & data & _ & Hmk & Hex & _ & Hw & _).
    etrans; [by eapply mkdirFrom_subseteq |].
    by destruct (writeFile_new _ _ _ _ Hex Hw).
Qed.

(** A call issues at most one request, for its URL. *)
Lemma downloadFile_requests url w r w' :
  downloadFile url w = (r, w') →
  requests w' = requests w ∨ requests w' = requests w ++ [url].
Proof.
  intros Hdl. pose proof (downloadFile_cases url w) as Hc. rewrite Hdl in Hc.
  destruct r as [[]|e]; [| | by destruct Hc].
  - destruct Hc as (p & _ & _ & _ & Hr & _). by left.
  - destruct Hc as (p & d1 & data & _ & _ & _ & _ & _ & Hr). by right.
Qed.

(** A resource fetched or skipped is settled from then on. *)
Lemma downloadFile_settles url w status w' :
  downloadFile url w = (Return status, w') → settled url (disk w').
Proof.
  intros Hdl. pose proof (downloadFile_cases url w) as Hc. rewrite Hdl in Hc.
  destruct status.
  - destruct Hc as (p & Hp & Hmk & Hex & _). exists p. split_and!; [done | | done].
    by eapply mkdirRecursive_again.
  - destruct Hc as (p & d1 & data & Hp & Hmk & Hex & _ & Hw & _).
    destruct (writeFile_new _ _ _ _ Hex Hw) as [Hsub Hex'].
    exists p. split_and!; [done | | done]. by eapply mkdirRecursive_again.
Qed.

Lemma settled_weaken url d d' : settled url d → d ⊆ d' → settled url d'.
Proof.
  intros (p & Hp & Hmk & Hex) Hsub. exists p. split_and!; [done | |].
  - by eapply mkdirRecursive_again.
  - by eapply existsSync_weaken.
Qed.

(** A settled resource is skipped: nothing is requested and the disk is
    left as it is. *)
Lemma downloadFile_settled url w :
  settled url (disk w) →
  ∃ p, localPathFromUrl url = Some p
    ∧ downloadFile url w
      = (Return Skipped, addConsole ("[CUMATDL] SKIP existing file: " +:+ p) w).
Proof.
  intros (p & Hp & Hmk & Hex). exists p. split; [done |].
  unfold downloadFile. run_prog. rewrite Hp. step_prog. rewrite Hmk. step_prog.
  rewrite Hex. by destruct w.
Qed.

End Fetch.

(** ** Normalised paths on the disk *)

Section NormalisedPaths.

Lemma rev_app_append s acc : String.rev_app s acc = String.rev s +:+ acc.
Proof.
  unfold String.rev. revert acc. induction s as [|a s IH]; intros acc; [done |].
  cbn [String.rev_app]. rewrite IH, (IH (String a "")), append_assoc. done.
Qed.

Lemma string_rev_cons a s : String.rev (String a s) = String.rev s +:+ String a "".
Proof. unfold String.rev at 1. cbn [String.rev_app]. apply rev_app_append. Qed.

Lemma string_rev_append s t : String.rev (s +:+ t) = String.rev t +:+ String.rev s.
Proof.
  induction s as [|a s IH]; [by rewrite append_nil_l, append_nil_r |].
  by rewrite append_cons, !string_rev_cons, IH, append_assoc.
Qed.

Lemma string_rev_involutive s : String.rev (String.rev s) = s.
Proof.
  induction s as [|a s IH]; [done |].
  by rewrite string_rev_cons, string_rev_append, IH.
Qed.

Lemma every_rev f s : Js.every f (String.rev s) = Js.every f s.
Proof.
  assert (Happ : ∀ s t, Js.every f (s +:+ t) = Js.every f s && Js.every f t).
  { clear. intros s t. induction s as [|a s IH]; [done |].
    rewrite append_cons. simpl. by rewrite IH, andb_assoc. }
  induction s as [|a s IH]; [done |].
  rewrite string_rev_cons, Happ, IH. simpl. rewrite andb_true_r. apply andb_comm.
Qed.

Lemma dropLeadingBy_all f s t :
  Js.every f s = true →
  match t with EmptyString => True | String c _ => f c = false end →
  Js.dropLeadingBy f (s +:+ t) = t.
Proof.
  intros Hs Ht. induction s as [|a s IH].
  - rewrite append_nil_l. destruct t as [|c t]; [done |]. simpl. by rewrite Ht.
  - simpl in Hs. apply andb_true_iff in Hs as [Ha Hs].
    rewrite append_cons. simpl. rewrite Ha. by apply IH.
Qed.

Lemma name_chars s :
  isName s = true →
  Js.every (λ a, negb (Path.isSlash a)) s = true
  ∧ ∃ c rest, s = String c rest ∧ Path.isSlash c = false.
Proof.
  unfold isName, isSegment. intros Hs.
  apply andb_true_iff in Hs as [Hs _]. apply andb_true_iff in Hs as [Hs _].
  apply andb_true_iff in Hs as [Htruthy Hevery]. split; [done |].
  destruct s as [|c rest]; [done |]. exists c, rest. split; [done |].
  simpl in Hevery. apply andb_true_iff in Hevery as [Hc _]. by apply negb_true_iff.
Qed.

Lemma normalizeSegments_push stack names rest :
  Forall (λ s, isName s = true) names →
  Path.normalizeSegments false stack (names ++ rest)
  = Path.normalizeSegments false (rev names ++ stack) rest.
Proof.
  intros Hnames. revert stack.
  induction Hnames as [|name names Hname _ IH]; intros stack; [done |].
  cbn [app Path.normalizeSegments].
  unfold isName, isSegment in Hname.
  apply andb_true_iff in Hname as [Hname Hdots]. apply andb_true_iff in Hname as [Hname Hdot].
  apply andb_true_iff in Hname as [Htruthy _].
  apply negb_true_iff in Hdot, Hdots. rewrite Hdot, Hdots.
  destruct name; [done |]. cbn [String.eqb orb].
  rewrite IH. cbn [rev]. by rewrite <- app_assoc.
Qed.

Lemma join_snoc sep names name :
  names ≠ [] → Js.join sep (names ++ [name]) = Js.join sep names +:+ sep +:+ name.
Proof.
  induction names as [|x names IH]; [done |]. intros _.
  destruct names as [|y names]; [done |].
  change ((x :: y :: names) ++ [name]) with (x :: ((y :: names) ++ [name])).
  rewrite (join_cons sep x ((y :: names) ++ [name])).
  rewrite IH by done. rewrite (join_cons sep x (y :: names)).
  cbn [app]. by rewrite !append_assoc.
Qed.

Lemma normalizeSegments_skip stack segs :
  Path.normalizeSegments false stack ("" :: segs)
  = Path.normalizeSegments false stack segs.
Proof. reflexivity. Qed.

Lemma normalizeSegments_names_id names :
  Forall (λ s, isName s = true) names →
  Path.normalizeSegments false [] names = names
  ∧ Path.normalizeSegments false [] (names ++ [""]) = names.
Proof.
  intros Hnames.
  pose proof (normalizeSegments_push [] names [] Hnames) as H1.
  pose proof (normalizeSegments_push [] names [""] Hnames) as H2.
  rewrite app_nil_r in H1. cbn in H1, H2. rewrite app_nil_r, rev_involutive in H1, H2.
  done.
Qed.

(** The entry a normalised path names. *)
Lemma key_normalised names :
  Forall (λ s, isName s = true) names →
  Fs.key ("/" +:+ Js.join "/" names) = names
  ∧ (names ≠ [] → Fs.key ("/" +:+ Js.join "/" names +:+ "/") = names).
Proof.
  intros Hnames. unfold Fs.key, Js.split.
  destruct (normalizeSegments_names_id names Hnames) as [Hid Hid'].
  assert (Hfree : Forall (λ seg, Js.every (λ a, negb (Ascii.eqb a "/")) seg = true) names).
  { eapply Forall_impl; [exact Hnames |]. intros s Hs. by apply name_chars. }
  assert (Hsplit : ∀ t, Js.splitBy (λ a, Ascii.eqb a "/") ("/" +:+ t)
                        = "" :: Js.splitBy (λ a, Ascii.eqb a "/") t).
  { intros t. rewrite append_cons, append_nil_l. reflexivity. }
  split.
  - rewrite Hsplit, normalizeSegments_skip. destruct names as [|n names]; [done |].
    by rewrite (splitBy_join _ "/").
  - intros Hne. rewrite Hsplit, normalizeSegments_skip.
    assert (Js.join "/" names +:+ "/" = Js.join "/" (names ++ [""])) as ->.
    { by rewrite join_snoc, append_nil_r. }
    rewrite (splitBy_join _ "/"); [done | done | by destruct names |].
    apply Forall_app. split; [done | by repeat constructor].
Qed.

End NormalisedPaths.

Section Dirname.

Lemma name_rev name :
  isName name = true →
  Js.every (λ a, negb (Path.isSlash a)) (String.rev name) = true
  ∧ ∃ c rest, String.rev name = String c rest ∧ Path.isSlash c = false.
Proof.
  intros Hname. destruct (name_chars name Hname) as (Hevery & c & rest & -> & Hc).
  assert (Hrev : Js.every (λ a, negb (Path.isSlash a)) (String.rev (String c rest)) = true)
    by (by rewrite every_rev).
  split; [done |].
  destruct (String.rev (String c rest)) as [|c' rest'] eqn:E.
  - apply (f_equal String.rev) in E. by rewrite string_rev_involutive in E.
  - exists c', rest'. split; [done |]. simpl in Hrev.
    apply andb_true_iff in Hrev as [Hc' _]. by apply negb_true_iff.
Qed.

Lemma join_truthy sep name names :
  Js.truthy name = true → Js.truthy (Js.join sep (name :: names)) = true.
Proof. intros Hn. rewrite join_cons. destruct name; [done |]. by destruct names. Qed.

(** The directory of a normalised path is the path without its last
    name. *)
Lemma dirname_key names t :
  Forall (λ s, isName s = true) names →
  t = "" ∨ t = "/" ∧ names ≠ [] →
  Fs.key (Path.dirname ("/" +:+ Js.join "/" names +:+ t)) = removelast names.
Proof.
  intros Hnames Ht.
  destruct names as [|n names] using rev_ind.
  { destruct Ht as [->|[_ ?]]; done. }
  clear IHnames. rewrite removelast_last.
  apply Forall_app in Hnames as [Hinit Hlast]. inversion Hlast as [|? ? Hn _]; subst.
  destruct (name_rev n Hn) as (Hevery & c & rest & Hrev & Hc).
  rewrite append_cons, append_nil_l. unfold Path.dirname.
  assert (Hroot : Path.isSlash "/" = true) by reflexivity. rewrite Hroot.
  assert (Hdrop1 : ∀ X, Js.dropLeadingBy Path.isSlash (String.rev t +:+ String.rev n +:+ X)
                        = String.rev n +:+ X).
  { intros X. rewrite Hrev, append_cons.
    destruct Ht as [->|[-> _]].
    - rewrite append_nil_l. simpl. by rewrite Hc.
    - change (String.rev "/") with "/"%string. rewrite append_cons, append_nil_l.
      simpl. by rewrite Hc. }
  destruct names as [|m names].
  - cbn [app]. rewrite (join_cons "/" n []).
    rewrite string_rev_append, <- (append_nil_r (String.rev n)), Hdrop1.
    rewrite dropLeadingBy_all; [done | done | done].
  - rewrite join_snoc by done. rewrite !string_rev_append.
    change (String.rev "/") with "/"%string. rewrite !append_assoc.
    rewrite Hdrop1. rewrite append_cons, append_nil_l.
    rewrite dropLeadingBy_all; [| done | done].
    rewrite string_rev_involutive.
    assert (Hlen : Nat.eqb (String.length (String "/" (Js.join "/" (m :: names)))) 1 = false).
    { inversion Hinit as [|? ? Hm _]; subst.
      pose proof (join_truthy "/" m names (name_truthy m Hm)) as Hj.
      destruct (Js.join "/" (m :: names)); done. }
    rewrite Hlen. cbn [andb].
    change (String "/" (Js.join "/" (m :: names)))
      with ("/" +:+ Js.join "/" (m :: names)).
    by apply key_normalised.
Qed.

(** On a well-formed disk, the directory of an existing normalised path
    needs no creation. *)
Lemma mkdir_dirname_present d p :
  normalised p → wellFormedDisk d → Fs.existsSync d p = true →
  Fs.mkdirRecursive d (Path.dirname p) = Some d.
Proof.
  intros (names & Hnames & Hshape) Hwf Hex.
  assert (Hkeys : Fs.key p = names ∧ Fs.key (Path.dirname p) = removelast names).
  { destruct (key_normalised names Hnames) as [Hk Hk'].
    destruct Hshape as [->|[Hne ->]].
    - split; [done |]. rewrite <- (append_nil_r (Js.join "/" names)).
      apply dirname_key; auto.
    - split; [by apply Hk' |]. apply dirname_key; auto. }
  destruct Hkeys as [Hkey Hdir].
  unfold Fs.mkdirRecursive. rewrite Hdir.
  unfold Fs.existsSync, Fs.lookupNode in Hex. rewrite Hkey in Hex.
  clear Hnames Hshape Hkey Hdir.
  destruct names as [|x init _] using rev_ind; [done |].
  rewrite removelast_last. apply mkdirFrom_present. intros j Hj. cbn [app].
  destruct (init ++ [x]) as [|n names] eqn:E; [by destruct init |].
  destruct (d !! (n :: names)) as [node|] eqn:Hnode; [| done].
  rewrite <- E in Hnode.
  specialize (Hwf _ _ Hnode j). rewrite length_app in Hwf. cbn [length] in Hwf.
  rewrite take_app_le in Hwf by lia. apply Hwf. lia.
Qed.

End Dirname.

Section Pipeline.

Context `{Runtime, Environment}.

Ltac step_prog :=
  unfold mret, prog_ret, throw in *;
  cbv beta iota zeta in *;
  cbn [disk requests setDisk addConsole addRequest addMissing setCourseProgress] in *.

(** One iteration of the download loop always completes; it only adds to
    the disk, settles what it fetched, and skips what is settled. *)
Lemma fetchOne_cases cfg courseLabel i total decoded w :
  ∃ r w', fetchOne cfg courseLabel i total decoded w = (Return r, w')
    ∧ disk w ⊆ disk w'
    ∧ (isFetched r → settled decoded (disk w'))
    ∧ (settled decoded (disk w) →
       r = Fetched Skipped ∧ disk w' = disk w ∧ requests w' = requests w)
    ∧ (requests w' = requests w ∨ requests w' = requests w ++ [decoded]).
Proof.
  unfold fetchOne, finally, tryCatch.
  unfold mbind at 1, prog_bind at 1.
  destruct (downloadFile decoded w) as [[status|e] w1] eqn:Hdl.
  - step_prog. eexists _, _. split; [reflexivity |]. cbn [disk setCourseProgress].
    split_and!.
    + by eapply downloadFile_subseteq.
    + intros _. by eapply downloadFile_settles.
    + intros Hs. destruct (downloadFile_settled decoded w Hs) as (p & _ & Heq).
      rewrite Heq in Hdl. by simplify_eq.
    + exact (downloadFile_requests _ _ _ _ Hdl).
  - pose proof (downloadFile_subseteq _ _ _ _ Hdl) as Hsub.
    pose proof (downloadFile_requests _ _ _ _ Hdl) as Hreq.
    assert (Hnot : ¬ settled decoded (disk w)).
    { intros Hs. destruct (downloadFile_settled decoded w Hs) as (p & _ & Heq).
      rewrite Heq in Hdl. done. }
    unfold mbind, prog_bind, log, modify. step_prog.
    destruct (reportMissing cfg); step_prog;
      (eexists _, _; split; [reflexivity |]; cbn; split_and!; [done | done | done | done]).
Qed.

Lemma downloadAll_first cfg courseLabel total urls :
  ∀ i w r1 w1,
    downloadAll cfg courseLabel total i urls w = (Return r1, w1) →
    length r1 = length urls
    ∧ Forall (λ url, is_Some (Uri.decodeURI url)) urls
    ∧ disk w ⊆ disk w1
    ∧ ∀ k url decoded status,
        urls !! k = Some url → Uri.decodeURI url = Some decoded →
        r1 !! k = Some (Fetched status) → settled decoded (disk w1).
Proof.
  induction urls as [|url urls IH]; intros i w r1 w1; cbn [downloadAll].
  - intros [= <- <-]. split_and!; [done | constructor | done |]. intros k ? ? ? Hk. done.
  - unfold mbind at 1, prog_bind at 1, orThrow.
    destruct (Uri.decodeURI url) as [decoded|] eqn:Hdec; [| done]. step_prog.
    unfold mbind at 1, prog_bind at 1.
    destruct (fetchOne_cases cfg courseLabel i total decoded w)
      as (r & w' & -> & Hsub & Hset & _ & _).
    unfold mbind at 1, prog_bind at 1.
    destruct (downloadAll cfg courseLabel total (S i) urls w') as [[rs|e] w''] eqn:Hrest;
      [| done].
    step_prog. intros [= <- <-].
    destruct (IH _ _ _ _ Hrest) as (Hlen & Hdecs & Hsub' & Hsettled).
    split_and!.
    + simpl. by rewrite Hlen.
    + constructor; [by eexists | done].
    + by etrans.
    + intros [|k] url' decoded' status Hurl Hdec' Hr; simplify_eq/=.
      * eapply settled_weaken; [by apply Hset | done].
      * by eapply Hsettled.
Qed.

Lemma downloadAll_again cfg courseLabel total urls :
  ∀ i w r1,
    length r1 = length urls →
    Forall (λ url, is_Some (Uri.decodeURI url)) urls →
    (∀ k url decoded status,
        urls !! k = Some url → Uri.decodeURI url = Some decoded →
        r1 !! k = Some (Fetched status) → settled decoded (disk w)) →
    ∃ r2 w2,
      downloadAll cfg courseLabel total i urls w = (Return r2, w2)
      ∧ length r2 = length urls
      ∧ disk w ⊆ disk w2
      ∧ (∀ k status, r1 !! k = Some (Fetched status) → r2 !! k = Some (Fetched Skipped))
      ∧ (Forall isFetched r1 →
         r2 = replicate (length urls) (Fetched Skipped)
         ∧ disk w2 = disk w ∧ requests w2 = requests w)
      ∧ ∃ extra, requests w2 = requests w ++ extra ∧ Forall (failedIn urls r1) extra.
Proof.
  induction urls as [|url urls IH]; intros i w r1 Hlen Hdecs Hsettled.
  - destruct r1; [| done]. exists [], w. split_and!; try done.
    exists []. by rewrite app_nil_r.
  - destruct r1 as [|x r1]; [done |]. simpl in Hlen.
    inversion Hdecs as [|? ? [decoded Hdec] Hdecs']; subst.
    destruct (fetchOne_cases cfg courseLabel i total decoded w)
      as (r & w' & Hone & Hsub & _ & Hskip & Hreq).
    destruct (IH (S i) w' r1)
      as (rs & w2 & Hrest & Hlen2 & Hsub2 & Hsk & Hall & extra & Hextra & Hfailed);
      [lia | done | |].
    { intros k url' decoded' status Hurl Hdec' Hr.
      eapply settled_weaken; [| exact Hsub]. by apply (Hsettled (S k) url' decoded' status). }
    exists (r :: rs), w2. split_and!.
    + cbn [downloadAll]. unfold mbind at 1, prog_bind at 1, orThrow. rewrite Hdec.
      step_prog. unfold mbind at 1, prog_bind at 1. rewrite Hone.
      unfold mbind at 1, prog_bind at 1. rewrite Hrest. done.
    + simpl. by rewrite Hlen2.
    + by etrans.
    + intros [|k] status Hr; simplify_eq/=.
      * destruct Hskip as (-> & _); [| done].
        by apply (Hsettled 0%nat url decoded status).
      * by eapply Hsk.
    + intros Hfetched. inversion Hfetched as [|? ? Hx Hrest']; subst.
      destruct x as [status|]; [| done].
      destruct Hskip as (-> & Hd & Hr); [by apply (Hsettled 0%nat url decoded status) |].
      destruct (Hall Hrest') as (-> & Hd2 & Hr2).
      split_and!; [done | congruence | congruence].
    + assert (Hshift : Forall (failedIn (url :: urls) (x :: r1)) extra).
      { eapply Forall_impl; [exact Hfailed |].
        intros u (k & url' & reason & Hk & Hd & Hr). by exists (S k), url', reason. }
      destruct x as [status|reason].
      * destruct Hskip as (_ & _ & Hr); [by apply (Hsettled 0%nat url decoded status) |].
        exists extra. by rewrite Hextra, Hr.
      * destruct Hreq as [Hr|Hr].
        -- exists extra. by rewrite Hextra, Hr.
        -- exists (decoded :: extra). split; [by rewrite Hextra, Hr, <- app_assoc |].
           constructor; [| done]. by exists 0%nat, url, reason.
Qed.

End Pipeline.

(** C4.  (1) If something exists at the local path of a URL, on a
    well-formed disk, [downloadFile] returns [Skipped]: it prints the line
    that says so and leaves the disk and the list of requests as they are.
    (2) When the download loop has run over a list of URLs, running it again
    over the same list from the world the first run left completes, skips
    every resource that the first run fetched or skipped, and requests only
    resources that failed in the first run; when the first run had no
    failure, it skips everything, requests nothing and leaves the disk
    unchanged. *)
Theorem fetch_idempotent (R : Runtime) (E : Environment) :
  (∀ url localPath w,
     Js.startsWith processCwd "/" = true →
     localPathFromUrl url = Some localPath →
     wellFormedDisk (disk w) →
     Fs.existsSync (disk w) localPath = true →
     downloadFile url w
     = (Return Skipped, addConsole ("[CUMATDL] SKIP existing file: " +:+ localPath) w))
  ∧ (∀ cfg courseLabel total i urls w r1 w1,
       downloadAll cfg courseLabel total i urls w = (Return r1, w1) →
       ∃ r2 w2,
         downloadAll cfg courseLabel total i urls w1 = (Return r2, w2)
         ∧ length r2 = length urls
         ∧ (∀ k status, r1 !! k = Some (Fetched status) → r2 !! k = Some (Fetched Skipped))
         ∧ (∃ extra, requests w2 = requests w1 ++ extra
                     ∧ Forall (failedIn urls r1) extra)
         ∧ (Forall isFetched r1 →
            r2 = replicate (length urls) (Fetched Skipped)
            ∧ disk w2 = disk w1 ∧ requests w2 = requests w1)).
Proof.
  split.
  - intros url localPath w Hcwd Hp Hwf Hex.
    assert (Hn : normalised localPath).
    { unfold localPathFromUrl in Hp.
      destruct (newURL url None) as [u|]; simplify_eq/=.
      destruct (mapM _ _) as [decoded|]; simplify_eq/=.
      by apply join_absolute, DOWNLOAD_ROOT_absolute. }
    destruct (downloadFile_settled url w) as (p & Hp' & Heq).
    { exists localPath. split_and!; [done | | done]. by apply mkdir_dirname_present. }
    by simplify_eq.
  - intros cfg courseLabel total i urls w r1 w1 Hfirst.
    destruct (downloadAll_first _ _ _ _ _ _ _ _ Hfirst) as (Hlen & Hdecs & _ & Hsettled).
    destruct (downloadAll_again cfg courseLabel total urls i w1 r1 Hlen Hdecs Hsettled)
      as (r2 & w2 & Hsecond & Hlen2 & _ & Hskip & Hall & Hextra).
    by exists r2, w2.
Qed.

Lemma wellFormedDiskCheck_sound d :
  wellFormedDiskCheck d = true → wellFormedDisk d.
Proof.
  unfold wellFormedDiskCheck, wellFormedDisk. rewrite forallb_forall.
  intros Hall k node Hk j Hj.
  specialize (Hall (k, node)). rewrite forallb_forall in Hall.
  assert (Hin : In (k, node) (map_to_list d)).
  { apply list_elem_of_In. by apply elem_of_map_to_list. }
  assert (Hjin : In j (seq 1 (length k - 1))) by (apply in_seq; lia).
  specialize (Hall Hin j Hjin). cbn [fst] in Hall.
  by apply bool_decide_eq_true in Hall.
Qed.

(** C4, witness: the notes of MATH1010, fetched once and then again. *)
Lemma fetch_idempotent_witness :
  let R := Reference.runtime in
  let E := Scenario.flaky 0 Scenario.coursePage "PDF" in
  let cfg := injectionConfig "2223" false in
  let w1 := Scenario_afterFirstRun.2 in
  @processCwd R = "/home/user/CUMATDL"
  ∧ Scenario_afterFirstRun.1 = Return [Fetched Downloaded]
  ∧ downloadFile Scenario_notesUrl w1
    = (Return Skipped,
       addConsole "[CUMATDL] SKIP existing file: /home/user/CUMATDL/dl/2223/MATH1010/notes.pdf"
         w1)
  ∧ ∃ r2 w2,
      downloadAll cfg "MATH1010" 1 0 [Scenario_notesUrl] w1 = (Return r2, w2)
      ∧ r2 = [Fetched Skipped] ∧ disk w2 = disk w1 ∧ requests w2 = requests w1.
Proof.
  intros R E cfg w1.
  destruct (fetch_idempotent R E) as [Hskip Hagain].
  assert (Hfirst : downloadAll cfg "MATH1010" 1 0 [Scenario_notesUrl] Scenario.emptyWorld
                   = (Return [Fetched Downloaded], w1)).
  { vm_compute. reflexivity. }
  split_and!; [reflexivity | vm_compute; reflexivity | |].
  - apply (Hskip Scenario_notesUrl "/home/user/CUMATDL/dl/2223/MATH1010/notes.pdf" w1).
    + reflexivity.
    + vm_compute. reflexivity.
    + apply wellFormedDiskCheck_sound. vm_compute. reflexivity.
    + vm_compute. reflexivity.
  - destruct (Hagain cfg "MATH1010" 1%nat 0%nat [Scenario_notesUrl] Scenario.emptyWorld
                _ w1 Hfirst) as (r2 & w2 & Hrun & _ & _ & _ & Hall).
    destruct Hall as (-> & Hd & Hr); [by repeat constructor |].
    by exists [Fetched Skipped], w2.
Defined.

(** ** The year expression *)

Section YearExpression.

Local Abbreviation slashFree s := (Js.every (λ a, negb (Path.isSlash a)) s = true).

Lemma lowerChar_slash c : Path.isSlash (Js.lowerChar c) = Path.isSlash c.
Proof. destruct c as [[] [] [] [] [] [] [] []]; reflexivity. Qed.

Lemma lower_append s t : Js.lower (s +:+ t) = Js.lower s +:+ Js.lower t.
Proof.
  induction s as [|a s IH]; [done |]. rewrite append_cons. simpl.
  by rewrite IH, append_cons.
Qed.

Lemma lower_slashFree s : slashFree (Js.lower s) ↔ slashFree s.
Proof.
  induction s as [|a s IH]; [done |]. simpl.
  rewrite lowerChar_slash, !andb_true_iff, IH. done.
Qed.

Lemma lower_app_inv m l1 l2 :
  Js.lower m = l1 +:+ l2 →
  ∃ m1 m2, m = m1 +:+ m2 ∧ Js.lower m1 = l1 ∧ Js.lower m2 = l2.
Proof.
  revert m. induction l1 as [|c l1 IH]; intros m Hm.
  - exists "", m. by rewrite !append_nil_l in *.
  - rewrite append_cons in Hm. destruct m as [|a m]; [done |].
    simpl in Hm. injection Hm as Ha Hm.
    destruct (IH m Hm) as (m1 & m2 & -> & H1 & H2).
    exists (String a m1), m2. split_and!; [done | | done]. simpl. by rewrite Ha, H1.
Qed.

Lemma lower_slash_inv m : Js.lower m = "/" → m = "/".
Proof.
  destruct m as [|a [|b m]]; try done. simpl. intros [= Ha].
  assert (Hs : Path.isSlash (Js.lowerChar a) = true) by (by rewrite Ha).
  rewrite lowerChar_slash in Hs. unfold Path.isSlash in Hs.
  by apply Ascii.eqb_eq in Hs as ->.
Qed.

Lemma matchIgnoreCase_sound literal s m r :
  matchIgnoreCase literal s = Some (m, r) → s = m +:+ r ∧ Js.lower m = literal.
Proof.
  revert s m. induction literal as [|l literal IH]; intros s m; simpl.
  - intros [= <- <-]. done.
  - destruct s as [|c s]; [done |].
    destruct (Ascii.eqb_spec (Js.lowerChar c) l) as [<-|]; [| done].
    destruct (matchIgnoreCase literal s) as [[m' r']|] eqn:E; [| done].
    cbn. intros [= <- <-]. destruct (IH _ _ E) as [-> <-]. done.
Qed.

Lemma matchIgnoreCase_complete m r :
  matchIgnoreCase (Js.lower m) (m +:+ r) = Some (m, r).
Proof.
  induction m as [|c m IH]; [done |].
  rewrite append_cons. simpl. rewrite Ascii.eqb_refl, IH. done.
Qed.

(** A string is cut in one way only into a slash-free part and a rest
    that is empty or starts with a slash. *)
Lemma slashFree_cut x u y v :
  slashFree x → slashFree y →
  match u with EmptyString => True | String c _ => c = "/"%char end →
  match v with EmptyString => True | String c _ => c = "/"%char end →
  x +:+ u = y +:+ v → x = y ∧ u = v.
Proof.
  revert y. induction x as [|a x IH]; intros y Hx Hy Hu Hv Heq.
  - rewrite append_nil_l in Heq. destruct y as [|b y]; [done |].
    rewrite append_cons in Heq. subst u. simpl in Hy. by subst.
  - destruct y as [|b y].
    + rewrite append_nil_l, append_cons in Heq. subst v. simpl in Hx. by subst.
    + rewrite !append_cons in Heq. injection Heq as -> Heq.
      simpl in Hx, Hy. apply andb_true_iff in Hx as [_ Hx], Hy as [_ Hy].
      destruct (IH y Hx Hy Hu Hv Heq) as [-> ->]. done.
Qed.

(** The anchor at the start of [/a...], for a slash-free [a] followed by
    [rest], which is empty or starts with a slash. *)
Lemma matchAnchor a rest :
  slashFree a →
  match rest with EmptyString => True | String c _ => c = "/"%char end →
  matchIgnoreCase "/course_builder/" ("/" +:+ a +:+ rest)
  = match rest with
    | String _ rest' =>
        if isAnchorSegment a then Some ("/" +:+ a +:+ "/", rest') else None
    | EmptyString => None
    end.
Proof.
  intros Ha Hrest.
  destruct (matchIgnoreCase _ _) as [[m r]|] eqn:E.
  - apply matchIgnoreCase_sound in E as [Hs Hm].
    change "/course_builder/"%string with ("/" +:+ "course_builder" +:+ "/") in Hm.
    apply lower_app_inv in Hm as (m0 & m' & -> & H0 & Hm).
    apply lower_app_inv in Hm as (a' & m2 & -> & Ha' & H2).
    apply lower_slash_inv in H0 as ->. apply lower_slash_inv in H2 as ->.
    rewrite !append_assoc, !append_cons, !append_nil_l in Hs.
    injection Hs as Hs.
    assert (Hfree : slashFree a') by (apply lower_slashFree; by rewrite Ha').
    apply slashFree_cut in Hs as [-> ->]; [| done | done | done | done].
    unfold isAnchorSegment. by rewrite Ha'.
  - destruct rest as [|c rest']; [done |]. subst c.
    destruct (isAnchorSegment a) eqn:Hanchor; [| done].
    unfold isAnchorSegment in Hanchor. apply String.eqb_eq in Hanchor.
    exfalso.
    assert (Hm : Js.lower ("/" +:+ a +:+ "/") = "/course_builder/").
    { rewrite !lower_append, Hanchor. reflexivity. }
    pose proof (matchIgnoreCase_complete ("/" +:+ a +:+ "/") rest') as Hc.
    rewrite Hm, !append_assoc in Hc.
    change ("/" +:+ rest') with (String "/" rest') in Hc. congruence.
Qed.

End YearExpression.

Section YearSegments.

Local Abbreviation slashFree s := (Js.every (λ a, negb (Path.isSlash a)) s = true).

Lemma digit_not_special c :
  Js.isDigit c = true ∨ c = "_"%char →
  Path.isSlash c = false ∧ Url.inPathEncodeSet c = false
  ∧ (∀ special, Url.isPathSeparator special c = false)
  ∧ Js.lowerChar c ≠ "."%char ∧ Js.lowerChar c ≠ "%"%char
  ∧ Js.isAlpha c = false.
Proof.
  intros [Hd| ->].
  - destruct c as [[] [] [] [] [] [] [] []]; try discriminate Hd;
      (split_and!; [done | done | by intros [] | done | done | done]).
  - split_and!; [done | done | by intros [] | done | done | done].
Qed.

(** The strings [YEAR_PATTERN] accepts. *)
Lemma YEAR_PATTERN_shape y :
  YEAR_PATTERN y = true ↔
  ∃ a b c d,
    Js.isDigit a = true ∧ Js.isDigit b = true ∧ Js.isDigit c = true ∧ Js.isDigit d = true
    ∧ (y = String a (String b (String c (String d "")))
       ∨ y = String "_" (String a (String b (String c (String d ""))))).
Proof.
  unfold YEAR_PATTERN, yearSegmentHere, fourDigits. split.
  - destruct y as [|c0 y]; [done |].
    destruct (Ascii.eqb_spec c0 "_") as [->|Hne].
    + destruct y as [|a [|b [|c [|d y]]]]; try done.
      destruct (Js.isDigit a) eqn:Ha, (Js.isDigit b) eqn:Hb,
        (Js.isDigit c) eqn:Hc, (Js.isDigit d) eqn:Hd; try done.
      destruct y; [| done]. intros _. exists a, b, c, d. by split_and!; [..| right].
    + destruct y as [|b [|c [|d y]]]; try done.
      destruct (Js.isDigit c0) eqn:Ha, (Js.isDigit b) eqn:Hb,
        (Js.isDigit c) eqn:Hc, (Js.isDigit d) eqn:Hd; try done.
      destruct y; [| done]. intros _. exists c0, b, c, d. by split_and!; [..| left].
  - intros (a & b & c & d & Ha & Hb & Hc & Hd & [->| ->]).
    + destruct (Ascii.eqb_spec a "_") as [->|_]; [done |]. by rewrite Ha, Hb, Hc, Hd.
    + rewrite Ascii.eqb_refl. by rewrite Ha, Hb, Hc, Hd.
Qed.

Lemma yearSegmentHere_sound s after :
  yearSegmentHere s = Some after → ∃ y, s = y +:+ after ∧ YEAR_PATTERN y = true.
Proof.
  unfold yearSegmentHere, fourDigits.
  destruct s as [|c0 s]; [done |].
  destruct (Ascii.eqb_spec c0 "_") as [->|Hne].
  - destruct s as [|a [|b [|c [|d s]]]]; try done.
    destruct (Js.isDigit a) eqn:Ha, (Js.isDigit b) eqn:Hb,
      (Js.isDigit c) eqn:Hc, (Js.isDigit d) eqn:Hd; try done.
    intros [= <-]. exists (String "_" (String a (String b (String c (String d ""))))).
    split; [done |]. apply YEAR_PATTERN_shape. exists a, b, c, d. by split_and!; [..| right].
  - destruct s as [|b [|c [|d s]]]; try done.
    destruct (Js.isDigit c0) eqn:Ha, (Js.isDigit b) eqn:Hb,
      (Js.isDigit c) eqn:Hc, (Js.isDigit d) eqn:Hd; try done.
    intros [= <-]. exists (String c0 (String b (String c (String d "")))).
    split; [done |]. apply YEAR_PATTERN_shape. exists c0, b, c, d. by split_and!; [..| left].
Qed.

Lemma yearSegmentHere_complete y after :
  YEAR_PATTERN y = true → yearSegmentHere (y +:+ after) = Some after.
Proof.
  intros (a & b & c & d & Ha & Hb & Hc & Hd & [->| ->])%YEAR_PATTERN_shape;
    rewrite !append_cons, append_nil_l; unfold yearSegmentHere, fourDigits.
  - destruct (Ascii.eqb_spec a "_") as [->|_]; [done |]. by rewrite Ha, Hb, Hc, Hd.
  - rewrite Ascii.eqb_refl. by rewrite Ha, Hb, Hc, Hd.
Qed.

Lemma YEAR_PATTERN_slashFree y : YEAR_PATTERN y = true → slashFree y.
Proof.
  intros (a & b & c & d & Ha & Hb & Hc & Hd & [->| ->])%YEAR_PATTERN_shape; simpl;
    destruct (digit_not_special a (or_introl Ha)) as [-> _];
    destruct (digit_not_special b (or_introl Hb)) as [-> _];
    destruct (digit_not_special c (or_introl Hc)) as [-> _];
    destruct (digit_not_special d (or_introl Hd)) as [-> _]; done.
Qed.

Lemma serialize_cons a rest :
  Url.serializePath (Url.Segments (a :: rest))
  = "/" +:+ a +:+ Url.serializePath (Url.Segments rest).
Proof.
  unfold Url.serializePath. cbn [map]. rewrite join_cons.
  destruct (map _ rest) eqn:E.
  - by rewrite append_nil_r.
  - by rewrite append_nil_l, append_assoc.
Qed.

Lemma serialize_head rest :
  match Url.serializePath (Url.Segments rest) with
  | EmptyString => rest = []
  | String c _ => c = "/"%char
  end.
Proof. destruct rest as [|a rest]; [done |]. by rewrite serialize_cons. Qed.

(** The year expression at a segment boundary of a path. *)
Lemma yearMatchHere_path a rest :
  slashFree a → Forall (λ s, slashFree s) rest →
  yearMatchHere ("/" +:+ a +:+ Url.serializePath (Url.Segments rest))
  = match rest with
    | y :: z :: rest' =>
        if isAnchorSegment a && YEAR_PATTERN y
        then Some ("/" +:+ a +:+ "/", z +:+ Url.serializePath (Url.Segments rest'))
        else None
    | _ => None
    end.
Proof.
  intros Ha Hrest. unfold yearMatchHere.
  rewrite matchAnchor; [| done | by destruct (Url.serializePath _) eqn:E;
                                    [| pose proof (serialize_head rest) as Hh; rewrite E in Hh]].
  destruct rest as [|y rest2]; [done |].
  rewrite serialize_cons, append_cons, append_nil_l.
  destruct (isAnchorSegment a); [| by destruct rest2].
  cbn [mbind option_bind andb].
  inversion Hrest as [|? ? Hy Hrest2]; subst.
  destruct (YEAR_PATTERN y) eqn:Hyear.
  - rewrite yearSegmentHere_complete by done. cbn [mbind option_bind].
    destruct rest2 as [|z rest']; [done |].
    rewrite serialize_cons, append_cons, append_nil_l. by rewrite Ascii.eqb_refl.
  - destruct (yearSegmentHere _) as [after|] eqn:E; cbn [mbind option_bind];
      [| by destruct rest2 as [|? ?]].
    apply yearSegmentHere_sound in E as (y' & Hcut & Hy').
    destruct after as [|c after]; [by destruct rest2 as [|? ?] |].
    destruct (Ascii.eqb_spec c "/") as [->|_]; [| by destruct rest2 as [|? ?]].
    exfalso. apply slashFree_cut in Hcut as [-> _]; [congruence | done | | | done].
    + by apply YEAR_PATTERN_slashFree.
    + pose proof (serialize_head rest2) as Hh. by destruct (Url.serializePath _).
Qed.

End YearSegments.

Section YearRewrite.

Local Abbreviation slashFree s := (Js.every (λ a, negb (Path.isSlash a)) s = true).

Variable cfg : InjectionConfig.

Lemma yearReplace_unfold s :
  yearReplace cfg s
  = match yearMatchHere s with
    | Some (p1, rest) => p1 +:+ yearPrefix cfg +:+ courseYearDigits cfg +:+ "/" +:+ rest
    | None => match s with
              | EmptyString => EmptyString
              | String a s' => String a (yearReplace cfg s')
              end
    end.
Proof. by destruct s. Qed.

Lemma yearMatchHere_not_slash c s :
  Path.isSlash c = false → yearMatchHere (String c s) = None.
Proof.
  intros Hc. unfold yearMatchHere. cbn [matchIgnoreCase].
  destruct (Ascii.eqb_spec (Js.lowerChar c) "/") as [Heq|_]; [| done].
  assert (Hs : Path.isSlash (Js.lowerChar c) = true) by (by rewrite Heq).
  rewrite lowerChar_slash in Hs. congruence.
Qed.

(** No match starts inside a segment. *)
Lemma yearReplace_segment a t :
  slashFree a → yearReplace cfg (a +:+ t) = a +:+ yearReplace cfg t.
Proof.
  induction a as [|c a IH]; intros Ha; [done |].
  simpl in Ha. apply andb_true_iff in Ha as [Hc Ha]. apply negb_true_iff in Hc.
  rewrite !append_cons, yearReplace_unfold, yearMatchHere_not_slash by done.
  by rewrite IH.
Qed.

Lemma rewriteYear_unfold replacement a rest :
  rewriteYear replacement (a :: rest)
  = match rest with
    | y :: _ :: _ =>
        if isAnchorSegment a && YEAR_PATTERN y
        then a :: replacement :: tail rest
        else a :: rewriteYear replacement rest
    | _ => a :: rewriteYear replacement rest
    end.
Proof. reflexivity. Qed.

(** The replacement, on the segments of a path. *)
Lemma yearReplace_path segs :
  Forall (λ s, slashFree s) segs →
  yearReplace cfg (Url.serializePath (Url.Segments segs))
  = Url.serializePath
      (Url.Segments (rewriteYear (yearPrefix cfg +:+ courseYearDigits cfg) segs)).
Proof.
  induction 1 as [|a rest Ha Hrest IH]; [done |].
  rewrite serialize_cons, yearReplace_unfold, yearMatchHere_path by done.
  rewrite rewriteYear_unfold.
  assert (Hmiss : String "/" (yearReplace cfg (a +:+ Url.serializePath (Url.Segments rest)))
                  = Url.serializePath
                      (Url.Segments
                         (a :: rewriteYear (yearPrefix cfg +:+ courseYearDigits cfg) rest))).
  { rewrite yearReplace_segment, IH, serialize_cons by done. done. }
  destruct rest as [|y [|z rest']]; [done | done |].
  destruct (isAnchorSegment a && YEAR_PATTERN y); [| done].
  cbn [tail]. rewrite !serialize_cons, !append_assoc. done.
Qed.

Lemma rewriteYear_cons replacement a rest :
  ∃ rest', rewriteYear replacement (a :: rest) = a :: rest' ∧ length rest' = length rest.
Proof.
  revert a. induction rest as [|y rest IH]; intros a; [by exists [] |].
  rewrite rewriteYear_unfold. destruct (IH y) as (rest' & Hrest' & Hlen).
  destruct rest as [|z rest2].
  - by exists [y].
  - destruct (isAnchorSegment a && YEAR_PATTERN y).
    + by exists (replacement :: z :: rest2).
    + rewrite Hrest'. exists (y :: rest'). simpl in *. by rewrite Hlen.
Qed.

Lemma yearHit_head a y z rest :
  yearHit (a :: y :: z :: rest) 0 ↔ isAnchorSegment a && YEAR_PATTERN y = true.
Proof.
  unfold yearHit. rewrite andb_true_iff. split.
  - intros (a' & y' & [= <-] & Ha & [= <-] & Hy & _). done.
  - intros [Ha Hy]. exists a, y. by split_and!; [..| eexists].
Qed.

Lemma yearHit_tail a segs i : yearHit (a :: segs) (S i) ↔ yearHit segs i.
Proof. done. Qed.

Lemma yearHit_short a rest :
  (length rest < 2)%nat → ¬ yearHit (a :: rest) 0.
Proof.
  intros Hlen (a' & y & _ & _ & Hy & _ & [z Hz]).
  destruct rest as [|? [|? ?]]; simpl in *; done || lia.
Qed.

(** The rewrite replaces the year segment of the first hit, and nothing
    else. *)
Lemma rewriteYear_first_hit replacement segs i :
  yearHit segs i → (∀ j, (j < i)%nat → ¬ yearHit segs j) →
  rewriteYear replacement segs = <[S i := replacement]> segs.
Proof.
  revert i. induction segs as [|a rest IH]; intros i Hhit Hfirst.
  - by destruct Hhit as (? & ? & ? & _).
  - rewrite rewriteYear_unfold.
    assert (Hnext : ∀ i', i = S i' →
              a :: rewriteYear replacement rest = <[S i := replacement]> (a :: rest)).
    { intros i' ->. cbn. f_equal. apply IH; [done |].
      intros j Hj. apply (Hfirst (S j)). lia. }
    destruct rest as [|y [|z rest']].
    + by destruct Hhit as (? & ? & _ & _ & ? & _).
    + destruct i as [|i']; [| by apply (Hnext i')].
      exfalso. revert Hhit. apply yearHit_short. simpl. lia.
    + destruct (isAnchorSegment a && YEAR_PATTERN y) eqn:Hhead.
      * destruct i as [|i']; [done |]. exfalso. apply (Hfirst 0%nat); [lia |].
        by apply yearHit_head.
      * destruct i as [|i']; [| by apply (Hnext i')].
        apply yearHit_head in Hhit. congruence.
Qed.

Lemma rewriteYear_no_hit replacement segs :
  (∀ i, ¬ yearHit segs i) → rewriteYear replacement segs = segs.
Proof.
  induction segs as [|a rest IH]; intros Hnone; [done |].
  rewrite rewriteYear_unfold.
  assert (Hrest : rewriteYear replacement rest = rest).
  { apply IH. intros i Hi. by apply (Hnone (S i)). }
  destruct rest as [|y [|z rest']]; [done | by rewrite Hrest |].
  destruct (isAnchorSegment a && YEAR_PATTERN y) eqn:Hhead; [| by rewrite Hrest].
  exfalso. apply (Hnone 0%nat). by apply yearHit_head.
Qed.

(** Once the replacement has the shape of a year, rewriting again changes
    nothing. *)
Lemma rewriteYear_idempotent replacement segs :
  YEAR_PATTERN replacement = true →
  rewriteYear replacement (rewriteYear replacement segs) = rewriteYear replacement segs.
Proof.
  intros Hshape. induction segs as [|a rest IH]; [done |].
  rewrite rewriteYear_unfold.
  destruct rest as [|y [|z rest']]; [done | done |].
  destruct (isAnchorSegment a && YEAR_PATTERN y) eqn:Hhead.
  - cbn [tail]. rewrite rewriteYear_unfold. cbn [tail].
    apply andb_true_iff in Hhead as [-> _]. by rewrite Hshape.
  - destruct (rewriteYear_cons replacement y (z :: rest')) as (rest2 & Heq & Hlen).
    rewrite Heq in IH |- *. destruct rest2 as [|z2 rest2]; [done |].
    rewrite rewriteYear_unfold, Hhead. by rewrite IH.
Qed.

Lemma rewriteYear_Forall (P : string → Prop) replacement segs :
  P replacement → Forall P segs → Forall P (rewriteYear replacement segs).
Proof.
  intros Hnew. induction 1 as [|a rest Ha Hrest IH]; [constructor |].
  rewrite rewriteYear_unfold. destruct rest as [|y [|z rest']]; [by repeat constructor | by constructor |].
  destruct (isAnchorSegment a && YEAR_PATTERN y).
  - inversion Hrest as [|? ? _ Hrest']; subst. simpl.
    constructor; [done |]. by constructor.
  - by constructor.
Qed.

End YearRewrite.

(** ** The [pathname] setter on clean paths *)

Section PathSetter.

Lemma every_append f s t : Js.every f (s +:+ t) = Js.every f s && Js.every f t.
Proof.
  induction s as [|a s IH]; [done |]. rewrite append_cons. simpl.
  by rewrite IH, andb_assoc.
Qed.

Lemma every_impl (f g : ascii → bool) s :
  (∀ a, f a = true → g a = true) → Js.every f s = true → Js.every g s = true.
Proof.
  intros Hfg. induction s as [|a s IH]; [done |]. simpl.
  intros [Ha Hs]%andb_true_iff. by rewrite (Hfg a Ha), IH.
Qed.

Lemma filterChars_id f s : Js.every f s = true → Js.filterChars f s = s.
Proof.
  induction s as [|a s IH]; [done |]. simpl.
  intros [Ha Hs]%andb_true_iff. by rewrite Ha, IH.
Qed.

Lemma percentEncodePath_id s :
  Js.every (λ c, negb (Url.inPathEncodeSet c)) s = true → Url.percentEncodePath s = s.
Proof.
  induction s as [|a s IH]; [done |]. simpl.
  intros [Ha Hs]%andb_true_iff. apply negb_true_iff in Ha. by rewrite Ha, IH.
Qed.

Lemma serialize_join segs :
  segs ≠ [] → Url.serializePath (Url.Segments segs) = "/" +:+ Js.join "/" segs.
Proof.
  induction segs as [|a rest IH]; [done |]. intros _.
  rewrite serialize_cons, join_cons. destruct rest as [|b rest]; [by rewrite append_nil_r |].
  by rewrite IH.
Qed.

Lemma encodeSet_tab c : Url.inPathEncodeSet c = false → Url.isTabOrNewline c = false.
Proof. destruct c as [[] [] [] [] [] [] [] []]; done. Qed.

Section Clean.

Variable special : bool.

Lemma cleanSegment_parts s :
  cleanSegment special s = true →
  Js.every (λ c, negb (Url.inPathEncodeSet c)) s = true
  ∧ Js.every (λ c, negb (Url.isPathSeparator special c)) s = true
  ∧ Js.every (λ c, negb (Url.isTabOrNewline c)) s = true
  ∧ Url.isSingleDot s = false ∧ Url.isDoubleDot s = false.
Proof.
  unfold cleanSegment. intros H.
  apply andb_true_iff in H as [H Hdd]. apply andb_true_iff in H as [H Hd].
  apply negb_true_iff in Hd, Hdd. split_and!; [| | | done | done].
  - eapply every_impl; [| exact H]. by intros a [? _]%andb_true_iff.
  - eapply every_impl; [| exact H]. by intros a [_ ?]%andb_true_iff.
  - eapply every_impl; [| exact H]. intros a [Ha _]%andb_true_iff.
    apply negb_true_iff in Ha. by rewrite (encodeSet_tab a Ha).
Qed.

Lemma join_every f sep segs :
  Js.every f sep = true → Forall (λ s, Js.every f s = true) segs →
  Js.every f (Js.join sep segs) = true.
Proof.
  intros Hsep. induction 1 as [|a rest Ha Hrest IH]; [done |].
  rewrite join_cons. destruct rest; [done |].
  by rewrite !every_append, Ha, Hsep, IH.
Qed.

(** The path state stores clean buffers as they are. *)
Lemma pathLoop_clean file buffers :
  ∀ revPath,
    Forall (λ s, Url.isSingleDot s = false ∧ Url.isDoubleDot s = false) buffers →
    (revPath = [] → file = true →
     match buffers with
     | b :: _ => Url.isWindowsDriveLetter b = true → Url.isNormalizedDriveLetter b = true
     | [] => True
     end) →
    Url.pathLoop file revPath buffers = rev buffers ++ revPath.
Proof.
  assert (Hstep : ∀ revPath b followed,
            Url.isSingleDot b = false → Url.isDoubleDot b = false →
            (revPath = [] → file = true →
             Url.isWindowsDriveLetter b = true → Url.isNormalizedDriveLetter b = true) →
            Url.pathStep file revPath b followed = b :: revPath).
  { intros revPath b followed Hd Hdd Hdrive. unfold Url.pathStep. rewrite Hd, Hdd.
    destruct file; [| done]. case_bool_decide as Hnil; [| done].
    destruct (Url.isWindowsDriveLetter b) eqn:Hw; [| done]. cbn [andb].
    specialize (Hdrive Hnil eq_refl eq_refl).
    destruct b as [|a [|c [|? ?]]]; try done. simpl in Hdrive |- *.
    apply andb_true_iff in Hdrive as [_ Hc]. by apply Ascii.eqb_eq in Hc as ->. }
  induction buffers as [|b rest IH]; intros revPath Hclean Hdrive; [done |].
  inversion Hclean as [|? ? [Hd Hdd] Hrest]; subst.
  cbn [Url.pathLoop]. destruct rest as [|b' rest'].
  - rewrite Hstep by done. done.
  - rewrite Hstep by done. rewrite IH; [| done | done].
    cbn [rev]. by rewrite <- !app_assoc.
Qed.

(** Parsing the serialisation of a clean path gives the path back. *)
Lemma parsePath_clean file hostIsNull segs :
  segs ≠ [] →
  Forall (λ s, cleanSegment special s = true) segs →
  (file = true →
   match segs with
   | s :: _ => Url.isWindowsDriveLetter s = true → Url.isNormalizedDriveLetter s = true
   | [] => True
   end) →
  Url.parsePath special file hostIsNull (Url.serializePath (Url.Segments segs)) = segs.
Proof.
  intros Hne Hclean Hdrive. rewrite serialize_join by done.
  assert (Hparts : ∀ f,
            (∀ s, cleanSegment special s = true → Js.every f s = true) →
            Forall (λ s, Js.every f s = true) segs).
  { intros f Hf. eapply Forall_impl; [exact Hclean |]. done. }
  unfold Url.parsePath, Url.stripTabNewline.
  rewrite filterChars_id.
  2:{ rewrite append_cons, append_nil_l. simpl.
      apply join_every; [done |]. apply Hparts. intros s Hs. by apply cleanSegment_parts. }
  rewrite append_cons, append_nil_l.
  assert (Hsep : Url.isPathSeparator special "/" = true) by reflexivity.
  rewrite Hsep. rewrite (splitBy_join _ "/"); [| done | done |].
  2:{ apply Hparts. intros s Hs. by apply cleanSegment_parts. }
  assert (map Url.percentEncodePath segs = segs) as ->.
  { clear -Hclean. induction Hclean as [|s rest Hs _ IH]; [done |].
    cbn [map]. rewrite IH, percentEncodePath_id; [done |]. by apply cleanSegment_parts. }
  rewrite pathLoop_clean.
  - by rewrite app_nil_r, rev_involutive.
  - eapply Forall_impl; [exact Hclean |]. intros s Hs. by apply cleanSegment_parts.
  - intros _ Hfile. by apply Hdrive.
Qed.

Lemma year_clean y : YEAR_PATTERN y = true → cleanSegment special y = true.
Proof.
  intros Hy. pose proof Hy as (a & b & c & d & Ha & Hb & Hc & Hd & Hshape)%YEAR_PATTERN_shape.
  assert (Hchar : ∀ x, Js.isDigit x = true ∨ x = "_"%char →
            negb (Url.inPathEncodeSet x) && negb (Url.isPathSeparator special x) = true).
  { intros x Hx. destruct (digit_not_special x Hx) as (_ & -> & Hsep & _).
    by rewrite Hsep. }
  assert (Hdots : ∀ x rest, Js.isDigit x = true ∨ x = "_"%char →
            Url.isSingleDot (String x rest) = false ∧ Url.isDoubleDot (String x rest) = false).
  { intros x rest Hx. destruct (digit_not_special x Hx) as (_ & _ & _ & Hdot & Hpct & _).
    unfold Url.isSingleDot, Url.isDoubleDot. simpl.
    split; apply bool_decide_eq_false; rewrite !elem_of_cons, elem_of_nil;
      intros H; repeat destruct H as [H|H]; try done; by injection H. }
  unfold cleanSegment.
  destruct Hshape as [->| ->].
  - destruct (Hdots a (String b (String c (String d ""))) (or_introl Ha)) as [-> ->].
    cbn [Js.every].
    by rewrite (Hchar a), (Hchar b), (Hchar c), (Hchar d) by auto.
  - destruct (Hdots "_"%char (String a (String b (String c (String d ""))))
                (or_intror eq_refl)) as [-> ->].
    cbn [Js.every].
    by rewrite (Hchar "_"%char), (Hchar a), (Hchar b), (Hchar c), (Hchar d) by auto.
Qed.

End Clean.

End PathSetter.

(** ** UrlNormalizer *)

Section Normalizer.

Context `{Runtime}.

Lemma normalizeUrl_steps cfg loc href :
  normalizeUrl cfg loc href
  = (λ target, yearRewriteStep cfg (hostFixStep cfg target)) <$> newURL href (Some loc).
Proof. unfold normalizeUrl. by destruct (newURL href (Some loc)). Qed.

Lemma clearPort_idempotent u : Url.clearPort (Url.clearPort u) = Url.clearPort u.
Proof.
  unfold Url.clearPort. destruct (Url.cannotHavePort u) eqn:Hc; [by rewrite Hc |].
  by destruct (Url.cannotHavePort (Url.withPort u None)).
Qed.

Lemma hostnameBuffer_truthy special c s buffer :
  Url.hostnameBuffer special false (String c s) = Some buffer →
  negb (Ascii.eqb c "/" || Ascii.eqb c "?" || Ascii.eqb c "#" || Ascii.eqb c "\") = true →
  Js.truthy buffer = true.
Proof.
  cbn [Url.hostnameBuffer]. intros Hb Hc. apply negb_true_iff in Hc.
  apply orb_false_iff in Hc as [Hc Hbs]. rewrite Hc in Hb.
  rewrite Hbs, andb_false_r in Hb. cbn [orb] in Hb.
  destruct (Ascii.eqb c ":" && negb false); [done |].
  destruct (Url.hostnameBuffer special _ s); by simplify_eq/=.
Qed.

(** With a plain replacement, the host the setter installs depends on the
    scheme of the URL only. *)
Lemma hostnameToSet_scheme u u' value :
  plainHostInput value = true → Url.scheme u = Url.scheme u' →
  Url.hostnameToSet hostParse u value = Url.hostnameToSet hostParse u' value.
Proof.
  unfold plainHostInput, Url.hostnameToSet, Url.isFile, Url.isSpecial.
  intros Hplain <-.
  destruct (Url.stripTabNewline value) as [|c s] eqn:E; [done |].
  destruct (String.eqb (Url.scheme u) "file"); [done |].
  destruct (Url.hostnameBuffer _ false (String c s)) as [buffer|] eqn:Hb; [| done].
  cbn [mbind option_bind].
  by rewrite (hostnameBuffer_truthy _ _ _ _ Hb Hplain), !andb_false_l, !andb_false_r.
Qed.

Lemma hostFixStep_idempotent cfg u :
  (forceHostReplacement cfg = true → plainHostInput (hostReplacement cfg) = true) →
  hostFixStep cfg (hostFixStep cfg u) = hostFixStep cfg u.
Proof.
  intros Hplain. unfold hostFixStep at 2.
  destruct (forceHostReplacement cfg) eqn:Hforce; [| unfold hostFixStep; by rewrite Hforce].
  specialize (Hplain eq_refl). cbn [andb].
  destruct (String.eqb (Url.hostname u) (hostNeedingFix cfg)) eqn:Hneed.
  2:{ unfold hostFixStep. by rewrite Hforce, Hneed. }
  set (u1 := Url.clearPort (Url.setHostname hostParse u (hostReplacement cfg))).
  unfold hostFixStep. rewrite Hforce, Hneed. cbn [andb]. fold u1.
  destruct (String.eqb (Url.hostname u1) (hostNeedingFix cfg)); [| done].
  assert (Hfix : Url.setHostname hostParse u1 (hostReplacement cfg) = u1).
  { subst u1. unfold Url.setHostname.
    destruct (Url.hasOpaquePath u) eqn:Hop.
    - assert (Url.hasOpaquePath (Url.clearPort u) = true) as ->; [| done].
      unfold Url.clearPort. by destruct (Url.cannotHavePort u).
    - destruct (Url.hostnameToSet hostParse u (hostReplacement cfg)) as [h|] eqn:Hh.
      + assert (Hop' : Url.hasOpaquePath (Url.clearPort (Url.withHost u (Some h))) = false).
        { unfold Url.clearPort. by destruct (Url.cannotHavePort _). }
        rewrite Hop'.
        rewrite (hostnameToSet_scheme _ u) by (done || (unfold Url.clearPort;
          by destruct (Url.cannotHavePort _))).
        rewrite Hh. unfold Url.clearPort. by destruct (Url.cannotHavePort _).
      + assert (Hop' : Url.hasOpaquePath (Url.clearPort u) = false).
        { unfold Url.clearPort. by destruct (Url.cannotHavePort _). }
        rewrite Hop'.
        rewrite (hostnameToSet_scheme _ u) by (done || (unfold Url.clearPort;
          by destruct (Url.cannotHavePort _))).
        by rewrite Hh. }
  rewrite Hfix. subst u1. apply clearPort_idempotent.
Qed.

(** The host fix and a change of list path do not see each other. *)
Lemma hostFixStep_withPath cfg u segs segs' :
  (forceHostReplacement cfg = true → plainHostInput (hostReplacement cfg) = true) →
  Url.path u = Url.Segments segs →
  hostFixStep cfg (Url.withPath u (Url.Segments segs'))
  = Url.withPath (hostFixStep cfg u) (Url.Segments segs').
Proof.
  intros Hplain Hpath. unfold hostFixStep.
  change (Url.hostname (Url.withPath u (Url.Segments segs'))) with (Url.hostname u).
  destruct (forceHostReplacement cfg && _) eqn:Hc; [| done].
  apply andb_true_iff in Hc as [Hforce _]. specialize (Hplain Hforce).
  unfold Url.setHostname, Url.hasOpaquePath. rewrite Hpath. cbn [Url.path Url.withPath].
  rewrite (hostnameToSet_scheme (Url.withPath u (Url.Segments segs')) u) by done.
  destruct (Url.hostnameToSet hostParse u (hostReplacement cfg)) as [h|];
    unfold Url.clearPort, Url.cannotHavePort, Url.isFile;
    cbn [Url.host Url.withHost Url.withPath Url.scheme];
    by destruct h as [|? ?] || destruct (Url.host u) as [[|? ?]|];
       try destruct (String.eqb (Url.scheme u) "file").
Qed.

Lemma hostFixStep_frame cfg u :
  Url.path (hostFixStep cfg u) = Url.path u
  ∧ Url.scheme (hostFixStep cfg u) = Url.scheme u
  ∧ (Url.host u ≠ None → Url.host (hostFixStep cfg u) ≠ None).
Proof.
  unfold hostFixStep. destruct (forceHostReplacement cfg && _); [| done].
  unfold Url.setHostname. destruct (Url.hasOpaquePath u).
  - unfold Url.clearPort. by destruct (Url.cannotHavePort u).
  - destruct (Url.hostnameToSet hostParse u (hostReplacement cfg)) as [h|];
      unfold Url.clearPort; by destruct (Url.cannotHavePort _).
Qed.

Lemma hostFixStep_clean cfg u : cleanUrl u → cleanUrl (hostFixStep cfg u).
Proof.
  destruct (hostFixStep_frame cfg u) as (Hpath & Hscheme & Hhost).
  unfold cleanUrl, Url.isSpecial, Url.isFile. rewrite Hpath, Hscheme.
  destruct (Url.path u) as [|segs]; [done |].
  intros [Hclean Hhead]. split; [done |].
  destruct segs; [| done]. destruct Hhead. split; [done | by apply Hhost].
Qed.

End Normalizer.

Section YearStep.

Variable cfg : InjectionConfig.

Local Abbreviation replacement := (yearPrefix cfg +:+ courseYearDigits cfg).

Lemma clean_slashFree special segs :
  Forall (λ s, cleanSegment special s = true) segs →
  Forall (λ s, Js.every (λ a, negb (Path.isSlash a)) s = true) segs.
Proof.
  intros Hclean. eapply Forall_impl; [exact Hclean |]. intros s Hs.
  destruct (cleanSegment_parts special s Hs) as (_ & Hsep & _).
  eapply every_impl; [| exact Hsep]. intros a Ha.
  apply negb_true_iff in Ha. unfold Url.isPathSeparator in Ha.
  apply orb_false_iff in Ha as [Ha _]. unfold Path.isSlash. by rewrite Ha.
Qed.

(** On a clean list path the year step installs the rewritten
    segments. *)
Lemma yearRewriteStep_segments u segs :
  applyYearRewrite cfg = true → YEAR_PATTERN replacement = true →
  cleanUrl u → Url.path u = Url.Segments segs →
  yearRewriteStep cfg u = Url.withPath u (Url.Segments (rewriteYear replacement segs))
  ∧ cleanUrl (Url.withPath u (Url.Segments (rewriteYear replacement segs))).
Proof.
  intros Happly Hshape Hclean Hpath. unfold cleanUrl in Hclean. rewrite Hpath in Hclean.
  destruct Hclean as [Hsegs Hhead].
  assert (Hsegs' : Forall (λ s, cleanSegment (Url.isSpecial u) s = true)
                     (rewriteYear replacement segs)).
  { apply rewriteYear_Forall; [by apply year_clean | done]. }
  split.
  - unfold yearRewriteStep, Url.setPathname, Url.hasOpaquePath, Url.pathname.
    rewrite Happly, Hpath. f_equal. f_equal.
    rewrite yearReplace_path by (by eapply clean_slashFree).
    destruct segs as [|a rest].
    + destruct Hhead as [Hspecial Hhost]. cbn. rewrite Hspecial.
      by rewrite bool_decide_eq_false_2.
    + destruct (rewriteYear_cons replacement a rest) as (rest' & Heq & _).
      rewrite Heq in Hsegs' |- *. by apply parsePath_clean.
  - unfold cleanUrl. cbn [Url.path Url.withPath].
    change (Url.isSpecial (Url.withPath u _)) with (Url.isSpecial u).
    change (Url.isFile (Url.withPath u _)) with (Url.isFile u).
    split; [done |]. destruct segs as [|a rest]; [done |].
    destruct (rewriteYear_cons replacement a rest) as (rest' & -> & _). done.
Qed.

Lemma yearRewriteStep_opaque u s :
  Url.path u = Url.Opaque s → yearRewriteStep cfg u = u.
Proof.
  intros Hpath. unfold yearRewriteStep, Url.setPathname, Url.hasOpaquePath.
  rewrite Hpath. by destruct (applyYearRewrite cfg).
Qed.

End YearStep.

(** C8, as the script has it.  With the year rewrite configured, and a
    replacement of the shape of a year, [normalizeUrl] replaces, in a path
    as the URL parser leaves it, the first segment of the shape
    [_?dddd] that follows a [course_builder] segment (in any case) and is
    itself followed by a slash, that is by a further segment; every other
    segment is kept, and a path with no such segment is unchanged.  So
    [/course_builder/2223/x] becomes [/course_builder/2425/x] with the
    prefix empty and [/course_builder/_2223/x] becomes
    [/course_builder/_2425/x] with the prefix [_]. *)
Theorem yearRewrite_first_followed_segment
  (R : Runtime) (cfg : InjectionConfig) (loc href : string)
  (target : Url.t) (segs : list string) :
  let replacement := yearPrefix cfg +:+ courseYearDigits cfg in
  applyYearRewrite cfg = true →
  YEAR_PATTERN replacement = true →
  newURL href (Some loc) = Some target →
  cleanUrl target →
  Url.path target = Url.Segments segs →
  ∃ fixed,
    normalizeUrl cfg loc href = Some fixed
    ∧ (∀ i, yearHit segs i → (∀ j, (j < i)%nat → ¬ yearHit segs j) →
            Url.path fixed = Url.Segments (<[S i := replacement]> segs))
    ∧ ((∀ i, ¬ yearHit segs i) → Url.path fixed = Url.Segments segs)
    ∧ yearReplace (yearConfig "" "2425") "/course_builder/2223/x" = "/course_builder/2425/x"
    ∧ yearReplace (yearConfig "_" "2425") "/course_builder/_2223/x"
      = "/course_builder/_2425/x"
    ∧ yearReplace (yearConfig "" "2425") "/Course_Builder/2223/x" = "/Course_Builder/2425/x"
    ∧ yearReplace (yearConfig "" "2425") "/courses/2223/1234/x" = "/courses/2223/1234/x".
Proof.
  intros replacement Happly Hshape Hparse Hclean Hpath.
  rewrite normalizeUrl_steps, Hparse. cbn [fmap option_fmap option_map].
  eexists. split; [reflexivity |].
  destruct (hostFixStep_frame cfg target) as (Hpath' & _ & _).
  rewrite Hpath in Hpath'.
  destruct (yearRewriteStep_segments cfg (hostFixStep cfg target) segs)
    as [-> _]; [done | done | by apply hostFixStep_clean | done |].
  cbn [Url.path Url.withPath]. split_and!; [| | done..].
  - intros i Hhit Hfirst. f_equal. by apply rewriteYear_first_hit.
  - intros Hnone. f_equal. by apply rewriteYear_no_hit.
Qed.

(** C8, witness: [/course_builder/2223/x] on the reference runtime. *)
Lemma yearRewrite_first_followed_segment_witness :
  let R := Reference.runtime in
  let href := "https://www.math.cuhk.edu.hk/course_builder/2223/x" in
  ∃ fixed,
    normalizeUrl (yearConfig "" "2425") href href = Some fixed
    ∧ Url.path fixed = Url.Segments ["course_builder"; "2425"; "x"].
Proof.
  intros R href.
  destruct (yearRewrite_first_followed_segment R (yearConfig "" "2425") href href
              (Url.mk "https" "" "" (Some "www.math.cuhk.edu.hk") None
                 (Url.Segments ["course_builder"; "2223"; "x"]) None None)
              ["course_builder"; "2223"; "x"])
    as (fixed & Hfixed & Hhit & _); [reflexivity | reflexivity | reflexivity | | reflexivity |].
  { split; [by repeat constructor | done]. }
  exists fixed. split; [exact Hfixed |].
  apply (Hhit 0%nat).
  - exists "course_builder", "2223". by split_and!; [..| eexists].
  - intros j Hj. lia.
Defined.

(** C8, counterexample: the year segment that ends the path, with no
    slash after it, follows the anchor and is not replaced; of two year
    segments that follow an anchor, only the first is replaced. *)
Lemma year_segment_at_end_not_rewritten :
  let R := Reference.runtime in
  let cfg := yearConfig "" "2425" in
  isAnchorSegment "course_builder" = true ∧ YEAR_PATTERN "2223" = true
  ∧ Url.pathname <$> normalizeUrl cfg "https://www.math.cuhk.edu.hk/"
                       "https://www.math.cuhk.edu.hk/course_builder/2223"
    = Some "/course_builder/2223"
  ∧ Url.pathname <$> normalizeUrl cfg "https://www.math.cuhk.edu.hk/"
                       "https://www.math.cuhk.edu.hk/course_builder/2223/course_builder/2223/x"
    = Some "/course_builder/2425/course_builder/2223/x".
Proof. by split_and!. Qed.

(** C7.  For every [href] that parses against the page URL, and every
    configuration whose year replacement (prefix plus digits) has the shape
    of a year and whose replacement host is a plain host name,
    [normalizeUrl] applied to the string form of its own result gives the
    same URL.  Two properties of the platform's URL parser are assumed of
    the URLs at hand: the parsed URL has a clean path (the parser encodes
    what needs encoding and resolves dot segments), and the result
    serialises to a string that parses back to it. *)
Theorem normalizeUrl_idempotent
  (R : Runtime) (cfg : InjectionConfig) (loc href : string) (target fixed : Url.t) :
  (applyYearRewrite cfg = true →
   YEAR_PATTERN (yearPrefix cfg +:+ courseYearDigits cfg) = true) →
  (forceHostReplacement cfg = true → plainHostInput (hostReplacement cfg) = true) →
  newURL href (Some loc) = Some target →
  cleanUrl target →
  normalizeUrl cfg loc href = Some fixed →
  newURL (Url.href fixed) (Some loc) = Some fixed →
  normalizeUrl cfg loc (Url.href fixed) = Some fixed.
Proof.
  intros Hshape Hplain Hparse Hclean Hfixed Hround.
  rewrite normalizeUrl_steps in Hfixed |- *. rewrite Hparse in Hfixed. rewrite Hround.
  cbn [fmap option_fmap option_map] in *. injection Hfixed as Hfixed. f_equal.
  set (t1 := hostFixStep cfg target) in *.
  assert (Hidem : hostFixStep cfg t1 = t1) by (by apply hostFixStep_idempotent).
  assert (Hclean1 : cleanUrl t1) by (by apply hostFixStep_clean).
  destruct (Url.path t1) as [s|segs] eqn:Hpath.
  - rewrite (yearRewriteStep_opaque cfg t1 s Hpath) in Hfixed. subst fixed.
    by rewrite Hidem, (yearRewriteStep_opaque cfg t1 s Hpath).
  - destruct (applyYearRewrite cfg) eqn:Happly.
    + specialize (Hshape eq_refl).
      destruct (yearRewriteStep_segments cfg t1 segs Happly Hshape Hclean1 Hpath)
        as [Hstep Hclean2].
      rewrite Hstep in Hfixed. subst fixed.
      rewrite (hostFixStep_withPath cfg t1 segs) by done. rewrite Hidem.
      destruct (yearRewriteStep_segments cfg
                  (Url.withPath t1 (Url.Segments
                     (rewriteYear (yearPrefix cfg +:+ courseYearDigits cfg) segs)))
                  (rewriteYear (yearPrefix cfg +:+ courseYearDigits cfg) segs)
                  Happly Hshape Hclean2 eq_refl) as [-> _].
      by rewrite rewriteYear_idempotent.
    + unfold yearRewriteStep in *. rewrite Happly in *. subst fixed. by rewrite Hidem.
Qed.

(** C7, witness: a link to the numeric address, in another year. *)
Lemma normalizeUrl_idempotent_witness :
  let R := Reference.runtime in
  let loc := "https://www.math.cuhk.edu.hk/course_builder/2425/MATH1010/" in
  let href := "http://137.189.49.33:8080/course_builder/2223/MATH1010/notes.pdf" in
  ∃ fixed,
    normalizeUrl bothRulesConfig loc href = Some fixed
    ∧ Url.href fixed = "http://www.math.cuhk.edu.hk/course_builder/_2425/MATH1010/notes.pdf"
    ∧ normalizeUrl bothRulesConfig loc (Url.href fixed) = Some fixed.
Proof.
  intros R loc href.
  eexists. split; [reflexivity |]. split; [reflexivity |].
  apply (normalizeUrl_idempotent R bothRulesConfig loc href
           (Url.mk "http" "" "" (Some "137.189.49.33") (Some "8080")
              (Url.Segments ["course_builder"; "2223"; "MATH1010"; "notes.pdf"])
              None None)).
  - reflexivity.
  - reflexivity.
  - reflexivity.
  - split; [by repeat constructor | done].
  - reflexivity.
  - reflexivity.
Defined.

(** * Further properties of the script *)

(** ** Folder names *)

Section FolderNames.

Lemma splitBy_app f s c t :
  f c = true →
  Js.splitBy f (s +:+ String c t) = Js.splitBy f s ++ Js.splitBy f t.
Proof.
  intros Hc. induction s as [|a s IH].
  - rewrite append_nil_l. simpl. by rewrite Hc.
  - rewrite append_cons. cbn [Js.splitBy]. rewrite IH.
    destruct (f a); [done |].
    pose proof (splitBy_nonempty f s) as Hne.
    by destruct (Js.splitBy f s).
Qed.

Lemma dropTrailingBy_all f s :
  Js.every f s = true → Js.dropTrailingBy f s = "".
Proof.
  induction s as [|a s IH]; [done |]. simpl.
  intros [Ha Hs]%andb_true_iff. by rewrite (IH Hs), Ha.
Qed.

Lemma dropTrailingBy_append f s t :
  Js.dropTrailingBy f t ≠ "" →
  Js.dropTrailingBy f (s +:+ t) = s +:+ Js.dropTrailingBy f t.
Proof.
  intros Ht. induction s as [|a s IH]; [done |].
  rewrite !append_cons. cbn [Js.dropTrailingBy]. rewrite IH.
  destruct (s +:+ Js.dropTrailingBy f t) eqn:E; [| done].
  by apply append_eq_nil in E as [_ ?].
Qed.

Lemma dropTrailingBy_slashes f s t :
  Js.every f t = true → Js.dropTrailingBy f (s +:+ t) = Js.dropTrailingBy f s.
Proof.
  intros Ht. induction s as [|a s IH].
  - rewrite append_nil_l. by apply dropTrailingBy_all.
  - rewrite append_cons. cbn [Js.dropTrailingBy]. by rewrite IH.
Qed.

Lemma dropTrailingBy_free f s :
  Js.every (λ a, negb (f a)) s = true → Js.dropTrailingBy f s = s.
Proof.
  induction s as [|a s IH]; [done |]. simpl.
  intros [Ha Hs]%andb_true_iff. apply negb_true_iff in Ha.
  rewrite (IH Hs), Ha. by destruct s.
Qed.

Lemma segment_kept seg :
  isSegment seg = true → Js.dropTrailingBy Path.isSlash seg = seg ∧ seg ≠ "".
Proof.
  unfold isSegment. intros [Hne Hfree]%andb_true_iff.
  split; [by apply dropTrailingBy_free | by apply truthy_true].
Qed.

Lemma segmentFromHref_segment seg slashes :
  isSegment seg = true → Js.every Path.isSlash slashes = true →
  segmentFromHref (seg +:+ slashes) = seg.
Proof.
  intros Hseg Hsl. destruct (segment_kept seg Hseg) as [Hkeep Hne].
  unfold segmentFromHref, Js.split.
  rewrite dropTrailingBy_slashes, Hkeep by done.
  rewrite splitBy_free; [done |].
  unfold isSegment in Hseg. by apply andb_true_iff in Hseg as [_ ?].
Qed.

Lemma segmentFromHref_under dir seg slashes :
  isSegment seg = true → Js.every Path.isSlash slashes = true →
  segmentFromHref (dir +:+ "/" +:+ seg +:+ slashes) = seg.
Proof.
  intros Hseg Hsl. destruct (segment_kept seg Hseg) as [Hkeep Hne].
  unfold segmentFromHref, Js.split.
  rewrite <- !append_assoc, dropTrailingBy_slashes by done.
  rewrite dropTrailingBy_append by (by rewrite Hkeep).
  rewrite Hkeep, append_assoc, append_cons, append_nil_l, splitBy_app by done.
  rewrite last_app, splitBy_free; [done |].
  unfold isSegment in Hseg. by apply andb_true_iff in Hseg as [_ ?].
Qed.

Lemma segmentFromHref_free href :
  Js.every (λ a, negb (Path.isSlash a)) (segmentFromHref href) = true.
Proof.
  unfold segmentFromHref, Js.split.
  pose proof (splitBy_every (λ a, Ascii.eqb a "/")
                (Js.dropTrailingBy Path.isSlash href)) as Hall.
  destruct (last _) as [s|] eqn:Hlast; [| done].
  apply last_Some_elem_of in Hlast. rewrite Forall_forall in Hall.
  by apply Hall.
Qed.

End FolderNames.

(** X1.  [segmentFromHref] returns the last segment of a reference, the
    slashes that end it left aside: the result never contains a slash; a
    name that ends the reference, alone or after a slash and followed by
    any number of slashes, is returned as it is; a reference made of
    slashes only, or empty, gives the empty string. *)
Theorem segmentFromHref_last_segment :
  (∀ href, Js.every (λ a, negb (Path.isSlash a)) (segmentFromHref href) = true)
  ∧ (∀ dir seg slashes,
       isSegment seg = true → Js.every Path.isSlash slashes = true →
       segmentFromHref (dir +:+ "/" +:+ seg +:+ slashes) = seg
       ∧ segmentFromHref (seg +:+ slashes) = seg)
  ∧ (∀ slashes, Js.every Path.isSlash slashes = true → segmentFromHref slashes = "").
Proof.
  split_and!.
  - apply segmentFromHref_free.
  - intros dir seg slashes Hseg Hsl.
    split; [by apply segmentFromHref_under | by apply segmentFromHref_segment].
  - intros slashes Hsl. unfold segmentFromHref.
    by rewrite dropTrailingBy_all.
Qed.

(** X1, witness: the folder of MATH1010, and a reference of slashes. *)
Lemma segmentFromHref_last_segment_witness :
  segmentFromHref "https://www.math.cuhk.edu.hk/course_builder/2223/MATH1010/" = "MATH1010"
  ∧ segmentFromHref "//" = "".
Proof.
  destruct segmentFromHref_last_segment as (_ & Hlast & Hnone).
  split.
  - exact (proj1 (Hlast "https://www.math.cuhk.edu.hk/course_builder/2223"
                        "MATH1010" "/" eq_refl eq_refl)).
  - exact (Hnone "//" eq_refl).
Defined.

(** ** Year names and the rules of a run *)

Section YearNames.

Lemma startsWith_underscore s :
  Js.startsWith s "_" = true ↔ ∃ rest, s = String "_" rest.
Proof.
  unfold Js.startsWith. destruct s as [|a s].
  - split; [done | by intros [? ?]].
  - rewrite prefix_cons. destruct (Ascii.eqb "_" a) eqn:Ha.
    + apply Ascii.eqb_eq in Ha as <-. split; [by eexists | by destruct s].
    + apply Ascii.eqb_neq in Ha. split; [done | intros [rest [= -> _]]; congruence].
Qed.

Lemma yearDigits_underscore rest : yearDigits (String "_" rest) = rest.
Proof. reflexivity. Qed.

Lemma yearDigits_plain s : Js.startsWith s "_" = false → yearDigits s = s.
Proof.
  intros Hs. destruct s as [|a s]; [done |].
  destruct (ascii_dec a "_") as [->|Hne].
  - by rewrite (proj2 (startsWith_underscore _)) in Hs by by eexists.
  - unfold yearDigits.
    destruct a as [[] [] [] [] [] [] [] []]; try reflexivity. congruence.
Qed.

Lemma normalizeYear_cases seg :
  (∃ rest, seg = String "_" rest ∧ normalizeYear seg = seg)
  ∨ (Js.startsWith seg "_" = false ∧ normalizeYear seg = String "_" seg).
Proof.
  unfold normalizeYear. destruct (Js.startsWith seg "_") eqn:Hs.
  - left. apply startsWith_underscore in Hs as [rest ->]. by exists rest.
  - right. by rewrite append_cons, append_nil_l.
Qed.

Lemma fourDigits_plain s rest :
  fourDigits s = Some rest → Js.startsWith s "_" = false.
Proof.
  destruct s as [|a s]; [done |]. destruct (Js.startsWith _ _) eqn:Hs; [| done].
  apply startsWith_underscore in Hs as [r [= -> ->]].
  simpl. by destruct r as [|? [|? [|? ?]]].
Qed.

Lemma YEAR_PATTERN_cases seg :
  YEAR_PATTERN seg = true →
  fourDigits (yearDigits seg) = Some "".
Proof.
  unfold YEAR_PATTERN, yearSegmentHere. destruct seg as [|c s]; [done |].
  destruct (Ascii.eqb c "_") eqn:Hc.
  - apply Ascii.eqb_eq in Hc as ->. rewrite yearDigits_underscore.
    by destruct (fourDigits s) as [[|]|].
  - destruct (fourDigits (String c s)) as [[|]|] eqn:Hd; try done.
    intros _. rewrite yearDigits_plain; [done |]. by eapply fourDigits_plain.
Qed.

Lemma YEAR_PATTERN_of_digits s :
  fourDigits s = Some "" → YEAR_PATTERN s = true ∧ YEAR_PATTERN (String "_" s) = true.
Proof.
  intros Hd. unfold YEAR_PATTERN, yearSegmentHere. split.
  - destruct s as [|c s]; [done |].
    destruct (Ascii.eqb c "_") eqn:Hc; [| by rewrite Hd].
    apply Ascii.eqb_eq in Hc as ->.
    apply fourDigits_plain in Hd. by rewrite (proj2 (startsWith_underscore _)) in Hd by by eexists.
  - by rewrite Ascii.eqb_refl, Hd.
Qed.

End YearNames.

(** X2.  [normalizeYear] and [yearDigits]: a normalized year name starts
    with an underscore, and normalizing it again changes nothing;
    [yearDigits] undoes the underscore that [normalizeYear] adds; for a
    folder name of the shape of a year, the digits are four digits and the
    normalized name is the underscore followed by them. *)
Theorem normalizeYear_yearDigits :
  (∀ seg, Js.startsWith (normalizeYear seg) "_" = true
          ∧ normalizeYear (normalizeYear seg) = normalizeYear seg
          ∧ yearDigits (normalizeYear seg) = yearDigits seg)
  ∧ (∀ seg, YEAR_PATTERN seg = true →
            fourDigits (yearDigits seg) = Some ""
            ∧ normalizeYear seg = "_" +:+ yearDigits seg
            ∧ YEAR_PATTERN (normalizeYear seg) = true).
Proof.
  split.
  - intros seg. destruct (normalizeYear_cases seg) as [(rest & -> & Hn)|[Hs Hn]].
    + rewrite !Hn. split_and!; [| done..].
      apply startsWith_underscore. by eexists.
    + rewrite Hn. split_and!.
      * apply startsWith_underscore. by eexists.
      * unfold normalizeYear. by rewrite (proj2 (startsWith_underscore _)) by by eexists.
      * by rewrite yearDigits_underscore, yearDigits_plain.
  - intros seg Hy. pose proof (YEAR_PATTERN_cases seg Hy) as Hd.
    split; [done |].
    destruct (normalizeYear_cases seg) as [(rest & -> & Hn)|[Hs Hn]].
    + rewrite Hn, yearDigits_underscore. by split.
    + rewrite Hn, yearDigits_plain by done. split; [done |].
      rewrite yearDigits_plain in Hd by done.
      by apply YEAR_PATTERN_of_digits.
Qed.

(** X2, witness: the folders [2223] and [_2223]. *)
Lemma normalizeYear_yearDigits_witness :
  normalizeYear "2223" = "_2223" ∧ normalizeYear "_2223" = "_2223"
  ∧ yearDigits (normalizeYear "2223") = "2223".
Proof.
  destruct normalizeYear_yearDigits as [Hall Hyear].
  destruct (Hyear "2223" eq_refl) as (_ & H1 & _).
  destruct (Hyear "_2223" eq_refl) as (_ & H2 & _).
  destruct (Hall "2223") as (_ & _ & H3).
  by split_and!.
Defined.

(** X3.  The rules [main] configures for the year folder [seg]: the year
    rewrite puts [seg] itself, prefix and digits, in place of the year
    segment; exactly one of the two rules is enabled, the host fix for the
    current year [2526] (named without underscore) and the year rewrite for
    every other folder; for a folder of the shape of a year the replacement
    has that shape again, and the replacement host is a plain host name,
    which is what makes [normalizeUrl] idempotent. *)
Theorem injectionConfig_rules (seg : string) (all : bool) :
  let cfg := injectionConfig seg all in
  yearPrefix cfg +:+ courseYearDigits cfg = seg
  ∧ applyYearRewrite cfg = negb (forceHostReplacement cfg)
  ∧ (forceHostReplacement cfg = true ↔ seg = CURRENT_YEAR)
  ∧ hostNeedingFix cfg = PMA_IP ∧ hostReplacement cfg = PMA_NAME
  ∧ plainHostInput (hostReplacement cfg) = true
  ∧ reportMissing cfg = all
  ∧ (YEAR_PATTERN seg = true →
     YEAR_PATTERN (yearPrefix cfg +:+ courseYearDigits cfg) = true).
Proof.
  intros cfg.
  assert (Hrep : yearPrefix cfg +:+ courseYearDigits cfg = seg).
  { unfold cfg, injectionConfig. cbn [yearPrefix courseYearDigits].
    destruct (normalizeYear_cases seg) as [(rest & -> & Hn)|[Hs Hn]].
    - rewrite Hn, (proj2 (startsWith_underscore _)) by by eexists.
      by rewrite yearDigits_underscore, append_cons, append_nil_l.
    - by rewrite Hn, Hs, yearDigits_underscore, append_nil_l. }
  split_and!; try done.
  - unfold cfg, injectionConfig. cbn [forceHostReplacement].
    rewrite andb_true_iff, negb_true_iff. split.
    + intros [Heq Hs]. apply String.eqb_eq in Heq. by rewrite yearDigits_plain in Heq.
    + intros ->. done.
  - intros Hy. by rewrite Hrep.
Qed.

(** X3, witness: the folder [2223], an earlier year. *)
Lemma injectionConfig_rules_witness :
  YEAR_PATTERN "2223" = true
  ∧ YEAR_PATTERN (yearPrefix (injectionConfig "2223" false)
                  +:+ courseYearDigits (injectionConfig "2223" false)) = true.
Proof.
  split; [reflexivity |].
  destruct (injectionConfig_rules "2223" false) as (_ & _ & _ & _ & _ & _ & _ & Hshape).
  exact (Hshape eq_refl).
Defined.

(** ** The listings of [main] *)

Section Listings.

Local Abbreviation current y := (yearDisplayLabel y = CURRENT_YEAR).

Lemma list_find_middle (before after : list YearChoice) y :
  Forall (λ x, ¬ current x) before → current y →
  list_find (λ x, current x) (before ++ y :: after) = Some (length before, y).
Proof.
  intros Hbefore Hy. apply list_find_Some. split_and!.
  - by apply list_lookup_middle.
  - done.
  - intros j x Hj Hlt. rewrite lookup_app_l in Hj by done.
    rewrite Forall_forall in Hbefore. apply Hbefore.
    by eapply list_elem_of_lookup_2.
Qed.

Lemma currentLast_middle before y after :
  Forall (λ x, ¬ current x) before → current y →
  currentLast (before ++ y :: after) = before ++ after ++ [y].
Proof.
  intros Hbefore Hy. unfold currentLast.
  rewrite (list_find_middle before after y Hbefore Hy).
  by rewrite delete_middle, <- app_assoc.
Qed.

Lemma currentLast_none ys :
  Forall (λ x, ¬ current x) ys → currentLast ys = ys.
Proof.
  intros Hall. unfold currentLast.
  by rewrite (proj2 (list_find_None (λ x, current x) ys) Hall).
Qed.

Lemma currentLast_split ys :
  Forall (λ x, ¬ current x) ys
  ∨ ∃ before y after, ys = before ++ y :: after
      ∧ Forall (λ x, ¬ current x) before ∧ current y.
Proof.
  induction ys as [|x ys IH]; [by left |].
  destruct (decide (current x)) as [Hx|Hx].
  - right. by exists [], x, ys.
  - destruct IH as [Hall|(before & y & after & -> & Hbefore & Hy)].
    + left. by constructor.
    + right. exists (x :: before), y, after. split_and!; [done | by constructor | done].
Qed.

Lemma currentLast_Permutation ys : currentLast ys ≡ₚ ys.
Proof.
  destruct (currentLast_split ys) as [Hall|(before & y & after & -> & Hb & Hy)].
  - by rewrite currentLast_none.
  - rewrite currentLast_middle by done.
    by rewrite (Permutation_app_comm after [y]).
Qed.

Lemma folders_sublist {T} (f : DirItem → T) (P : T → Prop) `{∀ x, Decision (P x)}
      (h : T → string) items :
  (∀ item, h (f item) = itemHref item) →
  map h (filter P (map f (filter (λ item, Is_true (isFolder item)) items)))
  `sublist_of` map itemHref items.
Proof.
  intros Hh. etrans; [apply fmap_sublist, sublist_filter |].
  rewrite <- list_fmap_compose.
  assert (h ∘ f <$> filter (λ item, Is_true (isFolder item)) items
          = itemHref <$> filter (λ item, Is_true (isFolder item)) items) as ->.
  { apply list_fmap_ext. intros _ item _. apply Hh. }
  apply fmap_sublist, sublist_filter.
Qed.

End Listings.

(** X4.  The year list is reordered so that the current year comes last:
    the first entry whose display label is [2526] is taken out and put at
    the end, the others keeping their order; a list without the current
    year is left as it is; in every case the result is a permutation of the
    list, and it ends with the current year when the list has it. *)
Theorem currentLast_moves_current :
  (∀ before y after,
     Forall (λ x, yearDisplayLabel x ≠ CURRENT_YEAR) before →
     yearDisplayLabel y = CURRENT_YEAR →
     currentLast (before ++ y :: after) = before ++ after ++ [y])
  ∧ (∀ ys, Forall (λ x, yearDisplayLabel x ≠ CURRENT_YEAR) ys → currentLast ys = ys)
  ∧ (∀ ys, currentLast ys ≡ₚ ys)
  ∧ (∀ ys y, y ∈ ys → yearDisplayLabel y = CURRENT_YEAR →
             ∃ z, last (currentLast ys) = Some z ∧ yearDisplayLabel z = CURRENT_YEAR).
Proof.
  split_and!.
  - apply currentLast_middle.
  - apply currentLast_none.
  - apply currentLast_Permutation.
  - intros ys y Hin Hy.
    destruct (currentLast_split ys) as [Hall|(before & z & after & -> & Hb & Hz)].
    + rewrite Forall_forall in Hall. by destruct (Hall y Hin).
    + exists z. rewrite currentLast_middle by done.
      by rewrite app_assoc, last_snoc.
Qed.

(** X4, witness: three years, the current one in the middle. *)
Lemma currentLast_moves_current_witness :
  let year s := {| yearLabel := s; yearDisplayLabel := s;
                   yearHref := PMA_CBROOT +:+ s +:+ "/"; seg := s |} in
  currentLast [year "2425"; year "2526"; year "2324"]
  = [year "2425"; year "2324"; year "2526"].
Proof.
  intros year. destruct currentLast_moves_current as (Hmove & _).
  apply (Hmove [year "2425"] (year "2526") [year "2324"]); [| reflexivity].
  by repeat constructor.
Defined.

(** X5.  What [main] offers.  Every year offered, in the reordered list,
    has a folder name of the shape of a year as its label, its four digits
    as display label and a link that ends in a slash; every course offered
    has a label of four letters and four digits, possibly followed by more,
    and a link that ends in a slash.  No link is offered that the page does
    not have.  The courses follow the order of the page.  So do the years
    before the reordering; the list offered is made of years in the order
    of the page, followed by the year moved to the end when there is a
    current one.  A course is named after the last segment of its link,
    and a year after the text of its anchor. *)
Theorem listings_offer_folders :
  (∀ items,
     Forall (λ y, YEAR_PATTERN (seg y) = true ∧ yearLabel y = seg y
                  ∧ yearDisplayLabel y = yearDigits (seg y)
                  ∧ fourDigits (yearDisplayLabel y) = Some ""
                  ∧ Js.endsWithChar (yearHref y) "/" = true)
            (currentLast (listedYears items))
     ∧ map yearHref (listedYears items) `sublist_of` map itemHref items
     ∧ (∀ y, y ∈ currentLast (listedYears items) → yearHref y ∈ map itemHref items)
     ∧ ∃ inOrder moved,
         currentLast (listedYears items) = inOrder ++ moved
         ∧ map yearHref inOrder `sublist_of` map itemHref items
         ∧ (moved = [] ∧ inOrder = listedYears items
                       ∧ Forall (λ y, yearDisplayLabel y ≠ CURRENT_YEAR) inOrder
            ∨ ∃ y, moved = [y] ∧ yearDisplayLabel y = CURRENT_YEAR))
  ∧ (∀ items,
       Forall (λ c, COURSE_PATTERN (label c) = true ∧ displayLabel c = label c
                    ∧ Js.endsWithChar (courseHref c) "/" = true)
              (listedCourses items)
       ∧ map courseHref (listedCourses items) `sublist_of` map itemHref items)
  ∧ (∀ item dir name slashes,
       itemHref item = dir +:+ "/" +:+ name +:+ slashes →
       isSegment name = true → Js.every Path.isSlash slashes = true →
       label (courseChoice item) = name)
  ∧ (∀ item name slashes,
       itemText item = name +:+ slashes →
       isSegment name = true → Js.every Path.isSlash slashes = true →
       seg (yearChoice item) = name).
Proof.
  split_and!.
  - intros items.
    assert (Hpage : map yearHref (listedYears items) `sublist_of` map itemHref items)
      by (by apply folders_sublist).
    split_and!; [| exact Hpage | |].
    + rewrite currentLast_Permutation. unfold listedYears.
      apply Forall_forall. intros y [Hy Hin]%list_elem_of_filter.
      apply list_elem_of_fmap in Hin as (item & -> & [Hfolder _]%list_elem_of_filter).
      apply Is_true_true in Hy. cbn [seg yearChoice] in Hy.
      cbn [seg yearLabel yearDisplayLabel yearHref yearChoice].
      split_and!; [done | done | done | by apply YEAR_PATTERN_cases | by apply Is_true_true].
    + intros y Hy. rewrite currentLast_Permutation in Hy.
      eapply elem_of_submseteq; [by apply list_elem_of_fmap_2 |].
      by apply sublist_submseteq.
    + destruct (currentLast_split (listedYears items))
        as [Hall|(before & y & after & Hsplit & Hbefore & Hy)].
      * exists (listedYears items), []. rewrite currentLast_none, app_nil_r by done.
        split_and!; [done | done |]. by left.
      * exists (before ++ after), [y].
        rewrite Hsplit, currentLast_middle, app_assoc by done.
        split_and!; [done | | right; by exists y].
        etrans; [| exact Hpage]. rewrite Hsplit. apply fmap_sublist.
        apply sublist_app; [done |]. by apply sublist_cons.
  - intros items. split; [| by apply folders_sublist].
    unfold listedCourses.
    apply Forall_forall. intros c [Hc Hin]%list_elem_of_filter.
    apply list_elem_of_fmap in Hin as (item & -> & [Hfolder _]%list_elem_of_filter).
    split_and!; [by apply Is_true_true | done | by apply Is_true_true].
  - intros item dir name slashes Hhref Hname Hsl.
    cbn [label courseChoice]. unfold courseSegment.
    rewrite Hhref, segmentFromHref_under by done.
    by rewrite (proj2 (truthy_true name)) by (by apply segment_kept).
  - intros item name slashes Htext Hname Hsl.
    cbn [seg yearChoice]. unfold yearSegment.
    destruct (segment_kept name Hname) as [Hkeep Hne].
    rewrite Htext, dropTrailingBy_slashes, Hkeep by done.
    by rewrite (proj2 (truthy_true name)).
Qed.

(** X5, witness: a year page with a parent link, two years and a file;
    the current year, listed first on the page, is offered last. *)
Lemma listings_offer_folders_witness :
  let item t h := {| itemText := t; itemHref := PMA_CBROOT +:+ h; itemRaw := h |} in
  let items := [item "Parent Directory" ""; item "2526/" "2526/";
                item "_2223/" "_2223/"; item "readme.txt" "readme.txt"] in
  map seg (currentLast (listedYears items)) = ["_2223"; "2526"]
  ∧ Forall (λ y, yearHref y ∈ map itemHref items) (currentLast (listedYears items))
  ∧ seg (yearChoice (item "_2223/" "_2223/")) = "_2223"
  ∧ label (courseChoice (item "MATH1010/" "2223/MATH1010/")) = "MATH1010".
Proof.
  intros item items.
  destruct listings_offer_folders as (Hyears & _ & Hcourse & Hyear).
  destruct (Hyears items) as (_ & _ & Hlinks & _).
  split_and!.
  - reflexivity.
  - apply Forall_forall. exact Hlinks.
  - by apply (Hyear (item "_2223/" "_2223/") "_2223" "/").
  - by apply (Hcourse (item "MATH1010/" "2223/MATH1010/")
                "https://www.math.cuhk.edu.hk/course_builder/2223" "MATH1010" "/").
Defined.

(** ** The prompts *)

Section Prompts.

Context `{Runtime}.

Lemma logged_cons line lines w :
  logged (line :: lines) w = logged lines (addConsole line w).
Proof. reflexivity. Qed.

Lemma logged_app lines1 lines2 w :
  logged (lines1 ++ lines2) w = logged lines2 (logged lines1 w).
Proof. unfold logged. by rewrite foldl_app. Qed.

Lemma log_then {A} line (k : Prog A) w :
  (log line;; k) w = k (addConsole line w).
Proof. reflexivity. Qed.

Lemma listFrom_logged {T} (displayLabelOf hrefOf : T → string) width items :
  ∀ idx w,
    listFrom displayLabelOf hrefOf width idx items w
    = (Return (),
       logged (imap (λ j item, choiceLine width (idx + j)
                                 (displayLabelOf item) (hrefOf item)) items) w).
Proof.
  induction items as [|item items IH]; intros idx w; [done |].
  cbn [listFrom]. rewrite log_then, IH, imap_cons, logged_cons, Nat.add_0_r.
  do 2 f_equal. apply imap_ext. intros j x _. simpl. f_equal. lia.
Qed.

Lemma listChoices_logged {T} (displayLabelOf hrefOf : T → string) items w :
  listChoices displayLabelOf hrefOf items w
  = (Return (), logged (choiceLines displayLabelOf hrefOf items) w).
Proof. unfold listChoices. by rewrite listFrom_logged. Qed.

Lemma promptYear_rejects yearChoices ans unread w :
  yearAnswer (length yearChoices) ans = None →
  promptYear yearChoices (ans :: unread) w
  = promptYear yearChoices unread (addConsole "Invalid choice. Try again." w).
Proof.
  unfold yearAnswer. intros Hans. cbn [promptYear].
  destruct (toInteger ans) as [n|]; cbn in Hans; [| done].
  by destruct (_ && _).
Qed.

Lemma promptYear_all_rejected yearChoices bad answers w :
  Forall (λ ans, yearAnswer (length yearChoices) ans = None) bad →
  promptYear yearChoices (bad ++ answers) w
  = promptYear yearChoices answers
      (logged (replicate (length bad) "Invalid choice. Try again.") w).
Proof.
  intros Hbad. revert w. induction Hbad as [|ans bad Hans _ IH]; intros w; [done |].
  cbn [app length replicate]. by rewrite promptYear_rejects, IH, logged_cons.
Qed.

Lemma elementAt_lookup {A} (xs : list A) i :
  0 ≤ i → elementAt xs i = xs !! Z.to_nat i.
Proof. intros Hi. unfold elementAt. by rewrite (proj2 (Z.ltb_ge i 0)). Qed.

Lemma promptYear_accepts yearChoices ans unread n :
  yearAnswer (length yearChoices) ans = Some n →
  ∃ y, yearChoices !! Z.to_nat (n - 1) = Some y
    ∧ ∀ w, promptYear yearChoices (ans :: unread) w
           = (Return (Answered (Some y) unread), w).
Proof.
  unfold yearAnswer. intros Hans. cbn [promptYear].
  destruct (toInteger ans) as [m|]; cbn in Hans; [| done].
  destruct (_ && _) eqn:Hrange; [| done]. injection Hans as ->.
  apply andb_true_iff in Hrange as [Hlo Hhi].
  destruct (lookup_lt_is_Some_2 yearChoices (Z.to_nat (n - 1))) as [y Hy]; [lia |].
  exists y. split; [done |]. intros w.
  by rewrite elementAt_lookup, Hy by lia.
Qed.

Lemma promptCourses_rejects courseChoices ans unread message w :
  rejection (length courseChoices) ans = Some message →
  promptCourses courseChoices (ans :: unread) w
  = promptCourses courseChoices unread (addConsole message w).
Proof.
  unfold rejection. intros Hans. cbn [promptCourses]. cbv zeta.
  destruct (String.eqb _ _); [done |].
  destruct (parseCourseSelection _ _); [| done].
  by injection Hans as <-.
Qed.

Lemma promptCourses_all_rejected courseChoices bad messages answers w :
  Forall2 (λ ans message, rejection (length courseChoices) ans = Some message)
          bad messages →
  promptCourses courseChoices (bad ++ answers) w
  = promptCourses courseChoices answers (logged messages w).
Proof.
  intros Hbad. revert w.
  induction Hbad as [|ans message bad messages Hans _ IH]; intros w; [done |].
  cbn [app]. by rewrite (promptCourses_rejects _ _ _ message), IH, logged_cons.
Qed.

(** What [parseCourseSelection] returns is increasing and in range. *)
Lemma parseCourseSelection_indices input max indices :
  parseCourseSelection input max = inr indices →
  StronglySorted Z.lt indices ∧ Forall (λ i, 0 ≤ i ≤ max - 1) indices.
Proof.
  unfold parseCourseSelection.
  destruct (Js.filterTruthy _) as [|chunk chunks]; [done |].
  destruct (selectChunks max [] (chunk :: chunks)) as [e|sel] eqn:Hsel; [done |].
  intros [= <-].
  destruct (selectChunks_invariant max _ [] sel (NoDup_nil_2) (Forall_nil_2 _) Hsel)
    as [Hnd Hin].
  split; [by apply sortNumbers_increasing |].
  apply Forall_forall. intros i Hi. apply (proj1 (sortNumbers_elem i sel)) in Hi.
  rewrite Forall_forall in Hin. by apply Hin.
Qed.

Lemma elementAt_cons {A} (x : A) xs i :
  1 ≤ i → elementAt (x :: xs) i = elementAt xs (i - 1).
Proof.
  intros Hi. rewrite !elementAt_lookup by lia.
  replace (Z.to_nat i) with (S (Z.to_nat (i - 1))) by lia. done.
Qed.

(** Increasing indices in range pick a sublist. *)
Lemma elementAt_sublist {A} (xs : list A) :
  ∀ indices,
    StronglySorted Z.lt indices →
    Forall (λ i, 0 ≤ i ≤ Z.of_nat (length xs) - 1) indices →
    ∃ chosen, map (elementAt xs) indices = map Some chosen
              ∧ chosen `sublist_of` xs ∧ length chosen = length indices.
Proof.
  induction xs as [|x xs IH]; intros indices Hsorted Hrange.
  - destruct indices as [|i indices]; [by exists [] |].
    inversion Hrange; subst. cbn [length] in *. lia.
  - assert (Hshift : ∀ l, StronglySorted Z.lt l →
              Forall (λ i, 1 ≤ i ≤ Z.of_nat (length (x :: xs)) - 1) l →
              ∃ chosen, map (elementAt (x :: xs)) l = map Some chosen
                        ∧ chosen `sublist_of` xs ∧ length chosen = length l).
    { intros l Hs Hr.
      destruct (IH (map (λ i, i - 1) l)) as (chosen & Hmap & Hsub & Hlen).
      - clear Hr. induction Hs as [|i l Hs IHs Hi]; [constructor |].
        cbn [map]. constructor; [done |].
        apply Forall_fmap. eapply Forall_impl; [exact Hi |]. simpl. lia.
      - apply Forall_fmap. eapply Forall_impl; [exact Hr |].
        cbn [length]. simpl. lia.
      - exists chosen. rewrite length_map in Hlen. split_and!; [| done..].
        rewrite <- Hmap, <- list_fmap_compose.
        apply Forall_fmap_ext_1. eapply Forall_impl; [exact Hr |].
        intros i [Hi _]. unfold compose. by apply elementAt_cons. }
    destruct indices as [|i indices]; [exists []; split_and!; [done | apply sublist_nil_l | done] |].
    inversion Hsorted as [|? ? Hs Hi]; subst.
    inversion Hrange as [|? ? Hi0 Hr]; subst.
    destruct (decide (i = 0)) as [->|Hne].
    + destruct (Hshift indices Hs) as (chosen & Hmap & Hsub & Hlen).
      { apply Forall_forall. intros j Hj. rewrite Forall_forall in Hi, Hr.
        specialize (Hi j Hj). specialize (Hr j Hj). lia. }
      exists (x :: chosen). cbn [map length]. rewrite Hmap, Hlen.
      split_and!; [done | by apply sublist_skip | done].
    + destruct (Hshift (i :: indices) Hsorted) as (chosen & Hmap & Hsub & Hlen).
      { apply Forall_forall. intros j Hj. rewrite Forall_forall in Hrange.
        specialize (Hrange j Hj). apply elem_of_cons in Hj as [->|Hj]; [lia |].
        rewrite Forall_forall in Hi. specialize (Hi j Hj). lia. }
      exists chosen. split_and!; [done | by apply sublist_cons | done].
Qed.

End Prompts.

(** X6.  [chooseYear] prints the heading and the list, then reads answers
    until one is an integer between 1 and the number of years: each answer
    before that one is answered with [Invalid choice. Try again.], and the
    year returned is the one listed under the number typed, never
    [undefined]; as long as no answer is acceptable the function keeps
    waiting. *)
Theorem chooseYear_first_valid (R : Runtime) (yearChoices : list YearChoice) (w : World) :
  let heading := String "010" "Select an academic year:" in
  let listing := choiceLines yearDisplayLabel yearHref yearChoices in
  let invalid := "Invalid choice. Try again." in
  (∀ bad ans unread n,
     Forall (λ a, yearAnswer (length yearChoices) a = None) bad →
     yearAnswer (length yearChoices) ans = Some n →
     ∃ y, yearChoices !! Z.to_nat (n - 1) = Some y
       ∧ chooseYear yearChoices (bad ++ ans :: unread) w
         = (Return (Answered (Some y) unread),
            logged (heading :: listing ++ replicate (length bad) invalid) w))
  ∧ (∀ answers,
       Forall (λ a, yearAnswer (length yearChoices) a = None) answers →
       chooseYear yearChoices answers w
       = (Return Waiting,
          logged (heading :: listing ++ replicate (length answers) invalid) w)).
Proof.
  intros heading listing invalid. split.
  - intros bad ans unread n Hbad Hans.
    destruct (promptYear_accepts yearChoices ans unread n Hans) as (y & Hy & Hrun).
    exists y. split; [done |].
    unfold chooseYear. rewrite log_then.
    rewrite (bind_return _ _ _ () _ (listChoices_logged _ _ _ _)).
    rewrite promptYear_all_rejected, Hrun by done.
    by rewrite logged_cons, logged_app.
  - intros answers Hbad.
    unfold chooseYear. rewrite log_then.
    rewrite (bind_return _ _ _ () _ (listChoices_logged _ _ _ _)).
    rewrite <- (app_nil_r answers) at 1.
    rewrite promptYear_all_rejected by done.
    by rewrite logged_cons, logged_app.
Qed.

(** X6, witness: two years listed; the answers [0] and [x] are refused,
    the answer [2] is taken. *)
Lemma chooseYear_first_valid_witness :
  let R := Reference.runtime in
  let year s := {| yearLabel := s; yearDisplayLabel := s;
                   yearHref := PMA_CBROOT +:+ s +:+ "/"; seg := s |} in
  ∃ w', chooseYear [year "2425"; year "2526"] ["0"; "x"; "2"; "1"] Scenario.emptyWorld
        = (Return (Answered (Some (year "2526")) ["1"]), w')
        ∧ console w' = [ String "010" "Select an academic year:";
                         "[1] 2425 (https://www.math.cuhk.edu.hk/course_builder/2425/)";
                         "[2] 2526 (https://www.math.cuhk.edu.hk/course_builder/2526/)";
                         "Invalid choice. Try again."; "Invalid choice. Try again." ].
Proof.
  intros R year.
  destruct (chooseYear_first_valid R [year "2425"; year "2526"] Scenario.emptyWorld)
    as [Hfirst _].
  destruct (Hfirst ["0"; "x"] "2" ["1"] 2) as (y & Hy & Hrun);
    [by repeat constructor | reflexivity |].
  injection Hy as <-. eexists. split; [exact Hrun | reflexivity].
Defined.

(** X7.  [chooseCourses] reads answers until one is [-1] or a selection
    that [parseCourseSelection] accepts, printing the message of the error
    for each answer before that one.  The answer [-1] selects every course
    listed.  A selection gives the courses listed under the numbers typed,
    none of them [undefined], each once and in the order of the listing,
    however the numbers were ordered or repeated. *)
Theorem chooseCourses_selects_sublist
  (R : Runtime) (courseChoices : list CourseChoice) (w : World) :
  let heading := String "010" "Select course(s):" in
  let listing := choiceLines displayLabel courseHref courseChoices in
  let rejected bad messages :=
    Forall2 (λ a message, rejection (length courseChoices) a = Some message)
            bad messages in
  (∀ bad messages ans unread,
     rejected bad messages → Js.trim ans = "-1" →
     chooseCourses courseChoices (bad ++ ans :: unread) w
     = (Return (Answered {| courses := map Some courseChoices; allSelected := true |}
                         unread),
        logged (heading :: listing ++ messages
                ++ ["> Downloading ALL courses in this year." +:+ String "010" ""]) w))
  ∧ (∀ bad messages ans unread indices,
       rejected bad messages → Js.trim ans ≠ "-1" →
       parseCourseSelection (Js.trim ans) (Z.of_nat (length courseChoices)) = inr indices →
       ∃ chosen,
         map (elementAt courseChoices) indices = map Some chosen
         ∧ chosen `sublist_of` courseChoices
         ∧ length chosen = length indices
         ∧ chooseCourses courseChoices (bad ++ ans :: unread) w
           = (Return (Answered {| courses := map Some chosen; allSelected := false |}
                               unread),
              logged (heading :: listing ++ messages) w)).
Proof.
  intros heading listing rejected. split.
  - intros bad messages ans unread Hbad Hall.
    unfold chooseCourses. rewrite log_then.
    rewrite (bind_return _ _ _ () _ (listChoices_logged _ _ _ _)).
    rewrite (promptCourses_all_rejected _ _ messages) by done.
    cbn [promptCourses]. cbv zeta. rewrite Hall, String.eqb_refl, log_then.
    by rewrite logged_cons, !logged_app.
  - intros bad messages ans unread indices Hbad Hnot Hparse.
    destruct (parseCourseSelection_indices _ _ _ Hparse) as [Hsorted Hrange].
    destruct (elementAt_sublist courseChoices indices Hsorted Hrange)
      as (chosen & Hmap & Hsub & Hlen).
    exists chosen. split_and!; [done..|].
    unfold chooseCourses. rewrite log_then.
    rewrite (bind_return _ _ _ () _ (listChoices_logged _ _ _ _)).
    rewrite (promptCourses_all_rejected _ _ messages) by done.
    cbn [promptCourses]. cbv zeta.
    rewrite (proj2 (String.eqb_neq _ _) Hnot), Hparse, Hmap.
    by rewrite logged_cons, logged_app.
Qed.

(** X7, witness: three courses listed; the answer [4] is refused, the
    answer [3, 1] selects the first and the third course. *)
Lemma chooseCourses_selects_sublist_witness :
  let R := Reference.runtime in
  let course s := {| label := s; displayLabel := s;
                     courseHref := PMA_CBROOT +:+ "2223/" +:+ s +:+ "/" |} in
  let listed := [course "MATH1010"; course "MATH1510"; course "MATH2020"] in
  rejection (length listed) "4"
  = Some ("Invalid selection " +:+ String "034" "4" +:+ String "034" " (must be within 1-3).")
  ∧ ∃ w', chooseCourses listed ["4"; "3, 1"] Scenario.emptyWorld
          = (Return (Answered {| courses := [Some (course "MATH1010");
                                             Some (course "MATH2020")];
                                 allSelected := false |} []), w').
Proof.
  intros R course listed. split; [reflexivity |].
  destruct (chooseCourses_selects_sublist R listed Scenario.emptyWorld) as [_ Hsel].
  destruct (Hsel ["4"]
              ["Invalid selection " +:+ String "034" "4"
               +:+ String "034" " (must be within 1-3)."]
              "3, 1" [] [0; 2]) as (chosen & Hmap & _ & _ & Hrun).
  - constructor; [reflexivity | constructor].
  - done.
  - reflexivity.
  - change (map (elementAt listed) [0; 2])
      with (map Some [course "MATH1010"; course "MATH2020"]) in Hmap.
    apply (inj (fmap Some)) in Hmap. rewrite <- Hmap in Hrun.
    eexists. exact Hrun.
Defined.

(** ** Retries, whatever their number *)

Section Attempts.

Context `{Environment} {T : Type} (fn : Document → T).

Local Abbreviation again := (λ w, addConsole retryNotice (addEvaluation w)).

Lemma again_evaluations k w :
  evaluations (Nat.iter k again w) = (evaluations w + k)%nat.
Proof. induction k as [|k IH]; simpl; [lia | rewrite IH; lia]. Qed.

Lemma again_console k w :
  console (Nat.iter k again w) = console w ++ replicate k retryNotice.
Proof.
  induction k as [|k IH]; [by rewrite app_nil_r |].
  rewrite replicate_S_end, app_assoc, <- IH. reflexivity.
Qed.

Lemma retryLoop_attempts retries remaining :
  ∀ attempt w,
    (attempt + remaining = retries)%nat → (0 < remaining)%nat →
    ∃ k, (1 ≤ k ≤ remaining)%nat
      ∧ (∀ j, (j < k - 1)%nat →
              ∃ m, evaluation (evaluations w + j) = inl m ∧ destroyed m = true)
      ∧ (∀ m, evaluation (evaluations w + (k - 1)) = inl m → destroyed m = true →
              k = remaining)
      ∧ retryLoop fn retries remaining attempt w
        = (match evaluation (evaluations w + (k - 1)) with
           | inr doc => Return (fn doc)
           | inl m => Throw m
           end,
           addEvaluation (Nat.iter (k - 1) again w)).
Proof.
  induction remaining as [|remaining IH]; intros attempt w Hsum Hpos; [lia |].
  destruct (evaluation (evaluations w)) as [m|doc] eqn:He.
  - destruct (destroyed m) eqn:Hd.
    + destruct (decide (attempt = (retries - 1)%nat)) as [->|Hne].
      * exists 1%nat. cbn [Nat.sub Nat.iter]. rewrite Nat.add_0_r, He.
        split_and!; [lia | lia | intros; lia | intros; lia |].
        by apply retryLoop_last.
      * destruct (IH (S attempt) (again w)) as (k & Hk & Hbefore & Hstop & Hrun);
          [lia | lia |].
        cbn [evaluations addConsole addEvaluation] in Hbefore, Hstop, Hrun.
        exists (S k). replace (S k - 1)%nat with (S (k - 1)) by lia.
        split_and!.
        -- lia.
        -- lia.
        -- intros j Hj. destruct j as [|j].
           ++ exists m. by rewrite Nat.add_0_r.
           ++ destruct (Hbefore j) as (mj & Hmj & Hdj); [lia |].
              exists mj. by rewrite <- Nat.add_succ_comm.
        -- intros mk Hmk Hdk. rewrite <- Nat.add_succ_comm in Hmk.
           by rewrite (Hstop mk Hmk Hdk).
        -- rewrite (retryLoop_retry fn retries remaining attempt w m He Hd Hne).
           rewrite Hrun, <- Nat.add_succ_comm. by rewrite Nat.iter_succ_r.
    + exists 1%nat. cbn [Nat.sub Nat.iter]. rewrite Nat.add_0_r, He.
      split_and!; [lia | lia | intros; lia | intros; congruence |].
      by apply retryLoop_fatal.
  - exists 1%nat. cbn [Nat.sub Nat.iter]. rewrite Nat.add_0_r, He.
    split_and!; [lia | lia | intros; lia | intros; congruence |].
    by apply retryLoop_success.
Qed.

End Attempts.

(** X8.  [evaluateWithRetry], for any number of [retries].  With no retry
    allowed it throws [Evaluation retries exceeded] without evaluating.
    Otherwise it evaluates [k] times, [k] between 1 and [retries]: the
    first [k - 1] evaluations fail with the transient signature and are
    each followed by the retry notice, and the outcome is that of the
    [k]-th evaluation, its value or its error; it stops before the last
    attempt only on a value or on an error without the signature. *)
Theorem evaluateWithRetry_attempts
  (E : Environment) (T : Type) (fn : Document → T) (retries : nat) (w : World) :
  let n := evaluations w in
  (retries = 0%nat →
   evaluateWithRetry fn retries w = (Throw "Evaluation retries exceeded", w))
  ∧ ((0 < retries)%nat →
     ∃ k w',
       (1 ≤ k ≤ retries)%nat
       ∧ (∀ j, (j < k - 1)%nat → ∃ m, evaluation (n + j)%nat = inl m ∧ destroyed m = true)
       ∧ (∀ m, evaluation (n + (k - 1))%nat = inl m → destroyed m = true → k = retries)
       ∧ evaluateWithRetry fn retries w
         = (match evaluation (n + (k - 1))%nat with
            | inr doc => Return (fn doc)
            | inl m => Throw m
            end, w')
       ∧ evaluations w' = (n + k)%nat
       ∧ console w' = console w ++ replicate (k - 1) retryNotice
       ∧ disk w' = disk w ∧ requests w' = requests w
       ∧ navigations w' = navigations w ∧ missingLog w' = missingLog w).
Proof.
  intros n. split.
  - intros ->. reflexivity.
  - intros Hpos. unfold evaluateWithRetry.
    destruct (retryLoop_attempts fn retries retries 0 w) as (k & Hk & Hbefore & Hstop & Hrun);
      [lia | done |].
    exists k, (addEvaluation (Nat.iter (k - 1)
                                (λ w, addConsole retryNotice (addEvaluation w)) w)).
    split_and!; [lia | lia | done | done | done | | | | | |].
    + cbn [evaluations addEvaluation]. rewrite again_evaluations. unfold n. lia.
    + cbn [console addEvaluation]. by rewrite again_console.
    + cbn [disk addEvaluation]. generalize (k - 1)%nat. intros j. by induction j.
    + cbn [requests addEvaluation]. generalize (k - 1)%nat. intros j. by induction j.
    + cbn [navigations addEvaluation]. generalize (k - 1)%nat. intros j. by induction j.
    + cbn [missingLog addEvaluation]. generalize (k - 1)%nat. intros j. by induction j.
Qed.

(** X8, witness: five retries allowed, on a page that reloads itself
    during the first three evaluations. *)
Lemma evaluateWithRetry_attempts_witness :
  let E := Scenario.flaky 3 Scenario.coursePage "" in
  ∃ w', @evaluateWithRetry E _ location 5 Scenario.emptyWorld
        = (Return Scenario.pageUrl, w')
        ∧ evaluations w' = 4%nat
        ∧ console w' = [retryNotice; retryNotice; retryNotice].
Proof.
  intros E.
  destruct (evaluateWithRetry_attempts E _ location 5 Scenario.emptyWorld) as [_ Hrun].
  destruct Hrun as (k & w' & Hk & Hbefore & Hstop & Hrun & Hev & Hco & _); [lia |].
  assert (k = 4%nat) as ->.
  { destruct (decide (k ≤ 3)%nat) as [Hle|Hgt].
    - assert (Hlast : @evaluation E (0 + (k - 1)) = inl Scenario.contextDestroyed).
      { destruct k as [|[|[|[|k]]]]; try reflexivity; lia. }
      specialize (Hstop _ Hlast eq_refl). lia.
    - destruct (decide (k = 4%nat)) as [|Hne]; [done |].
      destruct (Hbefore 3%nat) as (m & Hm & _); [lia |]. discriminate Hm. }
  exists w'. split_and!; [exact Hrun | exact Hev | exact Hco].
Defined.

(** ** Segments of a path and the directory of the page *)

Section Segments.

Local Abbreviation segment s := (isSegment s = true).

Lemma segment_free s :
  segment s → Js.every (λ a, negb (Ascii.eqb a "/")) s = true.
Proof. unfold isSegment. by intros [_ ?]%andb_true_iff. Qed.

Lemma filterTruthy_segments segs :
  Forall (λ s, segment s) segs → Js.filterTruthy segs = segs.
Proof.
  intros Hall. unfold Js.filterTruthy. induction Hall as [|s segs Hs _ IH]; [done |].
  rewrite filter_cons_True, IH; [done |].
  apply Is_true_true. unfold isSegment in Hs. by apply andb_true_iff in Hs as [? _].
Qed.

(** A joined list of segments begins and ends with a character that is
    not a slash. *)
Lemma join_segments_trimmed segs :
  segs ≠ [] → Forall (λ s, segment s) segs →
  Js.dropLeadingBy Path.isSlash (Js.join "/" segs) = Js.join "/" segs
  ∧ Js.dropTrailingBy Path.isSlash (Js.join "/" segs) = Js.join "/" segs.
Proof.
  intros Hne Hall. split.
  - destruct Hall as [|s segs Hs _]; [done |].
    destruct (segment_head s Hs) as (c & rest & -> & Hc).
    destruct (join_head "/" (String c rest) segs c rest eq_refl) as [rest' ->].
    simpl. unfold Path.isSlash. by rewrite (proj2 (Ascii.eqb_neq c "/") Hc).
  - destruct segs as [|s segs _] using rev_ind; [done |].
    apply Forall_app in Hall as [_ Hs]. inversion Hs as [|? ? Hseg _]; subst.
    destruct (segment_kept s Hseg) as [Hkeep Hnonempty].
    destruct segs as [|s0 segs].
    + done.
    + rewrite join_snoc by done. rewrite <- append_assoc.
      rewrite dropTrailingBy_append; rewrite Hkeep; done.
Qed.

Lemma dropLeadingBy_every f s : Js.every f s = true → Js.dropLeadingBy f s = "".
Proof.
  induction s as [|a s IH]; [done |]. simpl.
  intros [Ha Hs]%andb_true_iff. rewrite Ha. by apply IH.
Qed.

Lemma splitSegments_join segs lead trail :
  Forall (λ s, segment s) segs →
  Js.every Path.isSlash lead = true → Js.every Path.isSlash trail = true →
  splitSegments (lead +:+ Js.join "/" segs +:+ trail) = segs.
Proof.
  intros Hall Hlead Htrail. unfold splitSegments, Js.split.
  destruct (decide (segs = [])) as [->|Hne].
  - cbn [Js.join String.concat]. rewrite append_nil_l.
    rewrite dropLeadingBy_every by (by rewrite every_append, Hlead, Htrail).
    done.
  - destruct (join_segments_trimmed segs Hne Hall) as [Hl Ht].
    assert (Hhead : ∃ c rest, Js.join "/" segs +:+ trail = String c rest
                              ∧ Path.isSlash c = false).
    { destruct Hall as [|s segs Hs _]; [done |].
      destruct (segment_head s Hs) as (c & rest & -> & Hc).
      destruct (join_head "/" (String c rest) segs c rest eq_refl) as [rest' ->].
      exists c, (rest' +:+ trail). split; [done |].
      unfold Path.isSlash. by apply Ascii.eqb_neq. }
    destruct Hhead as (c & rest & Hjoin & Hc).
    rewrite (dropLeadingBy_all _ lead _ Hlead) by (by rewrite Hjoin).
    rewrite dropTrailingBy_slashes, Ht by done.
    rewrite (splitBy_join _ "/") by
      first [done | eapply Forall_impl; [exact Hall | apply segment_free]].
    by apply filterTruthy_segments.
Qed.

Lemma dropLeadingBy_cut f s :
  ∃ lead, Js.every f lead = true ∧ s = lead +:+ Js.dropLeadingBy f s.
Proof.
  induction s as [|a s (lead & Hlead & IH)]; [by exists "" |].
  simpl. destruct (f a) eqn:Ha.
  - exists (String a lead). split; [simpl; by rewrite Ha | by rewrite append_cons, <- IH].
  - by exists "".
Qed.

Lemma dropTrailingBy_cut f s :
  ∃ trail, Js.every f trail = true ∧ s = Js.dropTrailingBy f s +:+ trail.
Proof.
  induction s as [|a s (trail & Htrail & IH)]; [by exists "" |].
  cbn [Js.dropTrailingBy]. destruct (Js.dropTrailingBy f s) as [|b r] eqn:E.
  - rewrite append_nil_l in IH. subst s. destruct (f a) eqn:Ha.
    + exists (String a trail). split; [simpl; by rewrite Ha | done].
    + by exists trail.
  - exists trail. split; [done |]. by rewrite append_cons, <- IH.
Qed.

Lemma filterTruthy_split_lead lead s :
  Js.every Path.isSlash lead = true →
  Js.filterTruthy (Js.split "/" (lead +:+ s)) = Js.filterTruthy (Js.split "/" s).
Proof.
  intros Hlead. induction lead as [|a lead IH]; [done |].
  simpl in Hlead. apply andb_true_iff in Hlead as [Ha Hlead].
  rewrite append_cons. unfold Js.split in *. cbn [Js.splitBy].
  unfold Path.isSlash in Ha. rewrite Ha.
  unfold Js.filterTruthy in *. rewrite filter_cons_False by (simpl; tauto).
  by apply IH.
Qed.

Lemma filterTruthy_split_slash s t :
  Js.filterTruthy (Js.split "/" (s +:+ "/" +:+ t))
  = Js.filterTruthy (Js.split "/" s) ++ Js.filterTruthy (Js.split "/" t).
Proof.
  unfold Js.split. rewrite append_cons, append_nil_l, splitBy_app by done.
  unfold Js.filterTruthy. by rewrite filter_app.
Qed.

Lemma filterTruthy_split_trail s trail :
  Js.every Path.isSlash trail = true →
  Js.filterTruthy (Js.split "/" (s +:+ trail)) = Js.filterTruthy (Js.split "/" s).
Proof.
  intros Htrail. destruct trail as [|a trail]; [by rewrite append_nil_r |].
  simpl in Htrail. apply andb_true_iff in Htrail as [Ha Htrail].
  apply Ascii.eqb_eq in Ha as ->.
  change (String "/" trail) with ("/" +:+ trail).
  rewrite filterTruthy_split_slash.
  rewrite <- (append_nil_r trail), (filterTruthy_split_lead trail "" Htrail).
  by rewrite app_nil_r.
Qed.

Lemma splitSegments_filter pathname :
  splitSegments pathname = Js.filterTruthy (Js.split "/" pathname).
Proof.
  unfold splitSegments.
  destruct (dropLeadingBy_cut Path.isSlash pathname) as (lead & Hlead & Hp).
  destruct (dropTrailingBy_cut Path.isSlash (Js.dropLeadingBy Path.isSlash pathname))
    as (trail & Htrail & Hq).
  rewrite Hp at 2. rewrite filterTruthy_split_lead by done.
  rewrite Hq at 2. by rewrite filterTruthy_split_trail.
Qed.

Lemma endsWithChar_append s t c :
  t ≠ "" → Js.endsWithChar (s +:+ t) c = Js.endsWithChar t c.
Proof.
  intros Ht. induction s as [|a s IH]; [done |].
  rewrite append_cons. cbn [Js.endsWithChar]. rewrite IH.
  destruct (s +:+ t) eqn:E; [| done]. by apply append_eq_nil in E as [_ ?].
Qed.

Lemma endsWithChar_segment s :
  segment s → Js.endsWithChar s "/" = false.
Proof.
  intros Hs. apply segment_free in Hs.
  induction s as [|a s IH]; [done |]. simpl in Hs.
  apply andb_true_iff in Hs as [Ha Hs]. cbn [Js.endsWithChar].
  destruct s; [by apply negb_true_iff | by apply IH].
Qed.

(** The directory of a page whose path ends in a file name. *)
Lemma baseDir_file dir name :
  segment name →
  baseDir (dir +:+ "/" +:+ name) = dir +:+ "//".
Proof.
  intros Hname. destruct (segment_kept name Hname) as [_ Hne].
  unfold baseDir.
  rewrite <- append_assoc, endsWithChar_append, (endsWithChar_segment name) by done.
  assert (Js.truthy ((dir +:+ "/") +:+ name) = true) as ->.
  { apply truthy_true. intros E. by apply append_eq_nil in E as [_ ?]. }
  rewrite (dropTrailingBy_slashes (λ a, negb (Path.isSlash a))) by (by apply segment_free).
  rewrite dropTrailingBy_append by done.
  by rewrite !append_assoc.
Qed.

End Segments.

(** X9.  [splitSegments] and the base directory.  The segments of a path
    are never empty and contain no slash; they are the non-empty pieces
    between the slashes, so that slashes that lead, trail or repeat do not
    matter, and the segments of two paths put together with a slash are
    those of the first followed by those of the second; splitting undoes
    joining; the base directory of a page
    whose path ends in a slash is that path, and the base directory of a
    page whose path ends in a file name has the segments of the path but
    the last. *)
Theorem splitSegments_round_trip :
  (∀ pathname, Forall (λ s, isSegment s = true) (splitSegments pathname))
  ∧ (∀ pathname, splitSegments pathname = Js.filterTruthy (Js.split "/" pathname))
  ∧ (∀ first second,
       splitSegments (first +:+ "/" +:+ second)
       = splitSegments first ++ splitSegments second)
  ∧ (∀ segs lead trail,
       Forall (λ s, isSegment s = true) segs →
       Js.every Path.isSlash lead = true → Js.every Path.isSlash trail = true →
       splitSegments (lead +:+ Js.join "/" segs +:+ trail) = segs)
  ∧ (∀ pathname, Js.endsWithChar pathname "/" = true → baseDir pathname = pathname)
  ∧ (∀ segs name,
       Forall (λ s, isSegment s = true) segs → isSegment name = true →
       splitSegments (baseDir ("/" +:+ Js.join "/" (segs ++ [name]))) = segs)
  ∧ baseDir "" = "".
Proof.
  split_and!.
  - apply splitSegments_segments.
  - apply splitSegments_filter.
  - intros first second. rewrite !splitSegments_filter.
    apply filterTruthy_split_slash.
  - apply splitSegments_join.
  - intros pathname Hend. unfold baseDir. by rewrite Hend.
  - intros segs name Hsegs Hname.
    destruct (decide (segs = [])) as [->|Hne].
    + cbn [app Js.join String.concat].
      rewrite <- (append_nil_l ("/" +:+ name)), baseDir_file by done.
      reflexivity.
    + rewrite join_snoc by done.
      rewrite <- !append_assoc, (append_assoc _ "/" name), baseDir_file by done.
      rewrite append_assoc.
      by apply (splitSegments_join segs "/" "//").
  - reflexivity.
Qed.

(** X9, witness: the page [/course_builder/2223/MATH1010/index.html]. *)
Lemma splitSegments_round_trip_witness :
  splitSegments (baseDir "/course_builder/2223/MATH1010/index.html")
  = ["course_builder"; "2223"; "MATH1010"]
  ∧ splitSegments "//course_builder/2223/" = ["course_builder"; "2223"].
Proof.
  destruct splitSegments_round_trip as (_ & _ & _ & Hjoin & _ & Hbase & _).
  split.
  - by apply (Hbase ["course_builder"; "2223"; "MATH1010"] "index.html");
      repeat constructor.
  - exact (Hjoin ["course_builder"; "2223"] "//" "/" ltac:(by repeat constructor)
                 eq_refl eq_refl).
Defined.

(** ** Where a relative reference leads *)

Section Follow.

Local Abbreviation name s := (isName s = true).

Lemma name_not_dotdot s : name s → String.eqb s ".." = false.
Proof.
  unfold isName. intros [_ Hd]%andb_true_iff. by apply negb_true_iff.
Qed.

Lemma name_segment s : name s → isSegment s = true.
Proof.
  unfold isName. intros [[Hs _]%andb_true_iff _]%andb_true_iff. done.
Qed.

(** Each [..] leaves the directory entered last. *)
Lemma normalizeSegments_leave tops stack rest :
  Forall (λ s, name s) tops →
  Path.normalizeSegments false (tops ++ stack) (replicate (length tops) ".." ++ rest)
  = Path.normalizeSegments false stack rest.
Proof.
  intros Htops. induction Htops as [|top tops Htop _ IH]; [done |].
  cbn [length replicate app Path.normalizeSegments String.eqb Ascii.eqb Bool.eqb orb].
  change (String.eqb ".." "..") with true. cbv iota.
  by rewrite (name_not_dotdot top Htop).
Qed.

Lemma follow_names base names :
  Forall (λ s, name s) base → Forall (λ s, name s) names →
  Path.normalizeSegments false (rev base) names = base ++ names.
Proof.
  intros Hbase Hnames.
  rewrite <- (app_nil_r names) at 1. rewrite normalizeSegments_push by done.
  cbn [Path.normalizeSegments]. by rewrite rev_app_distr, !rev_involutive.
Qed.

End Follow.

(** X10.  The relative reference that [toRelative] computes leads from the
    base directory to the target: for a base and a target made of names,
    following the result from the base (a name enters a directory, [..]
    leaves it, [.] stays) ends on the segments of the target. *)
Theorem toRelative_leads_to_target (base target : list string) :
  Forall (λ s, isName s = true) base →
  Forall (λ s, isName s = true) target →
  follow base (toRelativeParts base target) = target.
Proof.
  intros Hbase Htarget.
  pose proof (commonPrefix_longest base target) as [Htake _].
  pose proof (commonPrefix_le base target) as [Hkb Hkt].
  set (k := commonPrefix base target) in *.
  unfold follow, toRelativeParts. fold k. cbv zeta.
  rewrite map_const_replicate.
  set (up := replicate (length (drop k base)) "..").
  assert (Hsegs : Forall (λ s, isSegment s = true) (up ++ drop k target)).
  { apply Forall_app. split.
    - apply Forall_forall. intros s [-> _]%elem_of_replicate. reflexivity.
    - apply Forall_drop. eapply Forall_impl; [exact Htarget |]. apply name_segment. }
  assert (Hleads : Path.normalizeSegments false [] (base ++ up ++ drop k target) = target).
  { rewrite normalizeSegments_push by done. rewrite app_nil_r.
    rewrite <- (take_drop k base) at 1. rewrite rev_app_distr.
    unfold up. rewrite <- length_rev.
    rewrite normalizeSegments_leave by (by apply Forall_rev, Forall_drop).
    rewrite follow_names by (first [by apply Forall_take | by apply Forall_drop]).
    by rewrite Htake, take_drop. }
  destruct (Js.truthy (Js.join "/" (up ++ drop k target))) eqn:Hrel.
  - unfold Js.split. rewrite (splitBy_join _ "/"); [done | done | |].
    + intros Hnil. rewrite Hnil in Hrel. done.
    + eapply Forall_impl; [exact Hsegs |]. intros s Hs.
      unfold isSegment in Hs. by apply andb_true_iff in Hs as [_ ?].
  - apply truthy_false, join_nil_iff in Hrel.
    + rewrite Hrel, app_nil_r in Hleads.
      destruct (normalizeSegments_names_id base Hbase) as [Hid _].
      rewrite Hid in Hleads. rewrite <- Hleads.
      rewrite normalizeSegments_push by done.
      cbn. by rewrite app_nil_r, rev_involutive.
    + eapply Forall_impl; [exact Hsegs |]. intros s Hs.
      unfold isSegment in Hs. by apply andb_true_iff in Hs as [? _].
Qed.

(** X10, witness: from the directory of MATH1010 to a file of MATH2020. *)
Lemma toRelative_leads_to_target_witness :
  toRelativeParts ["course_builder"; "2223"; "MATH1010"]
                  ["course_builder"; "2223"; "MATH2020"; "notes.pdf"]
  = "../MATH2020/notes.pdf"
  ∧ follow ["course_builder"; "2223"; "MATH1010"] "../MATH2020/notes.pdf"
    = ["course_builder"; "2223"; "MATH2020"; "notes.pdf"].
Proof.
  split; [reflexivity |].
  exact (toRelative_leads_to_target
           ["course_builder"; "2223"; "MATH1010"]
           ["course_builder"; "2223"; "MATH2020"; "notes.pdf"]
           ltac:(by repeat constructor) ltac:(by repeat constructor)).
Defined.

(** ** What a selection selects *)

Section Members.

Context `{Runtime}.

Lemma addRange_elem sel (range : list Z) j :
  j ∈ foldl (λ sel i, setAdd (i - 1) sel) sel range
  ↔ j ∈ sel ∨ ∃ i, i ∈ range ∧ j = i - 1.
Proof.
  revert sel. induction range as [|i range IH]; intros sel; simpl.
  - split; [by left | intros [?|(i & Hi & _)]; [done | by apply elem_of_nil in Hi]].
  - rewrite IH, setAdd_elem. split.
    + intros [[->|Hj]|(i' & Hi' & ->)].
      * right. exists i. split; [by left | done].
      * by left.
      * right. exists i'. split; [by right | done].
    + intros [Hj|(i' & Hi' & ->)]; [by left; right |].
      apply elem_of_cons in Hi' as [->|Hi']; [by left; left |].
      right. by exists i'.
Qed.

Lemma selectChunk_members max sel chunk sel' :
  selectChunk max sel chunk = inr sel' →
  ∀ j, j ∈ sel' ↔ j ∈ sel ∨ chunkSelects chunk (j + 1).
Proof.
  unfold selectChunk, chunkSelects.
  destruct (matchRange chunk) as [[first second]|].
  - destruct (toInteger first) as [a|]; [| done].
    destruct (toInteger second) as [b|]; [| done].
    destruct (b <? a) eqn:Hswap; cbv zeta iota beta;
      (destruct (_ <? 1) eqn:Hlo; [done |]);
      (destruct (max <? _) eqn:Hhi; [done |]); cbn [orb];
      intros [= <-] j; rewrite addRange_elem; apply or_iff_compat_l; split.
    + intros (i & Hi%elem_of_seqZ & ->). exists a, b. split_and!; [done | done | lia | lia].
    + intros (a' & b' & [= <-] & [= <-] & Hj).
      exists (j + 1). split; [apply elem_of_seqZ | ]; lia.
    + intros (i & Hi%elem_of_seqZ & ->). exists a, b. split_and!; [done | done | lia | lia].
    + intros (a' & b' & [= <-] & [= <-] & Hj).
      exists (j + 1). split; [apply elem_of_seqZ | ]; lia.
  - destruct (toInteger chunk) as [num|]; [| done].
    destruct (num <? 1) eqn:Hlo; [done |].
    destruct (max <? num) eqn:Hhi; [done |]. cbn [orb].
    intros [= <-] j. rewrite setAdd_elem. split.
    + intros [->|Hj]; [right; f_equal; lia | by left].
    + intros [Hj|[= ->]]; [by right | left; lia].
Qed.

Lemma selectChunks_members max chunks :
  ∀ sel sel',
    selectChunks max sel chunks = inr sel' →
    ∀ j, j ∈ sel' ↔ j ∈ sel ∨ ∃ chunk, chunk ∈ chunks ∧ chunkSelects chunk (j + 1).
Proof.
  induction chunks as [|chunk chunks IH]; intros sel sel'; simpl.
  - intros [= <-] j. split; [by left |].
    intros [?|(c & Hc & _)]; [done | by apply elem_of_nil in Hc].
  - destruct (selectChunk max sel chunk) as [e|sel1] eqn:Hone; [done |].
    intros Hrest j. rewrite (IH _ _ Hrest), (selectChunk_members _ _ _ _ Hone). split.
    + intros [[Hj|Hj]|(c & Hc & Hj)]; [by left | |].
      * right. exists chunk. split; [by left | done].
      * right. exists c. split; [by right | done].
    + intros [Hj|(c & Hc & Hj)]; [by left; left |].
      apply elem_of_cons in Hc as [->|Hc]; [by left; right |].
      right. by exists c.
Qed.

(** Whether a chunk is accepted does not depend on what is selected
    already. *)
Lemma selectChunk_accepts max sel1 sel2 chunk :
  (∃ s, selectChunk max sel1 chunk = inr s) → ∃ s, selectChunk max sel2 chunk = inr s.
Proof.
  unfold selectChunk.
  destruct (matchRange chunk) as [[first second]|].
  - destruct (toInteger first) as [a|]; [| by intros [? ?]].
    destruct (toInteger second) as [b|]; [| by intros [? ?]].
    destruct (b <? a); cbv zeta iota beta;
      (destruct (_ || _); [by intros [? ?] | by eexists]).
  - destruct (toInteger chunk) as [num|]; [| by intros [? ?]].
    destruct (_ || _); [by intros [? ?] | by eexists].
Qed.

Lemma selectChunks_accepts max chunks :
  ∀ sel, (∃ s, selectChunks max sel chunks = inr s)
         ↔ Forall (λ chunk, ∃ s, selectChunk max [] chunk = inr s) chunks.
Proof.
  induction chunks as [|chunk chunks IH]; intros sel; simpl.
  - split; [by constructor | by eexists].
  - rewrite Forall_cons. split.
    + intros [s Hs]. destruct (selectChunk max sel chunk) as [e|sel1] eqn:Hone; [done |].
      split; [apply (selectChunk_accepts max sel); by eexists |].
      apply (IH sel1). by exists s.
    + intros [Hone Hrest]. apply (selectChunk_accepts max [] sel) in Hone as [sel1 ->].
      by apply IH.
Qed.

(** Increasing lists with the same elements are equal. *)
Lemma increasing_ext (xs ys : list Z) :
  StronglySorted Z.lt xs → StronglySorted Z.lt ys →
  (∀ i, i ∈ xs ↔ i ∈ ys) → xs = ys.
Proof.
  intros Hxs. revert ys. induction Hxs as [|x xs Hxs IH Hx]; intros ys Hys Hext.
  - destruct ys as [|y ys]; [done |].
    assert (Hy : y ∈ []) by (apply Hext; by left). by apply elem_of_nil in Hy.
  - destruct Hys as [|y ys Hys Hy].
    + assert (Hin : x ∈ []) by (apply Hext; by left). by apply elem_of_nil in Hin.
    + rewrite Forall_forall in Hx, Hy.
      assert (x = y) as ->.
      { assert (Hxin : x ∈ y :: ys) by (apply Hext; by left).
        assert (Hyin : y ∈ x :: xs) by (apply Hext; by left).
        apply elem_of_cons in Hxin as [->|Hxin]; [done |].
        apply elem_of_cons in Hyin as [->|Hyin]; [done |].
        specialize (Hx _ Hyin). specialize (Hy _ Hxin). lia. }
      f_equal. apply IH; [done |]. intros i. split; intros Hi.
      * assert (Hin : i ∈ y :: ys) by (apply Hext; by right).
        apply elem_of_cons in Hin as [->|Hin]; [| done].
        specialize (Hx _ Hi). lia.
      * assert (Hin : i ∈ y :: xs) by (apply Hext; by right).
        apply elem_of_cons in Hin as [->|Hin]; [| done].
        specialize (Hy _ Hi). lia.
Qed.

End Members.

(** X11.  What [parseCourseSelection] accepts and returns.  A selection is
    accepted exactly when it has a chunk and each chunk alone would be
    accepted.  The indices returned are those of the numbers that some
    chunk selects (a number alone selects itself, a range selects what lies
    between its ends, in whatever order they are given), and nothing else.
    Hence two selections whose chunks select the same numbers give the same
    list, however the chunks are ordered or repeated. *)
Theorem parseCourseSelection_members (R : Runtime) (max : Z) :
  (∀ input,
     (∃ indices, parseCourseSelection input max = inr indices)
     ↔ selectionChunks input ≠ []
       ∧ Forall (λ chunk, ∃ s, selectChunk max [] chunk = inr s)
                (selectionChunks input))
  ∧ (∀ input indices,
       parseCourseSelection input max = inr indices →
       ∀ i, i ∈ indices
            ↔ ∃ chunk, chunk ∈ selectionChunks input ∧ chunkSelects chunk (i + 1))
  ∧ (∀ input1 input2 indices1 indices2,
       parseCourseSelection input1 max = inr indices1 →
       parseCourseSelection input2 max = inr indices2 →
       (∀ n, (∃ chunk, chunk ∈ selectionChunks input1 ∧ chunkSelects chunk n)
             ↔ (∃ chunk, chunk ∈ selectionChunks input2 ∧ chunkSelects chunk n)) →
       indices1 = indices2).
Proof.
  assert (Hmembers : ∀ input indices,
            parseCourseSelection input max = inr indices →
            ∀ i, i ∈ indices
                 ↔ ∃ chunk, chunk ∈ selectionChunks input ∧ chunkSelects chunk (i + 1)).
  { intros input indices. unfold parseCourseSelection. fold (selectionChunks input).
    destruct (selectionChunks input) as [|chunk chunks]; [done |].
    destruct (selectChunks max [] (chunk :: chunks)) as [e|sel] eqn:Hsel; [done |].
    intros [= <-] i. rewrite sortNumbers_elem, (selectChunks_members _ _ _ _ Hsel).
    split; [intros [Hi|Hi]; [by apply elem_of_nil in Hi | done] | by right]. }
  split_and!.
  - intros input. unfold parseCourseSelection. fold (selectionChunks input).
    destruct (selectionChunks input) as [|chunk chunks].
    + split; [by intros [? ?] | by intros [? _]].
    + rewrite <- (selectChunks_accepts max (chunk :: chunks) []).
      destruct (selectChunks max [] (chunk :: chunks)) as [e|sel].
      * split; [by intros [? ?] | by intros [_ [? ?]]].
      * split; [intros _; split; [done | by eexists] | intros _; by eexists].
  - exact Hmembers.
  - intros input1 input2 indices1 indices2 H1 H2 Hsame.
    apply increasing_ext.
    + by destruct (parseCourseSelection_indices _ _ _ H1).
    + by destruct (parseCourseSelection_indices _ _ _ H2).
    + intros i. rewrite (Hmembers _ _ H1), (Hmembers _ _ H2). apply Hsame.
Qed.

(** X11, witness: [3, 1-2] and [2-1, 3, 3] select the same courses. *)
Lemma parseCourseSelection_members_witness :
  @parseCourseSelection Reference.runtime "3, 1-2" 5 = inr [0; 1; 2]
  ∧ @parseCourseSelection Reference.runtime "2-1, 3, 3" 5 = inr [0; 1; 2]
  ∧ ∀ i, i ∈ [0; 1; 2]
         ↔ ∃ chunk, chunk ∈ selectionChunks "3, 1-2"
                    ∧ @chunkSelects Reference.runtime chunk (i + 1).
Proof.
  destruct (parseCourseSelection_members Reference.runtime 5) as (_ & Hmembers & _).
  split_and!; [reflexivity | reflexivity |].
  exact (Hmembers "3, 1-2" [0; 1; 2] eq_refl).
Defined.

(** ** What the steps of the script keep *)

Section Keeps.

Context `{Runtime, Environment}.
Context (R : World → World → Prop) `{!Frame R}.

Lemma keeps_ret {A} (a : A) : keeps R (mret a).
Proof. intros w. apply frame_refl. Qed.

Lemma keeps_throw {A} e : keeps R (throw (A:=A) e).
Proof. intros w. apply frame_refl. Qed.

Lemma keeps_bind {A B} (m : Prog A) (k : A → Prog B) :
  keeps R m → (∀ a, keeps R (k a)) → keeps R (m ≫= k).
Proof.
  intros Hm Hk w. unfold mbind, prog_bind. specialize (Hm w).
  destruct (m w) as [[a|e] w1]; [| done].
  eapply frame_trans; [exact Hm | apply Hk].
Qed.

Lemma keeps_tryCatch {A} (body : Prog A) (handler : string → Prog A) :
  keeps R body → (∀ e, keeps R (handler e)) → keeps R (tryCatch body handler).
Proof.
  intros Hbody Hhandler w. unfold tryCatch. specialize (Hbody w).
  destruct (body w) as [[a|e] w1]; [done |].
  eapply frame_trans; [exact Hbody | apply Hhandler].
Qed.

Lemma keeps_finally {A} (body : Prog A) (cleanup : World → World) :
  keeps R body → (∀ w, R w (cleanup w)) → keeps R (finally body cleanup).
Proof.
  intros Hbody Hcleanup w. unfold finally. specialize (Hbody w).
  destruct (body w) as [r w1]. eapply frame_trans; [exact Hbody | apply Hcleanup].
Qed.

Lemma keeps_modify (f : World → World) :
  (∀ w, R w (f w)) → keeps R (modify f).
Proof. intros Hf w. apply Hf. Qed.

Lemma keeps_log line : keeps R (log line).
Proof. apply keeps_modify, frame_console. Qed.

Lemma keeps_orThrow {A} message (o : option A) : keeps R (orThrow message o).
Proof. destruct o; [apply keeps_ret | apply keeps_throw]. Qed.

Lemma keeps_existsSync p : keeps R (existsSync p).
Proof. intros w. apply frame_refl. Qed.

Lemma keeps_mkdir p : keeps R (mkdir p).
Proof.
  intros w. unfold mkdir.
  destruct (Fs.mkdirRecursive (disk w) p) as [d|] eqn:Hmk; [| apply frame_refl].
  apply frame_disk. intros k Hk.
  eapply lookup_weaken_is_Some; [exact Hk | by eapply mkdirFrom_subseteq].
Qed.

Lemma writeFile_insert d p data d' :
  Fs.writeFile d p data = Some d' → d' = <[Fs.key p := Fs.File data]> d.
Proof.
  unfold Fs.writeFile. destruct (Js.endsWithChar p "/"); [done |].
  destruct (Fs.key p) as [|seg k]; [done |].
  destruct (Fs.lookupNode d (removelast (seg :: k))) as [[|]|]; try done.
  destruct (d !! (seg :: k)) as [[|]|]; by intros [= <-].
Qed.

Lemma keeps_writeFile p data : keeps R (writeFile p data).
Proof.
  intros w. unfold writeFile.
  destruct (Fs.writeFile (disk w) p data) as [d|] eqn:Hw; [| apply frame_refl].
  apply frame_disk. intros k Hk. rewrite (writeFile_insert _ _ _ _ Hw).
  apply lookup_insert_is_Some'. by right.
Qed.

Lemma keeps_get url : (∀ w, R w (addRequest url w)) → keeps R (get url).
Proof.
  intros Hrequest w. unfold get.
  destruct (axiosGet (length (requests w)) url); apply Hrequest.
Qed.

Ltac keep :=
  repeat first
    [ apply keeps_ret | apply keeps_throw | apply keeps_log | apply keeps_orThrow
    | apply keeps_mkdir | apply keeps_writeFile | apply keeps_existsSync
    | apply keeps_get; assumption
    | apply keeps_modify; intros ?; apply frame_progress
    | apply keeps_bind; [| intros ?]
    | apply keeps_tryCatch; [| intros ?]
    | apply keeps_finally; [| intros ?; apply frame_progress]
    | match goal with |- keeps _ (if ?b then _ else _) => destruct b end
    | progress cbv zeta ].

Lemma keeps_downloadFile url :
  (∀ w, R w (addRequest url w)) → keeps R (downloadFile url).
Proof. intros Hrequest. unfold downloadFile. keep. Qed.

Section Log.

Context `{!FrameLog R}.

Ltac keepLog :=
  repeat first
    [ apply keeps_downloadFile; assumption
    | apply keeps_modify; intros ?; apply frame_missing
    | progress keep ].

Lemma keeps_fetchOne cfg courseLabel i total decoded :
  (∀ w, R w (addRequest decoded w)) →
  keeps R (fetchOne cfg courseLabel i total decoded).
Proof. intros Hrequest. unfold fetchOne. keepLog. Qed.

Lemma keeps_downloadAll cfg courseLabel total urls :
  Forall (λ url, ∀ decoded, Uri.decodeURI url = Some decoded →
                            ∀ w, R w (addRequest decoded w)) urls →
  ∀ i, keeps R (downloadAll cfg courseLabel total i urls).
Proof.
  induction 1 as [|url urls Hurl _ IH]; intros i; cbn [downloadAll]; [apply keeps_ret |].
  destruct (Uri.decodeURI url) as [decoded|] eqn:Hd; cbn [orThrow].
  - intros w. unfold mbind at 1, prog_bind at 1, mret at 1, prog_ret at 1.
    cbv beta iota. revert w.
    match goal with |- ∀ w, R w (?p w).2 => change (keeps R p) end.
    apply keeps_bind; [by apply keeps_fetchOne, Hurl | intros r].
    apply keeps_bind; [apply IH | intros rs]. apply keeps_ret.
  - intros w. apply frame_refl.
Qed.

Section Fetch.

Context `{!FrameFetch R}.

Lemma keeps_usable cfg courseLabel total downloadUrls :
  ∀ i, keeps R (downloadAll cfg courseLabel total i (usableUrls downloadUrls)).
Proof.
  apply keeps_downloadAll. apply Forall_forall.
  intros url [Hurl _]%list_elem_of_filter decoded Hd w.
  apply frame_fetch. exists url. split; [by apply Is_true_true | done].
Qed.

Lemma keeps_afterExtraction course config extraction :
  keeps R (afterExtraction course config extraction).
Proof.
  unfold afterExtraction. cbv zeta.
  apply keeps_bind; [keep | intros _].
  apply keeps_bind; [keep | intros _].
  pose proof (keeps_usable config (label course)
                (length (usableUrls (downloadUrls extraction)))
                (downloadUrls extraction) 0) as Hall.
  destruct (usableUrls (downloadUrls extraction)); [keepLog |].
  apply keeps_bind; [keep | intros _].
  apply keeps_bind; [keep | intros _].
  apply keeps_bind; [exact Hall | intros _]. keep.
Qed.

Section Browser.

Context `{!FrameBrowser R}.

Lemma keeps_goto href : keeps R (goto href).
Proof.
  intros w. unfold goto.
  destruct (gotoRejects (length (navigations w)) href); apply frame_navigation.
Qed.

Lemma keeps_evaluate {T} (fn : Document → T) : keeps R (evaluate fn).
Proof.
  intros w. unfold evaluate.
  destruct (evaluation (evaluations w)); apply frame_evaluation.
Qed.

Lemma keeps_retryLoop {T} (fn : Document → T) retries remaining :
  ∀ attempt, keeps R (retryLoop fn retries remaining attempt).
Proof.
  induction remaining as [|remaining IH]; intros attempt; cbn [retryLoop];
    [apply keeps_throw |].
  apply keeps_tryCatch; [apply keeps_evaluate | intros message].
  destruct (_ || _); [apply keeps_throw |].
  apply keeps_bind; [apply keeps_log | intros _; apply IH].
Qed.

Lemma keeps_processCourse course config : keeps R (processCourse course config).
Proof.
  change (processCourse course config) with
    (log ("Navigating to course: " +:+ label course);;
     goto (courseHref course);;
     log ("[CUMATDL] Year rewrite: "
          +:+ (if applyYearRewrite config then "enabled" else "disabled")
          +:+ "; host fix: "
          +:+ (if forceHostReplacement config then "enabled" else "disabled"));;
     evaluateWithRetry (injected config) 3 ≫= afterExtraction course config).
  apply keeps_bind; [apply keeps_log | intros _].
  apply keeps_bind; [apply keeps_goto | intros _].
  apply keeps_bind; [apply keeps_log | intros _].
  apply keeps_bind; [apply keeps_retryLoop | apply keeps_afterExtraction].
Qed.

Lemma keeps_courseLoop config courses : keeps R (courseLoop config courses).
Proof.
  induction courses as [|course courses IH]; cbn [courseLoop]; [apply keeps_ret |].
  apply keeps_bind; [apply keeps_processCourse | intros _].
  apply keeps_bind; [apply keeps_modify, frame_completed | intros _].
  apply keeps_bind; [apply keeps_modify, frame_progress | intros _]. apply IH.
Qed.

End Browser.

(** The report of missing resources, written after the loop. *)
Lemma keeps_mainAfterSelection seg courses all :
  keeps R (courseLoop (injectionConfig seg all) courses) →
  keeps R (mainAfterSelection seg courses all).
Proof.
  intros Hloop. unfold mainAfterSelection.
  apply keeps_bind; [exact Hloop | intros _].
  apply keeps_bind; [| intros _; apply keeps_log].
  intros w. destruct (all && _); [| apply frame_refl]. cbv zeta.
  generalize (Js.join (String "010" "") (missingLog w) +:+ String "010" "").
  intros data. revert w.
  match goal with |- ∀ w, R w (?p w).2 => change (keeps R p) end.
  keep.
Qed.

End Fetch.

End Log.

End Keeps.

Section Relations.

#[global] Instance quiet_frame : Frame quiet.
Proof. by split; unfold quiet; intros; cbn; try (intuition congruence). Qed.

#[global] Instance quiet_log : FrameLog quiet.
Proof. by intros entry w. Qed.

#[global] Instance quiet_fetch `{Runtime} : FrameFetch quiet.
Proof. by intros decoded w _. Qed.

#[global] Instance grows_frame : Frame grows.
Proof.
  split; unfold grows.
  - intros w. by split_and!.
  - intros w1 w2 w3 (Hd1 & Hr1 & Hn1 & He1 & Hc1 & Hm1 & Hk1)
                    (Hd2 & Hr2 & Hn2 & He2 & Hc2 & Hm2 & Hk2).
    split_and!; [by auto | by etrans.. | lia | by etrans | by etrans | lia].
  - intros line w. cbn. split_and!; try done. by apply prefix_app_r.
  - intros d w Hd. cbn. by split_and!.
  - intros p w. cbn. by split_and!.
Qed.

#[global] Instance grows_fetch `{Runtime} : FrameFetch grows.
Proof.
  intros decoded w _. unfold grows. cbn. split_and!; try done. by apply prefix_app_r.
Qed.

#[global] Instance grows_log : FrameLog grows.
Proof. intros entry w. unfold grows. cbn. split_and!; try done. by apply prefix_app_r. Qed.

#[global] Instance grows_browser : FrameBrowser grows.
Proof.
  split; intros; unfold grows; cbn; split_and!; try done;
    first [by apply prefix_app_r | lia].
Qed.

#[global] Instance sameLog_frame : Frame sameLog.
Proof. by split; unfold sameLog; intros; cbn; try congruence. Qed.

#[global] Instance sameLog_browser : FrameBrowser sameLog.
Proof. by split; unfold sameLog; intros; cbn. Qed.

Lemma requestsOnly_step (S : string → Prop) (f : World → World) :
  (∀ w, requests (f w) = requests w) → ∀ w, requestsOnly S w (f w).
Proof. intros Hf w. exists []. by rewrite app_nil_r, Hf. Qed.

#[global] Instance requestsOnly_frame (S : string → Prop) : Frame (requestsOnly S).
Proof.
  split.
  - by apply (requestsOnly_step S id).
  - intros w1 w2 w3 (e1 & H1 & Hs1) (e2 & H2 & Hs2).
    exists (e1 ++ e2). split; [by rewrite H2, H1, app_assoc | by apply Forall_app].
  - intros line. by apply requestsOnly_step.
  - intros d w _. by apply (requestsOnly_step S (setDisk d)).
  - intros p. by apply requestsOnly_step.
Qed.

#[global] Instance requestsOnly_log (S : string → Prop) : FrameLog (requestsOnly S).
Proof. intros entry. by apply requestsOnly_step. Qed.

#[global] Instance requestsOnly_browser (S : string → Prop) :
  FrameBrowser (requestsOnly S).
Proof. split; intros; by apply requestsOnly_step. Qed.

#[global] Instance requestsOnly_fetch `{Runtime} : FrameFetch (requestsOnly passedFilter).
Proof. intros decoded w Hd. exists [decoded]. split; [done | by constructor]. Qed.

End Relations.

(** ** The effects of a download *)

Section Downloads.

Context `{Runtime, Environment}.

Lemma writeFile_fresh d p data d' :
  Fs.existsSync d p = false → Fs.writeFile d p data = Some d' →
  d !! Fs.key p = None.
Proof.
  unfold Fs.existsSync, Fs.writeFile, Fs.lookupNode.
  destruct (Js.endsWithChar p "/"); [done |].
  destruct (Fs.key p) as [|seg k]; [done |].
  intros Hex _. by destruct (d !! (seg :: k)) as [[data'|]|].
Qed.

Lemma failures_cons r rs :
  failures (r :: rs) = ((if isFailed r then 1 else 0) + failures rs)%nat.
Proof.
  unfold failures. destruct r as [status|reason].
  - by rewrite filter_cons_False by (simpl; tauto).
  - by rewrite filter_cons_True by done.
Qed.

(** One iteration of the download loop: it always completes, and records
    a failure in the missing log when there is one to record. *)
Lemma fetchOne_outcome cfg courseLabel i total decoded w :
  ∃ r w', fetchOne cfg courseLabel i total decoded w = (Return r, w')
    ∧ missingLog w'
      = missingLog w
        ++ match r with
           | Failed message =>
               if reportMissing cfg
               then ["[" +:+ courseLabel +:+ "] " +:+ decoded +:+ " :: " +:+ message]
               else []
           | Fetched _ => []
           end
    ∧ disk w ⊆ disk w'
    ∧ (requests w' = requests w ∨ requests w' = requests w ++ [decoded]).
Proof.
  pose proof (keeps_downloadFile sameLog decoded (λ _, eq_refl) w) as Hlog.
  unfold fetchOne, finally, tryCatch.
  unfold mbind at 1, prog_bind at 1.
  destruct (downloadFile decoded w) as [[status|e] w1] eqn:Hdl; cbn [snd] in Hlog.
  - eexists _, _. split; [reflexivity |]. cbn [missingLog disk requests setCourseProgress].
    rewrite app_nil_r. split_and!; [done | by eapply downloadFile_subseteq |
                                     by eapply downloadFile_requests].
  - pose proof (downloadFile_subseteq _ _ _ _ Hdl) as Hsub.
    pose proof (downloadFile_requests _ _ _ _ Hdl) as Hreq.
    unfold mbind, prog_bind, log, modify, mret, prog_ret.
    destruct (reportMissing cfg); eexists _, _; (split; [reflexivity |]);
      cbn [missingLog disk requests setCourseProgress addMissing addConsole];
      rewrite Hlog; split_and!; try done.
    by rewrite app_nil_r.
Qed.

Lemma downloadAll_subseteq cfg courseLabel total urls :
  ∀ i w, disk w ⊆ disk (downloadAll cfg courseLabel total i urls w).2.
Proof.
  induction urls as [|url urls IH]; intros i w; cbn [downloadAll]; [done |].
  unfold mbind at 1, prog_bind at 1.
  destruct (Uri.decodeURI url) as [decoded|]; cbn [orThrow]; [| done].
  unfold mret at 1, prog_ret at 1.
  destruct (fetchOne_outcome cfg courseLabel i total decoded w)
    as (r & w1 & Hone & _ & Hsub & _).
  unfold mbind at 1, prog_bind at 1. rewrite Hone.
  specialize (IH (S i) w1). unfold mbind, prog_bind.
  destruct (downloadAll cfg courseLabel total (S i) urls w1) as [[rs|e] w2];
    cbn [snd] in *; by etrans.
Qed.

Lemma downloadAll_outcomes cfg courseLabel total urls :
  ∀ i w,
    Forall (λ url, is_Some (Uri.decodeURI url)) urls →
    ∃ r w', downloadAll cfg courseLabel total i urls w = (Return r, w')
      ∧ length r = length urls
      ∧ length (missingLog w')
        = (length (missingLog w) + if reportMissing cfg then failures r else 0)%nat
      ∧ (length (requests w') ≤ length (requests w) + length urls)%nat.
Proof.
  induction urls as [|url urls IH]; intros i w Hdec; cbn [downloadAll].
  - exists [], w. split_and!; [done | done | | simpl; lia].
    unfold failures. simpl. destruct (reportMissing cfg); lia.
  - inversion Hdec as [|? ? [decoded Hd] Hrest]; subst.
    rewrite Hd. cbn [orThrow].
    unfold mbind at 1, prog_bind at 1, mret at 1, prog_ret at 1.
    destruct (fetchOne_outcome cfg courseLabel i total decoded w)
      as (r & w1 & Hone & Hlog & _ & Hreq).
    unfold mbind at 1, prog_bind at 1. rewrite Hone.
    destruct (IH (S i) w1 Hrest) as (rs & w2 & Hall & Hlen & Hlog2 & Hreq2).
    unfold mbind at 1, prog_bind at 1. rewrite Hall.
    exists (r :: rs), w2. split_and!; [done | simpl; lia | |].
    + rewrite Hlog2, Hlog, length_app, failures_cons.
      destruct r as [status|reason]; destruct (reportMissing cfg); simpl; lia.
    + cbn [length]. destruct Hreq as [Hr|Hr]; rewrite Hr in Hreq2;
        [| rewrite length_app in Hreq2; simpl in Hreq2]; lia.
Qed.

End Downloads.

(** X12.  [downloadFile] never changes or removes what is on the disk,
    whatever its outcome: it only adds directories and, when it downloads,
    the file.  It leaves the browser and the missing log alone and issues
    at most one request, for its URL.  When it skips, nothing is requested;
    when it downloads, exactly one request is issued, nothing was at the
    local path before, and the file there afterwards holds the body of the
    response. *)
Theorem downloadFile_effect
  (R : Runtime) (E : Environment) (url : string) (w w' : World)
  (r : Result FetchStatus) :
  downloadFile url w = (r, w') →
  disk w ⊆ disk w'
  ∧ quiet w w' ∧ missingLog w' = missingLog w
  ∧ match r with
    | Return Skipped =>
        requests w' = requests w
        ∧ ∃ localPath, localPathFromUrl url = Some localPath
                       ∧ Fs.existsSync (disk w') localPath = true
    | Return Downloaded =>
        ∃ localPath body,
          localPathFromUrl url = Some localPath
          ∧ axiosGet (length (requests w)) url = inr body
          ∧ requests w' = requests w ++ [url]
          ∧ disk w !! Fs.key localPath = None
          ∧ disk w' !! Fs.key localPath = Some (Fs.File body)
    | Throw _ => requests w' = requests w ∨ requests w' = requests w ++ [url]
    end.
Proof.
  intros Hdl.
  assert (Hq : ∀ w0, quiet w0 (addRequest url w0)) by done.
  pose proof (keeps_downloadFile quiet url Hq w) as Hquiet.
  pose proof (keeps_downloadFile sameLog url (λ _, eq_refl) w) as Hlog.
  pose proof (downloadFile_cases url w) as Hc.
  rewrite Hdl in Hquiet, Hlog, Hc. cbn [snd] in Hquiet, Hlog.
  split_and!; [by eapply downloadFile_subseteq | done | done |].
  destruct r as [[]|e]; [| | by destruct Hc].
  - destruct Hc as (p & Hp & _ & Hex & Hreq & _). split; [done | by exists p].
  - destruct Hc as (p & d1 & data & Hp & Hmk & Hex & Hget & Hw & Hreq).
    exists p, data. split_and!; [done | done | done | |].
    + eapply lookup_weaken_None; [by eapply writeFile_fresh |].
      by eapply mkdirFrom_subseteq.
    + rewrite (writeFile_insert _ _ _ _ Hw). apply lookup_insert_eq.
Qed.

(** X12, witness: the notes of MATH1010, downloaded to an empty disk. *)
Lemma downloadFile_effect_witness :
  let R := Reference.runtime in
  let E := Scenario.flaky 0 Scenario.coursePage "PDF" in
  ∃ w', downloadFile Scenario_notesUrl Scenario.emptyWorld = (Return Downloaded, w')
        ∧ requests w' = [Scenario_notesUrl]
        ∧ disk w' !! ["home"; "user"; "CUMATDL"; "dl"; "2223"; "MATH1010"; "notes.pdf"]
          = Some (Fs.File "PDF").
Proof.
  intros R E.
  set (outcome := downloadFile Scenario_notesUrl Scenario.emptyWorld).
  assert (Hr : outcome.1 = Return Downloaded) by (vm_compute; reflexivity).
  assert (Hpath : localPathFromUrl Scenario_notesUrl
                  = Some "/home/user/CUMATDL/dl/2223/MATH1010/notes.pdf")
    by (vm_compute; reflexivity).
  assert (Hkey : Fs.key "/home/user/CUMATDL/dl/2223/MATH1010/notes.pdf"
                 = ["home"; "user"; "CUMATDL"; "dl"; "2223"; "MATH1010"; "notes.pdf"])
    by (vm_compute; reflexivity).
  pose proof (downloadFile_effect R E Scenario_notesUrl Scenario.emptyWorld
                outcome.2 outcome.1 (surjective_pairing outcome)) as (_ & _ & _ & Hcase).
  rewrite Hr in Hcase. destruct Hcase as (p & body & Hp & Hget & Hreq & _ & Hfile).
  rewrite Hpath in Hp. injection Hp as <-. rewrite Hkey in Hfile.
  injection Hget as <-.
  exists outcome.2. split_and!; [| exact Hreq | exact Hfile].
  rewrite <- Hr. apply surjective_pairing.
Defined.

(** X13.  In the download loop a failed download stops nothing: when every
    URL of the list decodes, the loop completes with one outcome for each
    URL, having issued at most one request for each and recorded one
    missing entry for each failure (none when the missing log is off); it
    leaves the browser alone and removes nothing from the disk.  Only a
    URL that [decodeURI] rejects ends the loop, with the error [URI
    malformed], because the call stands outside the [try]: the URLs before
    it have been handled and those after it are not. *)
Theorem downloadAll_isolates_failures
  (R : Runtime) (E : Environment) (cfg : InjectionConfig) (courseLabel : string)
  (total : nat) :
  (∀ i urls w,
     Forall (λ url, is_Some (Uri.decodeURI url)) urls →
     ∃ r w',
       downloadAll cfg courseLabel total i urls w = (Return r, w')
       ∧ length r = length urls
       ∧ length (missingLog w')
         = (length (missingLog w) + if reportMissing cfg then failures r else 0)%nat
       ∧ (length (requests w') ≤ length (requests w) + length urls)%nat
       ∧ disk w ⊆ disk w' ∧ quiet w w')
  ∧ (∀ i good bad rest w,
       Forall (λ url, is_Some (Uri.decodeURI url)) good →
       Uri.decodeURI bad = None →
       ∃ w',
         downloadAll cfg courseLabel total i (good ++ bad :: rest) w
         = (Throw "URI malformed", w')
         ∧ (length (requests w') ≤ length (requests w) + length good)%nat).
Proof.
  split.
  - intros i urls w Hdec.
    destruct (downloadAll_outcomes cfg courseLabel total urls i w Hdec)
      as (r & w' & Hrun & Hlen & Hlog & Hreq).
    exists r, w'. split_and!; try done.
    + pose proof (downloadAll_subseteq cfg courseLabel total urls i w) as Hsub.
      by rewrite Hrun in Hsub.
    + assert (Hurls : Forall (λ url, ∀ decoded, Uri.decodeURI url = Some decoded →
                                     ∀ w0, quiet w0 (addRequest decoded w0)) urls)
        by (by apply Forall_forall).
      pose proof (keeps_downloadAll quiet cfg courseLabel total urls Hurls i w) as Hq.
      by rewrite Hrun in Hq.
  - intros i good. revert i.
    induction good as [|url good IH]; intros i bad rest w Hgood Hbad.
    + exists w. cbn [app downloadAll]. rewrite Hbad. split; [done | simpl; lia].
    + inversion Hgood as [|? ? [decoded Hd] Hrest]; subst.
      cbn [app downloadAll]. rewrite Hd. cbn [orThrow].
      unfold mbind at 1, prog_bind at 1, mret at 1, prog_ret at 1.
      destruct (fetchOne_outcome cfg courseLabel i total decoded w)
        as (r & w1 & Hone & _ & _ & Hreq).
      unfold mbind at 1, prog_bind at 1. rewrite Hone.
      destruct (IH (S i) bad rest w1 Hrest Hbad) as (w' & Hrun & Hreq').
      exists w'. unfold mbind at 1, prog_bind at 1. rewrite Hrun.
      split; [done |]. cbn [length].
      destruct Hreq as [Hr|Hr]; rewrite Hr in Hreq';
        [| rewrite length_app in Hreq'; simpl in Hreq']; lia.
Qed.

(** X13, witness: a server that answers nothing; two resources fail, the
    loop completes and records both. *)
Lemma downloadAll_isolates_failures_witness :
  let R := Reference.runtime in
  let E := {| gotoRejects := λ _ _, None;
              evaluation := λ _, inr Scenario.coursePage;
              axiosGet := λ _ _, inl "timeout of 120000ms exceeded" |} in
  let urls := [Scenario_notesUrl;
               "https://www.math.cuhk.edu.hk/course_builder/2223/MATH1010/hw1.pdf"] in
  ∃ r w', downloadAll (injectionConfig "2223" true) "MATH1010" 2 0 urls
                      Scenario.emptyWorld = (Return r, w')
          ∧ length r = 2%nat
          ∧ length (missingLog w') = failures r.
Proof.
  intros R E urls.
  destruct (downloadAll_isolates_failures R E (injectionConfig "2223" true) "MATH1010" 2)
    as [Hall _].
  destruct (Hall 0%nat urls Scenario.emptyWorld) as (r & w' & Hrun & Hlen & Hlog & _).
  { repeat constructor; by eexists. }
  exists r, w'. split_and!; [exact Hrun | exact Hlen | exact Hlog].
Defined.

(** ** A course, from the navigation to the last download *)

Section Course.

Context `{Runtime, Environment}.

Lemma bind_Return_inv {A B} (m : Prog A) (k : A → Prog B) w b w' :
  (m ≫= k) w = (Return b, w') →
  ∃ a w1, m w = (Return a, w1) ∧ k a w1 = (Return b, w').
Proof.
  unfold mbind, prog_bind. destruct (m w) as [[a|e] w1]; [| done]. by exists a, w1.
Qed.

Lemma bind_run {A B} (m : Prog A) (k : A → Prog B) w :
  (m ≫= k) w = match m w with
               | (Return a, w1) => k a w1
               | (Throw e, w1) => (Throw e, w1)
               end.
Proof. unfold mbind, prog_bind. by destruct (m w) as [[a|e] w1]. Qed.

Lemma ret_bind_run {A B} (a : A) (k : A → Prog B) w : (mret a ≫= k) w = k a w.
Proof. reflexivity. Qed.

Lemma processCourse_steps course config w :
  processCourse course config w
  = match gotoRejects (length (navigations w)) (courseHref course) with
    | Some message =>
        (Throw message,
         addNavigation (courseHref course)
           (addConsole ("Navigating to course: " +:+ label course) w))
    | None =>
        (evaluateWithRetry (injected config) 3 ≫= afterExtraction course config)
          (addConsole ("[CUMATDL] Year rewrite: "
                       +:+ (if applyYearRewrite config then "enabled" else "disabled")
                       +:+ "; host fix: "
                       +:+ (if forceHostReplacement config then "enabled" else "disabled"))
             (addNavigation (courseHref course)
                (addConsole ("Navigating to course: " +:+ label course) w)))
    end.
Proof.
  unfold processCourse.
  unfold mbind at 1, prog_bind at 1. cbn [log modify].
  unfold mbind at 1, prog_bind at 1. unfold goto at 1. cbn [navigations addConsole].
  by destruct (gotoRejects _ _).
Qed.

Lemma retried_fields j w :
  navigations (Nat.iter j (λ w, addConsole retryNotice (addEvaluation w)) w)
  = navigations w
  ∧ completedCourses (Nat.iter j (λ w, addConsole retryNotice (addEvaluation w)) w)
    = completedCourses w
  ∧ disk (Nat.iter j (λ w, addConsole retryNotice (addEvaluation w)) w) = disk w
  ∧ evaluations (Nat.iter j (λ w, addConsole retryNotice (addEvaluation w)) w)
    = (evaluations w + j)%nat.
Proof.
  induction j as [|j (Hn & Hc & Hd & He)]; [by rewrite Nat.add_0_r |].
  rewrite !Nat.iter_succ.
  cbn [navigations completedCourses disk evaluations addConsole addEvaluation].
  rewrite Hn, Hc, Hd, He. split_and!; [done | done | done | lia].
Qed.

(** The extraction evaluates at most three times and touches nothing but
    the console; what it returns is what the injected function makes of
    the document of its last evaluation. *)
Lemma extraction_outcome config w :
  ∃ k w', (1 ≤ k ≤ 3)%nat
    ∧ evaluateWithRetry (injected config) 3 w
      = (match evaluation (evaluations w + (k - 1)) with
         | inr doc => Return (injected config doc)
         | inl m => Throw m
         end, w')
    ∧ evaluations w' = (evaluations w + k)%nat
    ∧ navigations w' = navigations w
    ∧ completedCourses w' = completedCourses w.
Proof.
  destruct (retryLoop_attempts (injected config) 3 3 0 w) as (k & Hk & _ & _ & Hrun);
    [lia | lia |].
  eexists k, _. split; [done |]. split; [exact Hrun |].
  cbn [evaluations navigations completedCourses addEvaluation].
  destruct (retried_fields (k - 1) w) as (-> & -> & _ & ->). split_and!; [lia | done..].
Qed.

Lemma processCourse_browser course config w :
  ∃ k, (k ≤ 3)%nat
    ∧ navigations (processCourse course config w).2
      = navigations w ++ [courseHref course]
    ∧ evaluations (processCourse course config w).2 = (evaluations w + k)%nat
    ∧ completedCourses (processCourse course config w).2 = completedCourses w.
Proof.
  rewrite processCourse_steps.
  destruct (gotoRejects _ _) as [message|].
  { exists 0%nat.
    cbn [snd navigations evaluations completedCourses addNavigation addConsole].
    split_and!; [lia | done | lia | done]. }
  match goal with |- context [(_ ≫= _) ?w0] => set (w3 := w0) end.
  destruct (extraction_outcome config w3) as (k & w4 & Hk & Hrun & Hev & Hnav & Hdone).
  exists k. split; [lia |].
  unfold mbind, prog_bind. rewrite Hrun.
  destruct (evaluation _) as [m|doc].
  - cbn [snd]. by rewrite Hev, Hnav, Hdone.
  - destruct (keeps_afterExtraction quiet course config (injected config doc) w4)
      as (Hn & He & Hc).
    by rewrite Hn, He, Hc, Hev, Hnav, Hdone.
Qed.

Lemma courseLoop_cons config course courses w :
  courseLoop config (course :: courses) w
  = match processCourse course config w with
    | (Return _, w1) => courseLoop config courses (setCourseProgress None (addCompleted w1))
    | (Throw e, w1) => (Throw e, w1)
    end.
Proof.
  cbn [courseLoop]. unfold mbind at 1, prog_bind at 1.
  by destruct (processCourse course config w) as [[[]|e] w1].
Qed.

Lemma courseLoop_browser config courses :
  ∀ w, ∃ visited,
    visited `prefix_of` courses
    ∧ navigations (courseLoop config courses w).2
      = navigations w ++ map courseHref visited
    ∧ (evaluations w ≤ evaluations (courseLoop config courses w).2
       ≤ evaluations w + 3 * length visited)%nat
    ∧ (completedCourses w ≤ completedCourses (courseLoop config courses w).2
       ≤ completedCourses w + length visited)%nat
    ∧ (∀ u, (courseLoop config courses w).1 = Return u →
            visited = courses
            ∧ completedCourses (courseLoop config courses w).2
              = (completedCourses w + length courses)%nat).
Proof.
  induction courses as [|course courses IH]; intros w.
  - exists []. cbn. rewrite app_nil_r. split_and!; try done; lia.
  - rewrite courseLoop_cons.
    destruct (processCourse_browser course config w) as (k & Hk & Hnav & Hev & Hdone).
    destruct (processCourse course config w) as [[[]|e] w1]; cbn [snd] in *.
    + destruct (IH (setCourseProgress None (addCompleted w1)))
        as (visited & Hpre & Hnav' & Hev' & Hdone' & Hret).
      cbn [navigations evaluations completedCourses setCourseProgress addCompleted]
        in Hnav', Hev', Hdone', Hret.
      exists (course :: visited). cbn [length map]. split_and!.
      * destruct Hpre as [rest ->]. by exists rest.
      * rewrite Hnav', Hnav, <- app_assoc. done.
      * lia.
      * lia.
      * lia.
      * lia.
      * intros u Hu. destruct (Hret u Hu) as [-> Hall]. split; [done |].
        rewrite Hall, Hdone. lia.
    + exists [course]. cbn [fst snd map length]. split_and!.
      * by exists courses.
      * done.
      * lia.
      * lia.
      * lia.
      * lia.
      * done.
Qed.

Lemma mainAfterSelection_steps seg courses all w :
  mainAfterSelection seg courses all w
  = match courseLoop (injectionConfig seg all) courses w with
    | (Return _, w1) => mainAfterSelection seg [] all w1
    | (Throw e, w1) => (Throw e, w1)
    end.
Proof.
  unfold mainAfterSelection. unfold mbind at 1 3, prog_bind at 1 3.
  by destruct (courseLoop _ courses w) as [[[]|e] w1].
Qed.

Lemma index_truthy config doc :
  Js.truthy (serializedHtml (injected config doc)) = true.
Proof. reflexivity. Qed.

(** The index page, once written, is on the disk when [processCourse]
    returns. *)
Lemma afterExtraction_index course config extraction w w' :
  Js.truthy (serializedHtml extraction) = true →
  afterExtraction course config extraction w = (Return (), w') →
  ∃ htmlDir,
    localPathFromUrl (courseHref course) = Some htmlDir
    ∧ disk w' !! Fs.key (Path.join [htmlDir; "index.html"])
      = Some (Fs.File (serializedHtml extraction)).
Proof.
  intros Htruthy. unfold afterExtraction. cbv zeta. rewrite Htruthy.
  intros ([] & w1 & _ & Hrun)%bind_Return_inv.
  apply bind_Return_inv in Hrun as ([] & w5 & Hindex & Hrest).
  apply bind_Return_inv in Hindex as (htmlDir & w2 & Hdir & Hindex).
  destruct (localPathFromUrl (courseHref course)) as [p|]; [| done].
  injection Hdir as -> ->.
  apply bind_Return_inv in Hindex as ([] & w3 & _ & Hindex).
  apply bind_Return_inv in Hindex as ([] & w4 & Hwrite & Hlog).
  exists htmlDir. split; [done |].
  assert (Hfile : disk w5 !! Fs.key (Path.join [htmlDir; "index.html"])
                  = Some (Fs.File (serializedHtml extraction))).
  { injection Hlog as <-. cbn [disk addConsole].
    unfold writeFile in Hwrite.
    destruct (Fs.writeFile (disk w3) _ _) as [d|] eqn:Hw; [| done].
    injection Hwrite as <-. cbn [disk setDisk].
    rewrite (writeFile_insert _ _ _ _ Hw). apply lookup_insert_eq. }
  eapply lookup_weaken; [exact Hfile |].
  destruct (usableUrls (downloadUrls extraction)) as [|url urls].
  - apply bind_Return_inv in Hrest as ([] & w6 & Hl & Hm).
    injection Hl as <-. destruct (reportMissing config); by injection Hm as <-.
  - apply bind_Return_inv in Hrest as ([] & w6 & Hp & Hrest). injection Hp as <-.
    apply bind_Return_inv in Hrest as ([] & w7 & Hl & Hrest). injection Hl as <-.
    apply bind_Return_inv in Hrest as (rs & w8 & Hall & Hend). injection Hend as <-.
    cbn [disk setCourseProgress].
    match type of Hall with
    | downloadAll _ _ _ _ _ ?w0 = _ =>
        pose proof (downloadAll_subseteq config (label course) (length (url :: urls))
                      (url :: urls) 0 w0) as Hsub
    end.
    rewrite Hall in Hsub. exact Hsub.
Qed.

End Course.

(** X14.  When [processCourse] returns, the index page of the course is on
    the disk, at [index.html] under the local path of the course URL, and
    it holds the document type line followed by the serialisation of the
    document as rewritten, the document being the one that the last
    evaluation of the extraction ran against.  The page is written whether
    or not a file was there before, and no download that follows replaces
    it. *)
Theorem processCourse_writes_index
  (R : Runtime) (E : Environment) (course : CourseChoice) (config : InjectionConfig)
  (w w' : World) :
  processCourse course config w = (Return (), w') →
  ∃ n doc htmlDir,
    (evaluations w ≤ n < evaluations w')%nat
    ∧ evaluation n = inr doc
    ∧ localPathFromUrl (courseHref course) = Some htmlDir
    ∧ disk w' !! Fs.key (Path.join [htmlDir; "index.html"])
      = Some (Fs.File (DOCTYPE +:+ outerHTML (rewriteDocument config doc))).
Proof.
  rewrite processCourse_steps.
  destruct (gotoRejects _ _) as [message|]; [done |].
  match goal with |- context [(_ ≫= _) ?w0] => set (w3 := w0) end.
  destruct (extraction_outcome config w3) as (k & w4 & Hk & Hrun & Hev & _ & _).
  intros (extraction & w4' & Hextract & Hafter)%bind_Return_inv.
  rewrite Hrun in Hextract.
  destruct (evaluation (evaluations w3 + (k - 1))) as [m|doc] eqn:Hdoc; [done |].
  injection Hextract as <- <-.
  destruct (afterExtraction_index _ _ _ _ _ (index_truthy config doc) Hafter)
    as (htmlDir & Hdir & Hfile).
  destruct (keeps_afterExtraction quiet course config (injected config doc) w4)
    as (_ & He & _).
  rewrite Hafter in He. cbn [snd] in He.
  exists (evaluations w3 + (k - 1))%nat, doc, htmlDir.
  split_and!; [| | done | done | done].
  - subst w3. cbn [evaluations addConsole addNavigation]. lia.
  - rewrite He, Hev. lia.
Qed.

(** X14, witness: the page of MATH1010, its index and its notes. *)
Lemma processCourse_writes_index_witness :
  let R := Reference.runtime in
  let E := Scenario.flaky 1 Scenario.coursePage "PDF" in
  let config := injectionConfig "2223" false in
  ∃ w', processCourse Scenario.math1010 config Scenario.emptyWorld = (Return (), w')
        ∧ disk w' !! ["home"; "user"; "CUMATDL"; "dl"; "2223"; "MATH1010"; "index.html"]
          = Some (Fs.File (DOCTYPE +:+ outerHTML (rewriteDocument config Scenario.coursePage))).
Proof.
  intros R E config.
  set (outcome := processCourse Scenario.math1010 config Scenario.emptyWorld).
  assert (Hr : outcome.1 = Return ()) by (vm_compute; reflexivity).
  assert (Hrun : outcome = (Return (), outcome.2))
    by (rewrite <- Hr; apply surjective_pairing).
  assert (Hpath : localPathFromUrl (courseHref Scenario.math1010)
                  = Some "/home/user/CUMATDL/dl/2223/MATH1010")
    by (vm_compute; reflexivity).
  assert (Hkey : Fs.key (Path.join ["/home/user/CUMATDL/dl/2223/MATH1010"; "index.html"])
                 = ["home"; "user"; "CUMATDL"; "dl"; "2223"; "MATH1010"; "index.html"])
    by (vm_compute; reflexivity).
  destruct (processCourse_writes_index R E _ _ _ _ Hrun)
    as (n & doc & htmlDir & Hn & Hdoc & Hdir & Hfile).
  assert (doc = Scenario.coursePage) as ->.
  { clear - Hdoc. cbn in Hdoc.
    destruct (n <=? 0)%nat; [discriminate Hdoc | injection Hdoc as <-; reflexivity]. }
  rewrite Hpath in Hdir. injection Hdir as <-. rewrite Hkey in Hfile.
  exists outcome.2. split; [exact Hrun | exact Hfile].
Defined.

(** X15.  A run visits the selected courses in order and each at most
    once: the navigations of the run are those to a prefix of the
    selection, all of it when the run exits with code 0; each course
    visited costs at most three evaluations in the page, and the count of
    completed courses never exceeds the number of courses visited.  The
    exit code is 0 or 1.  Nothing is lost on the way: no path of the disk
    disappears, and the records of requests, navigations, printed lines and
    missing resources only grow. *)
Theorem run_visits_in_order
  (R : Runtime) (E : Environment) (seg : string) (courses : list CourseChoice)
  (all : bool) (w : World) :
  let code := (run seg courses all w).1 in
  let w' := (run seg courses all w).2 in
  ∃ visited,
    visited `prefix_of` courses
    ∧ navigations w' = navigations w ++ map courseHref visited
    ∧ (evaluations w ≤ evaluations w' ≤ evaluations w + 3 * length visited)%nat
    ∧ (completedCourses w ≤ completedCourses w' ≤ completedCourses w + length visited)%nat
    ∧ (code = 0 ∨ code = 1)
    ∧ (code = 0 →
       visited = courses
       ∧ completedCourses w' = (completedCourses w + length courses)%nat)
    ∧ grows w w'.
Proof.
  intros code w'. subst code w'. unfold run.
  pose proof (keeps_mainAfterSelection grows seg courses all
                (keeps_courseLoop grows _ _) w) as Hgrows.
  rewrite mainAfterSelection_steps in Hgrows |- *.
  destruct (courseLoop_browser (injectionConfig seg all) courses w)
    as (visited & Hpre & Hnav & Hev & Hdone & Hret).
  exists visited. split; [done |].
  destruct (courseLoop (injectionConfig seg all) courses w) as [[[]|e] w1];
    cbn [fst snd] in *.
  - destruct (Hret () eq_refl) as [-> Hall].
    destruct (keeps_mainAfterSelection quiet seg [] all (keeps_ret quiet ()) w1)
      as (Hn & He & Hc).
    destruct (mainAfterSelection seg [] all w1) as [[[]|e] w2];
      cbn [fst snd navigations evaluations completedCourses addConsole setCourseProgress]
        in *; rewrite Hn, He, Hc;
      (split_and!; [done | lia | lia | lia | lia | auto | done |]).
    + eapply frame_trans; [exact Hgrows | apply frame_progress].
    + eapply frame_trans; [exact Hgrows |].
      eapply frame_trans; [apply frame_progress | apply (frame_console (R:=grows))].
  - cbn [navigations evaluations completedCourses addConsole setCourseProgress].
    split_and!; [done | lia | lia | lia | lia | by right | done |].
    eapply frame_trans; [exact Hgrows |].
    eapply frame_trans; [apply frame_progress | apply (frame_console (R:=grows))].
Qed.

(** X16.  Everything a run requests has passed the filter applied before
    fetching: each request of the run is for the decoded form of a URL that
    does not start with the staff prefix, parses, and has an allowed host
    and a path under [/course_builder/]. *)
Theorem run_requests_only_filtered
  (R : Runtime) (E : Environment) (seg : string) (courses : list CourseChoice)
  (all : bool) (w : World) :
  ∃ extra,
    requests (run seg courses all w).2 = requests w ++ extra
    ∧ Forall (λ decoded,
                ∃ url u, Uri.decodeURI url = Some decoded
                  ∧ Js.startsWith url STAFF_PREFIX = false
                  ∧ newURL url None = Some u
                  ∧ Url.hostname u ∈ ALLOWED_HOSTS
                  ∧ Js.startsWith (Url.pathname u) "/course_builder/" = true) extra.
Proof.
  pose proof (keeps_mainAfterSelection (requestsOnly passedFilter) seg courses all
                (keeps_courseLoop (requestsOnly passedFilter) _ _) w)
    as (extra & Hextra & Hfiltered).
  exists extra. split.
  - unfold run. destruct (mainAfterSelection seg courses all w) as [[[]|e] w1];
      cbn [snd requests addConsole setCourseProgress] in *; done.
  - eapply Forall_impl; [exact Hfiltered |].
    intros decoded (url & Husable & Hd).
    apply usable_true in Husable as (Hstaff & u & Hu & Hhost & Hpath).
    by exists url, u.
Qed.

(** X17.  The report of missing resources.  Once the course loop has
    completed, [main] writes no report when specific courses were selected
    or when nothing is missing: it completes and leaves the disk, the
    requests and the missing log as the loop left them.  When all courses
    were selected and something is missing, and [main] completes, the file
    [missing.txt] in the folder of the normalized year name under the
    download root holds the entries of the missing log, one per line. *)
Theorem missing_report_written
  (R : Runtime) (E : Environment) (seg : string) (courses : list CourseChoice)
  (all : bool) (w w1 : World) :
  courseLoop (injectionConfig seg all) courses w = (Return (), w1) →
  (all = false ∨ missingLog w1 = [] →
   ∃ w', mainAfterSelection seg courses all w = (Return (), w')
         ∧ disk w' = disk w1 ∧ requests w' = requests w1
         ∧ missingLog w' = missingLog w1)
  ∧ (all = true → missingLog w1 ≠ [] →
     ∀ w', mainAfterSelection seg courses all w = (Return (), w') →
           disk w' !! Fs.key (Path.join [DOWNLOAD_ROOT; normalizeYear seg; "missing.txt"])
           = Some (Fs.File (Js.join (String "010" "") (missingLog w1)
                            +:+ String "010" ""))
           ∧ missingLog w' = missingLog w1).
Proof.
  intros Hloop. split.
  - intros Hnone.
    assert (Hflag : all && negb (bool_decide (missingLog w1 = [])) = false).
    { destruct Hnone as [->| ->]; [done | by rewrite andb_false_r]. }
    rewrite mainAfterSelection_steps, Hloop.
    unfold mainAfterSelection. cbn [courseLoop].
    rewrite ret_bind_run, bind_run. cbn beta. rewrite Hflag.
    by eexists.
  - intros -> Hsome w' Hmain.
    unfold mainAfterSelection in Hmain.
    apply bind_Return_inv in Hmain as ([] & wl & Hl & Hmain).
    rewrite Hloop in Hl. injection Hl as <-.
    apply bind_Return_inv in Hmain as ([] & w2 & Hreport & Hdone).
    injection Hdone as <-. cbn [disk missingLog addConsole].
    cbn beta in Hreport. rewrite (bool_decide_eq_false_2 _ Hsome) in Hreport.
    cbn [andb negb] in Hreport. cbv zeta in Hreport.
    apply bind_Return_inv in Hreport as ([] & wa & Hmk & Hreport).
    apply bind_Return_inv in Hreport as ([] & wb & Hwrite & Hlog).
    injection Hlog as <-. cbn [disk missingLog addConsole].
    unfold mkdir in Hmk. destruct (Fs.mkdirRecursive _ _) as [d1|]; [| done].
    injection Hmk as <-.
    unfold writeFile in Hwrite.
    destruct (Fs.writeFile _ _ _) as [d2|] eqn:Hw; [| done].
    injection Hwrite as <-. cbn [disk missingLog setDisk].
    split; [| done].
    rewrite (writeFile_insert _ _ _ _ Hw). apply lookup_insert_eq.
Qed.

(** X17, witness: every course selected, none to visit, one entry in the
    missing log. *)
Lemma missing_report_written_witness :
  let R := Reference.runtime in
  let E := Scenario.flaky 0 Scenario.coursePage "PDF" in
  let w := addMissing "[MATH1010] No downloadable URLs detected" Scenario.emptyWorld in
  ∃ w', mainAfterSelection "2223" [] true w = (Return (), w')
        ∧ disk w' !! ["home"; "user"; "CUMATDL"; "dl"; "_2223"; "missing.txt"]
          = Some (Fs.File ("[MATH1010] No downloadable URLs detected" +:+ String "010" "")).
Proof.
  intros R E w.
  set (outcome := mainAfterSelection "2223" [] true w).
  assert (Hr : outcome.1 = Return ()) by (vm_compute; reflexivity).
  assert (Hrun : outcome = (Return (), outcome.2))
    by (rewrite <- Hr; apply surjective_pairing).
  assert (Hkey : Fs.key (Path.join [DOWNLOAD_ROOT; normalizeYear "2223"; "missing.txt"])
                 = ["home"; "user"; "CUMATDL"; "dl"; "_2223"; "missing.txt"])
    by (vm_compute; reflexivity).
  destruct (missing_report_written R E "2223" [] true w w eq_refl) as [_ Hreport].
  destruct (Hreport eq_refl ltac:(discriminate) outcome.2 Hrun) as [Hfile _].
  rewrite Hkey in Hfile.
  exists outcome.2. split; [exact Hrun | exact Hfile].
Defined.

(** Steps that touch neither the network nor the browser. *)
Ltac keepLocal :=
  repeat match goal with
    | |- keeps ?R (if ?b then _ else _) => destruct b
    | |- keeps ?R _ =>
        first [ apply (keeps_ret R) | apply (keeps_log R) | apply (keeps_orThrow R)
              | apply (keeps_mkdir R) | apply (keeps_writeFile R)
              | apply (keeps_bind R); [| intros ?] ]
    end.

(** X18.  A course whose page yields no URL that passes the filter: when
    every document the page may present has no usable URL and
    [processCourse] returns, nothing has been requested, and the course is
    recorded once in the missing log, as having no downloadable URL, if
    the log is kept (and not at all otherwise). *)
Theorem course_without_downloads
  (R : Runtime) (E : Environment) (course : CourseChoice) (config : InjectionConfig)
  (w w' : World) :
  (∀ n doc, evaluation n = inr doc → usableUrls (collectDownloadUrls config doc) = []) →
  processCourse course config w = (Return (), w') →
  requests w' = requests w
  ∧ missingLog w'
    = missingLog w
      ++ (if reportMissing config
          then ["[" +:+ label course +:+ "] No downloadable URLs detected"]
          else []).
Proof.
  intros Hnone. rewrite processCourse_steps.
  destruct (gotoRejects _ _) as [message|]; [done |].
  match goal with |- context [(_ ≫= _) ?w0] => set (w3 := w0) end.
  assert (Hw3 : requests w3 = requests w ∧ missingLog w3 = missingLog w) by done.
  destruct Hw3 as [<- <-].
  intros (extraction & w4 & Hextract & Hafter)%bind_Return_inv.
  pose proof (keeps_retryLoop (requestsOnly (λ _, False)) (injected config) 3 3 0 w3)
    as (e1 & Hr1 & Hf1).
  pose proof (keeps_retryLoop sameLog (injected config) 3 3 0 w3) as Hl1.
  destruct (extraction_outcome config w3) as (k & w4' & _ & Hrun & _).
  change (retryLoop (injected config) 3 3 0 w3)
    with (evaluateWithRetry (injected config) 3 w3) in Hr1, Hl1.
  rewrite Hextract in Hr1, Hl1. rewrite Hrun in Hextract.
  destruct (evaluation _) as [m|doc] eqn:Hdoc; [done |].
  injection Hextract as <- <-. cbn [snd] in Hr1, Hl1.
  destruct Hf1; [| done]. rewrite app_nil_r in Hr1. rewrite <- Hr1, <- Hl1.
  clear Hr1 Hl1 Hrun.
  revert Hafter. unfold afterExtraction. cbv zeta.
  cbn [downloadUrls injected]. rewrite (Hnone _ _ Hdoc).
  intros ([] & wa & Ha & Hrest)%bind_Return_inv.
  apply bind_Return_inv in Hrest as ([] & wb & Hb & Hc).
  match type of Ha with
  | ?A _ = _ =>
      assert (HA : keeps (requestsOnly (λ _, False)) A ∧ keeps sameLog A)
        by (split; keepLocal)
  end.
  match type of Hb with
  | ?B _ = _ =>
      assert (HB : keeps (requestsOnly (λ _, False)) B ∧ keeps sameLog B)
        by (split; keepLocal)
  end.
  destruct HA as [HA1 HA2]. destruct HB as [HB1 HB2].
  specialize (HA1 w4'). specialize (HA2 w4'). specialize (HB1 wa). specialize (HB2 wa).
  rewrite Ha in HA1, HA2. rewrite Hb in HB1, HB2. cbn [snd] in *.
  destruct HA1 as (ea & HA1 & Hfa). destruct Hfa; [| done]. rewrite app_nil_r in HA1.
  destruct HB1 as (eb & HB1 & Hfb). destruct Hfb; [| done]. rewrite app_nil_r in HB1.
  unfold sameLog in HA2, HB2. rewrite <- HA1, <- HA2, <- HB1, <- HB2.
  apply bind_Return_inv in Hc as ([] & wc & Hl & Hm). injection Hl as <-.
  destruct (reportMissing config); injection Hm as <-;
    cbn [requests missingLog addMissing addConsole]; [done |].
  by rewrite app_nil_r.
Qed.

(** X18, witness: a page whose only link is a staff link. *)
Lemma course_without_downloads_witness :
  let R := Reference.runtime in
  let staffPage :=
    {| location := Scenario.pageUrl; baseURI := Url.href Scenario.pageUrl;
       listItems := [Some (Scenario.link "https://www.math.cuhk.edu.hk/~staff/office.html")];
       anchors := [Scenario.link "https://www.math.cuhk.edu.hk/~staff/office.html"] |} in
  let E := Scenario.flaky 0 staffPage "PDF" in
  let config := injectionConfig "2223" true in
  ∃ w', processCourse Scenario.math1010 config Scenario.emptyWorld = (Return (), w')
        ∧ requests w' = []
        ∧ missingLog w' = ["[MATH1010] No downloadable URLs detected"].
Proof.
  intros R staffPage E config.
  set (outcome := processCourse Scenario.math1010 config Scenario.emptyWorld).
  assert (Hr : outcome.1 = Return ()) by (vm_compute; reflexivity).
  assert (Hrun : outcome = (Return (), outcome.2))
    by (rewrite <- Hr; apply surjective_pairing).
  assert (Hnone : usableUrls (collectDownloadUrls config staffPage) = [])
    by (vm_compute; reflexivity).
  assert (Hall : ∀ n doc, evaluation n = inr doc
                          → usableUrls (collectDownloadUrls config doc) = []).
  { intros n doc Hdoc. injection Hdoc as <-. exact Hnone. }
  destruct (course_without_downloads R E Scenario.math1010 config Scenario.emptyWorld
              outcome.2 Hall Hrun) as [Hreq Hlog].
  exists outcome.2. split_and!; [exact Hrun | exact Hreq | exact Hlog].
Defined.
